(** * Doc-RAG: the documentation crawler ([src/doc_rag/scraper.py])

    A shallow embedding of [DocumentationScraper] and the properties of
    its crawl-and-extract pipeline.

    A Python string is held as the byte string of its UTF-8 encoding
    ([string]): the ASCII characters that the code splits and strips at
    are single bytes, whitespace and [len] are read character by
    character; the sets
    [visited_urls] and [queued_urls] as [gset string]; exceptions as an
    error monad ([result]); the effects of [scrape] (log records, HTTP
    requests, [time.sleep]) as an event trace carried in the state.  The
    network and the third-party libraries (requests, BeautifulSoup,
    markdownify, pypdf, [urljoin]) are collected in the class [World]. *)

From Stdlib Require Import ZArith Ascii String List Lia Bool.
From Stdlib Require Import DecimalString DecimalNat DecimalFacts.
From stdpp Require Import base option list gmap strings.

Local Open Scope string_scope.
Local Open Scope list_scope.
Local Open Scope Z_scope.

(** ** Python string primitives *)

Module Py.

(** [c in chars] for a character [c]. *)
Fixpoint in_chars (c : ascii) (chars : string) : bool :=
  match chars with
  | EmptyString => false
  | String a t => Ascii.eqb c a || in_chars c t
  end.

(** [s.startswith(pre)] *)
Fixpoint startswith (pre s : string) : bool :=
  match pre, s with
  | EmptyString, _ => true
  | String _ _, EmptyString => false
  | String a p, String b t => Ascii.eqb a b && startswith p t
  end.

(** [s.endswith(suf)] *)
Fixpoint endswith (suf s : string) : bool :=
  String.eqb s suf ||
  match s with
  | EmptyString => false
  | String _ t => endswith suf t
  end.

(** [s.endswith((suf1, suf2, ...))] with a tuple of suffixes. *)
Definition endswith_any (sufs : list string) (s : string) : bool :=
  existsb (fun suf => endswith suf s) sufs.

(** [sub in s] for strings. *)
Fixpoint contains (sub s : string) : bool :=
  startswith sub s ||
  match s with
  | EmptyString => false
  | String _ t => contains sub t
  end.

(** Stripping by a character class; [lstrip]/[rstrip] with an argument and
    the argument-less [strip] are instances. *)
Fixpoint lstrip_by (p : ascii -> bool) (s : string) : string :=
  match s with
  | EmptyString => EmptyString
  | String a t => if p a then lstrip_by p t else s
  end.

Fixpoint rstrip_by (p : ascii -> bool) (s : string) : string :=
  match s with
  | EmptyString => EmptyString
  | String a t =>
      match rstrip_by p t with
      | EmptyString => if p a then EmptyString else String a EmptyString
      | r => String a r
      end
  end.

(** [s.lstrip(chars)], [s.rstrip(chars)] *)
Definition lstrip (chars s : string) : string :=
  lstrip_by (fun a => in_chars a chars) s.
Definition rstrip (chars s : string) : string :=
  rstrip_by (fun a => in_chars a chars) s.

(** The string of the bytes [l]. *)
Fixpoint bytes (l : list nat) : string :=
  match l with
  | [] => EmptyString
  | n :: r => String (ascii_of_nat n) (bytes r)
  end.

(** The characters that [str.strip()], [str.split()] and [str.isspace()]
    take as whitespace, in UTF-8: U+0009 to U+000D, U+001C to U+0020,
    U+0085, U+00A0, U+1680, U+2000 to U+200A, U+2028, U+2029, U+202F,
    U+205F and U+3000. *)
Definition whitespace : list string :=
  List.map (fun n : nat => bytes [n]) [9; 10; 11; 12; 13; 28; 29; 30; 31; 32]%nat
  ++ [bytes [194; 133]; bytes [194; 160]; bytes [225; 154; 128]]%nat
  ++ List.map (fun n : nat => bytes [226; 128; n]%nat)
       [128; 129; 130; 131; 132; 133; 134; 135; 136; 137; 138]%nat
  ++ [bytes [226; 128; 168]; bytes [226; 128; 169]; bytes [226; 128; 175];
      bytes [226; 129; 159]; bytes [227; 128; 128]]%nat.

(** A byte that continues a character of several bytes. *)
Definition is_continuation (a : ascii) : bool :=
  let n := nat_of_ascii a in ((128 <=? n) && (n <? 192))%nat.

(** [r] is empty or starts with the first byte of a character. *)
Definition starts_character (r : string) : bool :=
  match r with
  | EmptyString => true
  | String b _ => negb (is_continuation b)
  end.

(** The whitespace character that [s] starts with, if any. *)
Definition leading_space (s : string) : option string :=
  List.find (fun w => startswith w s) whitespace.

(** [s.lstrip()]: the whitespace characters at the start are passed over,
    [skip] being the number of bytes left of the one being passed. *)
Fixpoint lstrip_space_go (skip : nat) (s : string) : string :=
  match s with
  | EmptyString => EmptyString
  | String _ t =>
      match skip with
      | S k => lstrip_space_go k t
      | O =>
          match leading_space s with
          | Some w => lstrip_space_go (String.length w - 1) t
          | None => s
          end
      end
  end.

Definition lstrip_space (s : string) : string := lstrip_space_go 0 s.

(** [s] has whitespace only. *)
Definition blank (s : string) : bool :=
  String.eqb (lstrip_space s) EmptyString.

(** [s.rstrip()]: what is left of the first place from which there is
    whitespace only. *)
Fixpoint rstrip_space (s : string) : string :=
  match s with
  | EmptyString => EmptyString
  | String a t => if blank s then EmptyString else String a (rstrip_space t)
  end.

(** [s.strip()] *)
Definition strip (s : string) : string :=
  lstrip_space (rstrip_space s).

(** [len(s)]: the number of characters, which is that of the bytes that
    start one. *)
Fixpoint len (s : string) : nat :=
  match s with
  | EmptyString => O
  | String a t => if is_continuation a then len t else S (len t)
  end.

(** [s.split(sep)] for a one-character separator: never empty. *)
Fixpoint split (sep : ascii) (s : string) : list string :=
  match s with
  | EmptyString => [EmptyString]
  | String a t =>
      if Ascii.eqb a sep then EmptyString :: split sep t
      else match split sep t with
           | h :: r => String a h :: r
           | [] => [String a EmptyString]
           end
  end.

(** [s.split(sep)[0]] and [s.split(sep)[-1]] *)
Definition split_first (sep : ascii) (s : string) : string :=
  hd EmptyString (split sep s).
Definition split_last (sep : ascii) (s : string) : string :=
  List.last (split sep s) EmptyString.

(** [sep.join(parts)] *)
Fixpoint join (sep : string) (parts : list string) : string :=
  match parts with
  | [] => EmptyString
  | [p] => p
  | p :: rest => p +:+ sep +:+ join sep rest
  end.

(** [i = s.find(c)] with the two slices [s[:i]] and [s[i+1:]];
    [None] when [c] does not occur ([i = -1]). *)
Fixpoint cut (c : ascii) (s : string) : option (string * string) :=
  match s with
  | EmptyString => None
  | String a t =>
      if Ascii.eqb a c then Some (EmptyString, t)
      else match cut c t with
           | Some (l, r) => Some (String a l, r)
           | None => None
           end
  end.

(** The longest prefix whose characters satisfy [p], and the rest. *)
Fixpoint span (p : ascii -> bool) (s : string) : string * string :=
  match s with
  | EmptyString => (EmptyString, EmptyString)
  | String a t =>
      if p a then let '(l, r) := span p t in (String a l, r)
      else (EmptyString, s)
  end.

(** [s.replace(c, "")] for each [c] of [chars]. *)
Fixpoint remove_chars (chars s : string) : string :=
  match s with
  | EmptyString => EmptyString
  | String a t =>
      if in_chars a chars then remove_chars chars t
      else String a (remove_chars chars t)
  end.

(** [s[n:]] *)
Fixpoint drop (n : nat) (s : string) : string :=
  match n, s with
  | O, _ => s
  | S _, EmptyString => EmptyString
  | S m, String _ t => drop m t
  end.

Definition is_upper (a : ascii) : bool :=
  let n := nat_of_ascii a in ((65 <=? n) && (n <=? 90))%nat.
Definition is_lower (a : ascii) : bool :=
  let n := nat_of_ascii a in ((97 <=? n) && (n <=? 122))%nat.
Definition is_digit (a : ascii) : bool :=
  let n := nat_of_ascii a in ((48 <=? n) && (n <=? 57))%nat.

(** [c.isascii() and c.isalpha()] *)
Definition is_ascii_alpha (a : ascii) : bool := is_upper a || is_lower a.

Definition lower_char (a : ascii) : ascii :=
  if is_upper a then ascii_of_nat (nat_of_ascii a + 32) else a.

(** [s.lower()] on the ASCII letters. *)
Fixpoint lower (s : string) : string :=
  match s with
  | EmptyString => EmptyString
  | String a t => String (lower_char a) (lower t)
  end.

Fixpoint forallb (p : ascii -> bool) (s : string) : bool :=
  match s with
  | EmptyString => true
  | String a t => p a && forallb p t
  end.

(** [k] copies of the character [c]. *)
Fixpoint replicate (k : nat) (c : ascii) : string :=
  match k with
  | O => EmptyString
  | S k' => String c (replicate k' c)
  end.

(** [s[:-1]] when [s] ends with [c], [s] otherwise: the removal of a
    single trailing character that the specification describes. *)
Fixpoint strip_one (c : ascii) (s : string) : string :=
  match s with
  | EmptyString => EmptyString
  | String a EmptyString => if Ascii.eqb a c then EmptyString else s
  | String a t => String a (strip_one c t)
  end.

End Py.

(** ** Exceptions *)

Inductive exn : Type :=
| ValueError        (* urllib.parse: invalid netloc *)
| AttributeError    (* attribute access on [None] *)
| RequestException  (* requests: connection error, timeout, HTTPError *)
| PdfReadError      (* pypdf: malformed document *)
| OtherError (msg : string).

Inductive result (A : Type) : Type :=
| Ok (a : A)
| Raise (e : exn).
Arguments Ok {A} a.
Arguments Raise {A} e.

Definition rbind {A B : Type} (m : result A) (k : A -> result B) : result B :=
  match m with
  | Ok a => k a
  | Raise e => Raise e
  end.

Notation "x <- m ;;; k" := (rbind m (fun x => k))
  (at level 100, m at next level, right associativity).

(** ** Data exchanged with the libraries *)

(** A parsed HTML tree as BeautifulSoup presents it: strings, and tags with
    their name, the value of the multi-valued [class] attribute, the [href]
    attribute if present, and their contents.  A document (the soup) is the
    list of its top-level nodes. *)
#[warnings="-register-all"]
Inductive node : Type :=
| Text (s : string)
| Tag (name : string) (classes : list string) (href : option string)
      (contents : list node).

Definition soup : Type := list node.

(** What [requests.get] returns. *)
Record response : Type := {
  status_code : Z;
  content_type : option string;   (* headers.get("content-type") *)
  content : string;
}.

(** What [pypdf.PdfReader] exposes: the text of each page (extraction may
    raise) and the title of the metadata ([None] when there is no metadata
    or no title). *)
Record pdf_reader : Type := {
  pages : list (result string);
  metadata_title : result (option string);
}.

(** The network and the libraries the scraper calls.
    - [requests_get n u]: the outcome of [requests.get(u, timeout=10)] when
      [n] requests have been issued before (the answer of a server may
      change with time);
    - [BeautifulSoup body]: [BeautifulSoup(body, "html.parser")];
    - [markdownify tag]: [md(str(tag), heading_style="ATX")];
    - [PdfReader bytes]: [pypdf.PdfReader(BytesIO(bytes))];
    - [urljoin base href]: [urllib.parse.urljoin], which raises where
      [urlparse] does;
    - [check_bracketed_netloc], [checknetloc_nfkc]: the checks that
      [urlsplit] makes on a netloc with both brackets (IPv6 literal syntax)
      and on a netloc that is not ASCII (NFKC normalization); [false]
      stands for [ValueError]. *)
Class World : Type := {
  requests_get : nat -> string -> result response;
  BeautifulSoup : string -> soup;
  markdownify : node -> string;
  PdfReader : string -> result pdf_reader;
  urljoin : string -> string -> result string;
  check_bracketed_netloc : string -> bool;
  checknetloc_nfkc : string -> bool;
}.

(** ** [urllib.parse]: the netloc and path of a URL

    [urlsplit] and [urlparse] as CPython 3.11 defines them, for the three
    components that the scraper and the parser itself read. *)

Module Urllib.

Record ParseResult : Type := {
  scheme : string;
  netloc : string;
  path : string;
}.

Definition c0_control_or_space (a : ascii) : bool :=
  (nat_of_ascii a <=? 32)%nat.

Definition unsafe_bytes : string :=
  String "009" (String "013" (String "010" EmptyString)).

Definition scheme_char (a : ascii) : bool :=
  Py.is_lower a || Py.is_upper a || Py.is_digit a || Py.in_chars a "+-.".

Definition uses_params : list string :=
  [""; "ftp"; "hdl"; "prospero"; "http"; "imap"; "https"; "shttp"; "rtsp";
   "rtspu"; "sip"; "sips"; "mms"; "sftp"; "tel"].

(** The scheme prefix of [urlsplit]: [i = url.find(':')], and when [i > 0],
    [url[0]] is an ASCII letter and [url[:i]] has scheme characters only,
    the result is [(url[:i].lower(), url[i+1:])]. *)
Definition split_scheme (url : string) : string * string :=
  match Py.cut ":" url with
  | Some (String a _ as pre, rest) =>
      if Py.is_ascii_alpha a && Py.forallb scheme_char pre
      then (Py.lower pre, rest)
      else (EmptyString, url)
  | _ => (EmptyString, url)
  end.

(** [_splitnetloc(url, 2)]: the netloc runs to the first of [/?#]. *)
Definition splitnetloc (url : string) : string * string :=
  Py.span (fun a => negb (Py.in_chars a "/?#")) (Py.drop 2 url).

Definition is_ascii (s : string) : bool :=
  Py.forallb (fun a => (nat_of_ascii a <? 128)%nat) s.

(** [_splitparams(url)[0]]: [url[:i]] for [i] the first [;] at or after
    the last [/] (the whole of [url] when there is none). *)
Fixpoint splitparams (url : string) : string :=
  match url with
  | EmptyString => EmptyString
  | String a t =>
      if Py.in_chars "/" t then String a (splitparams t)
      else Py.split_first ";" url
  end.

(** The first steps of [urlsplit]: leading C0 control characters and
    spaces are stripped, tabs and newlines removed, the scheme split off,
    and after a leading [//] the netloc.  The result is the scheme, the
    netloc and the rest of the URL. *)
Definition split_authority (url : string) : string * string * string :=
  let url := Py.lstrip_by c0_control_or_space url in
  let url := Py.remove_chars unsafe_bytes url in
  let '(sch, url) := split_scheme url in
  let '(nl, url) :=
    if Py.startswith "//" url then splitnetloc url
    else (EmptyString, url) in
  (sch, nl, url).

(** The netloc that [urlsplit] finds, before it validates it. *)
Definition netloc_of (url : string) : string :=
  snd (fst (split_authority url)).

Section Parse.
Context `{W : World}.

(** The netloc validation of [urlsplit]; [false] raises [ValueError]. *)
Definition netloc_ok (nl : string) : bool :=
  let open := Py.in_chars "[" nl in
  let close := Py.in_chars "]" nl in
  if (open && negb close) || (close && negb open) then false
  else if open && close && negb (check_bracketed_netloc nl) then false
  else if (String.eqb nl EmptyString) || is_ascii nl then true
  else checknetloc_nfkc nl.

Definition urlsplit (url : string) : result ParseResult :=
  let '(sch, nl, url) := split_authority url in
  if netloc_ok nl then
    let url := Py.split_first "#" url in
    let url := Py.split_first "?" url in
    Ok {| scheme := sch; netloc := nl; path := url |}
  else Raise ValueError.

Definition urlparse (url : string) : result ParseResult :=
  r <- urlsplit url ;;;
  if existsb (String.eqb (scheme r)) uses_params && Py.in_chars ";" (path r)
  then Ok {| scheme := scheme r; netloc := netloc r;
             path := splitparams (path r) |}
  else Ok r.
End Parse.

End Urllib.

(** ** BeautifulSoup: searching and mutating the parsed tree *)

Module Bs4.

(** A reference to a tag inside a document: the surroundings of the tag,
    from the top of the document down to it.  Mutating the tag through the
    reference changes the document, see [plug]. *)
Inductive ctx : Type :=
| Here (before after : list node)
| Under (before : list node) (name : string) (classes : list string)
        (href : option string) (inner : ctx) (after : list node).

(** The document in which the referenced position holds [m]. *)
Fixpoint plug (c : ctx) (m : node) : soup :=
  match c with
  | Here before after => before ++ m :: after
  | Under before nm cl h inner after =>
      before ++ Tag nm cl h (plug inner m) :: after
  end.

(** One level of the search for the first node, in document order, that
    satisfies [p]: [before] holds the siblings already passed, [below]
    searches the contents of a node. *)
Definition scan (p : node -> bool) (below : node -> option (ctx * node))
    : list node -> list node -> option (ctx * node) :=
  fix go (before l : list node) {struct l} :=
    match l with
    | [] => None
    | n :: r =>
        if p n then Some (Here before r, n)
        else
          match below n with
          | Some (c, m) =>
              match n with
              | Tag nm cl h _ => Some (Under before nm cl h c r, m)
              | Text _ => None
              end
          | None => go (before ++ [n]) r
          end
    end.

Fixpoint find_below (p : node -> bool) (n : node) : option (ctx * node) :=
  match n with
  | Text _ => None
  | Tag _ _ _ cs => scan p (find_below p) [] cs
  end.

(** The first node of the document that satisfies [p], as a reference. *)
Definition find_ref (p : node -> bool) (s : soup) : option (ctx * node) :=
  scan p (find_below p) [] s.

(** [soup.find(...)]: the tag itself, or [None]. *)
Definition find (p : node -> bool) (s : soup) : option node :=
  snd <$> find_ref p s.

(** [find("name")] *)
Definition named (nm : string) (n : node) : bool :=
  match n with
  | Text _ => false
  | Tag nm' _ _ _ => String.eqb nm' nm
  end.

(** [find("name", class_=[c1, c2, ...])]: one of the tag's classes is
    among those listed. *)
Definition named_with_class (nm : string) (cls : list string) (n : node)
    : bool :=
  match n with
  | Text _ => false
  | Tag nm' cl _ _ =>
      String.eqb nm' nm &&
      existsb (fun c => existsb (String.eqb c) cls) cl
  end.

(** [a or b] on the results of [find] (a tag is always truthy). *)
Definition or_else {A : Type} (a b : option A) : option A :=
  match a with
  | Some _ => a
  | None => b
  end.

(** [for element in tag.find_all(names): element.decompose()]: the tag
    afterwards, every descendant named in [names] gone, at any depth.  Only
    descendants are searched, never the tag itself. *)
Fixpoint decompose_all (names : list string) (n : node) : node :=
  match n with
  | Text s => Text s
  | Tag nm cl h cs =>
      Tag nm cl h
        (flat_map (fun c => if existsb (fun x => named x c) names then []
                            else [decompose_all names c]) cs)
  end.

(** The [href] of a tag that [find_all("a", href=True)] selects. *)
Definition own_href (nm : string) (h : option string) : list string :=
  match h with
  | Some x => if String.eqb nm "a" then [x] else []
  | None => []
  end.

(** [link["href"] for link in tag.find_all("a", href=True)], in document
    order, the tag itself included. *)
Fixpoint hrefs_node (n : node) : list string :=
  match n with
  | Text _ => []
  | Tag nm _ h cs =>
      own_href nm h ++ flat_map hrefs_node cs
  end.

(** [link["href"] for link in soup.find_all("a", href=True)] *)
Definition hrefs (s : soup) : list string := flat_map hrefs_node s.

(** The [href]s that [find_all("a", href=True)] meets before and after
    the referenced position. *)
Fixpoint hrefs_before (c : ctx) : list string :=
  match c with
  | Here before _ => hrefs before
  | Under before nm _ h inner _ =>
      hrefs before ++ own_href nm h ++ hrefs_before inner
  end.

Fixpoint hrefs_after (c : ctx) : list string :=
  match c with
  | Here _ after => hrefs after
  | Under _ _ _ _ inner after => hrefs_after inner ++ hrefs after
  end.

(** [visible names h n]: [n] is, or has below it, an [a] tag with the
    [href] [h] that is not inside a descendant of [n] named in [names]. *)
Inductive visible (names : list string) (h : string) : node -> Prop :=
| visible_here cl cs : visible names h (Tag "a" cl (Some h) cs)
| visible_below nm cl hr cs c :
    In c cs ->
    existsb (fun x => named x c) names = false ->
    visible names h c ->
    visible names h (Tag nm cl hr cs).

(** The strings at and below a node, in document order. *)
Fixpoint strings (n : node) : list string :=
  match n with
  | Text s => [s]
  | Tag _ _ _ cs => flat_map strings cs
  end.

(** [tag.get_text(strip=True)]: the stripped strings that are not empty,
    concatenated. *)
Definition get_text_strip (n : node) : string :=
  Py.join EmptyString
    (List.filter (fun s => negb (String.eqb s EmptyString))
                 (List.map Py.strip (strings n))).

End Bs4.

(** ** The scraper *)

(** [response.raise_for_status()]: an [HTTPError] for the client and server
    error statuses. *)
Definition raise_for_status (r : response) : result unit :=
  if (400 <=? status_code r) && (status_code r <? 600)
  then Raise RequestException
  else Ok tt.

(** The dictionaries produced by the extractors (keys [url], [title],
    [content]). *)
Record document : Type := {
  doc_url : string;
  doc_title : string;
  doc_content : string;
}.

(** What [scrape] does to the outside, in order: log records, HTTP requests
    and [time.sleep] (in hundredths of a second). *)
Inductive event : Type :=
| LogInfo (n total : Z) (url : string)     (* "Scraping (n/total): url" *)
| WarnScraping (url : string) (e : exn)    (* "Error scraping url: e" *)
| WarnPdf (url : string) (e : exn)         (* "Error parsing PDF url: e" *)
| HttpGet (url : string)
| Sleep (hundredths : nat).

(** The time slept so far, in hundredths of a second. *)
Fixpoint slept (tr : list event) : nat :=
  match tr with
  | [] => 0
  | Sleep k :: tr' => k + slept tr'
  | _ :: tr' => slept tr'
  end.

(** The URLs requested so far. *)
Definition requested (tr : list event) : list string :=
  omap (fun e => match e with HttpGet u => Some u | _ => None end) tr.

(** The attributes of [DocumentationScraper] fixed by [__init__]. *)
Record scraper : Type := {
  base_url : string;
  base_path : string;
  max_pages : Z;
  domain : string;
}.

(** The attributes that [scrape] mutates, its local variables, and the
    trace of its effects. *)
Record state : Type := {
  visited_urls : gset string;
  queued_urls : gset string;
  documents : list document;
  urls_to_visit : list string;
  total_pages : Z;
  trace : list event;
}.

Definition excluded_suffixes : list string :=
  [".zip"; ".tar.gz"; ".jpg"; ".png"; ".gif"; ".svg"; ".ico"].

Definition removed_tags : list string :=
  ["script"; "style"; "nav"; "header"; "footer"].

Definition content_classes : list string :=
  ["content"; "documentation"; "docs"].

(** [bool(s.strip())] *)
Definition nonblank (s : string) : bool :=
  negb (String.eqb (Py.strip s) EmptyString).

Definition log (e : event) (st : state) : state :=
  {| visited_urls := visited_urls st; queued_urls := queued_urls st;
     documents := documents st; urls_to_visit := urls_to_visit st;
     total_pages := total_pages st; trace := trace st ++ [e] |}.

Definition add_visited (u : string) (st : state) : state :=
  {| visited_urls := {[u]} ∪ visited_urls st; queued_urls := queued_urls st;
     documents := documents st; urls_to_visit := urls_to_visit st;
     total_pages := total_pages st; trace := trace st |}.

Definition set_queued (q : gset string) (st : state) : state :=
  {| visited_urls := visited_urls st; queued_urls := q;
     documents := documents st; urls_to_visit := urls_to_visit st;
     total_pages := total_pages st; trace := trace st |}.

Definition set_urls_to_visit (l : list string) (st : state) : state :=
  {| visited_urls := visited_urls st; queued_urls := queued_urls st;
     documents := documents st; urls_to_visit := l;
     total_pages := total_pages st; trace := trace st |}.

Definition set_total_pages (n : Z) (st : state) : state :=
  {| visited_urls := visited_urls st; queued_urls := queued_urls st;
     documents := documents st; urls_to_visit := urls_to_visit st;
     total_pages := n; trace := trace st |}.

(** [if doc["content"].strip(): self.documents.append(doc)] *)
Definition add_document (doc : document) (st : state) : state :=
  {| visited_urls := visited_urls st; queued_urls := queued_urls st;
     documents := if nonblank (doc_content doc) then documents st ++ [doc]
                  else documents st;
     urls_to_visit := urls_to_visit st;
     total_pages := total_pages st; trace := trace st |}.

Section Scraper.
Context `{W : World}.

(** The scope of the crawl: the conditions of [is_valid_url] that do not
    depend on what has been seen. *)
Definition within_scope (self : scraper) (url : string) : Prop :=
  ∃ parsed, Urllib.urlparse url = Ok parsed ∧
    Urllib.netloc parsed = domain self ∧
    Py.startswith (base_path self) (Py.rstrip "/" (Urllib.path parsed)) = true ∧
    Py.endswith_any excluded_suffixes url = false.

(** [__init__]; the sets and the document list start empty, see
    [seed_state]. *)
Definition init (base_url : string) (max_pages : Z) : result scraper :=
  p <- Urllib.urlparse base_url ;;;
  d <- Urllib.urlparse base_url ;;;
  Ok {| base_url := Py.rstrip "/" base_url;
        base_path := Py.rstrip "/" (Urllib.path p);
        max_pages := max_pages;
        domain := Urllib.netloc d |}.

(** [is_valid_url] *)
Definition is_valid_url (self : scraper) (visited queued : gset string)
    (url : string) : result bool :=
  parsed <- Urllib.urlparse url ;;;
  if negb (String.eqb (Urllib.netloc parsed) (domain self)) then Ok false
  else
    let url_path := Py.rstrip "/" (Urllib.path parsed) in
    if negb (Py.startswith (base_path self) url_path) then Ok false
    else if bool_decide (url ∈ visited) || bool_decide (url ∈ queued)
    then Ok false
    else if Py.endswith_any excluded_suffixes url then Ok false
    else Ok true.

(** [normalize_url] *)
Definition normalize_url (url : string) : result string :=
  let url := Py.split_first "#" url in
  parsed <- Urllib.urlparse url ;;;
  if negb (String.eqb (Urllib.path parsed) "/") then Ok (Py.rstrip "/" url)
  else Ok url.

(** The URL that [extract_links] makes of an [href] found on the page
    [current_url]. *)
Definition resolves (current_url href url : string) : Prop :=
  (a <- urljoin current_url href ;;; normalize_url a) = Ok url.

(** The loop of [extract_links] over the [href]s found in the page.  The
    additions to [queued_urls] made before an exception remain. *)
Fixpoint extract_links_from (self : scraper) (current_url : string)
    (visited : gset string) (hs : list string)
    (queued : gset string) (links : list string)
    : gset string * result (list string) :=
  match hs with
  | [] => (queued, Ok links)
  | href :: hs' =>
      match (absolute_url <- urljoin current_url href ;;;
             absolute_url <- normalize_url absolute_url ;;;
             valid <- is_valid_url self visited queued absolute_url ;;;
             Ok (absolute_url, valid)) with
      | Raise e => (queued, Raise e)
      | Ok (absolute_url, true) =>
          extract_links_from self current_url visited hs'
            ({[absolute_url]} ∪ queued) (links ++ [absolute_url])
      | Ok (_, false) =>
          extract_links_from self current_url visited hs' queued links
      end
  end.

(** [extract_links]: the new [queued_urls] and the returned list. *)
Definition extract_links (self : scraper) (s : soup) (current_url : string)
    (visited queued : gset string) : gset string * result (list string) :=
  extract_links_from self current_url visited (Bs4.hrefs s) queued [].

(** The main content area of [extract_content], as a reference into the
    document. *)
Definition find_main_content (s : soup) : option (Bs4.ctx * node) :=
  Bs4.or_else (Bs4.find_ref (Bs4.named "main") s)
  (Bs4.or_else (Bs4.find_ref (Bs4.named "article") s)
  (Bs4.or_else
     (Bs4.find_ref (Bs4.named_with_class "div" content_classes) s)
     (Bs4.find_ref (Bs4.named "body") s))).

(** [extract_content]: the record and the document as the call leaves it
    (the tags are decomposed in the caller's [soup]). *)
Definition extract_content (s : soup) (url : string)
    : result (document * soup) :=
  match find_main_content s with
  | None => Raise AttributeError
  | Some (c, m) =>
      let m := Bs4.decompose_all removed_tags m in
      let s := Bs4.plug c m in
      let title_text :=
        match Bs4.find (Bs4.named "h1") s with
        | Some t => Bs4.get_text_strip t
        | None => url
        end in
      Ok ({| doc_url := url; doc_title := title_text;
             doc_content := markdownify m |}, s)
  end.

(** The page loop of [extract_pdf_content]. *)
Fixpoint page_texts (ps : list (result string)) : result (list string) :=
  match ps with
  | [] => Ok []
  | p :: r =>
      text <- p ;;;
      rest <- page_texts r ;;;
      Ok (if nonblank text then text :: rest else rest)
  end.

(** The body of the [try] of [extract_pdf_content]. *)
Definition parse_pdf (pdf_bytes url : string) : result document :=
  pdf <- PdfReader pdf_bytes ;;;
  text_content <- page_texts (pages pdf) ;;;
  let content :=
    Py.join (String "010" (String "010" EmptyString)) text_content in
  meta <- metadata_title pdf ;;;
  let filename := Py.split_last "/" url in
  let first_line := Py.strip (Py.split_first "010" content) in
  let title :=
    if negb (String.eqb (default EmptyString meta) EmptyString)
    then default EmptyString meta
    else if negb (String.eqb content EmptyString)
            && negb (String.eqb first_line EmptyString)
            && (Py.len first_line <? 200)%nat
    then first_line
    else filename in
  Ok {| doc_url := url; doc_title := title; doc_content := content |}.

(** [extract_pdf_content]: the record and the warning logged, if any. *)
Definition extract_pdf_content (pdf_bytes url : string)
    : document * list event :=
  match parse_pdf pdf_bytes url with
  | Ok doc => (doc, [])
  | Raise e =>
      ({| doc_url := url; doc_title := Py.split_last "/" url;
          doc_content := EmptyString |}, [WarnPdf url e])
  end.

(** [requests.get(url, timeout=10)] followed by [raise_for_status()]. *)
Definition fetch (n : nat) (url : string) : result response :=
  r <- requests_get n url ;;;
  _ <- raise_for_status r ;;;
  Ok r.

(** What follows [self.visited_urls.add(url)] in the [try]: extraction and
    link discovery.  The state reached is kept when an exception ends it. *)
Definition process (self : scraper) (url : string) (r : response)
    (st : state) : state * result unit :=
  let ctype := Py.lower (default EmptyString (content_type r)) in
  let is_pdf :=
    Py.endswith ".pdf" url || Py.contains "application/pdf" ctype in
  if is_pdf then
    let '(doc, warnings) := extract_pdf_content (content r) url in
    (add_document doc (fold_left (fun s e => log e s) warnings st), Ok tt)
  else
    match extract_content (BeautifulSoup (content r)) url with
    | Raise e => (st, Raise e)
    | Ok (doc, s) =>
        let st := add_document doc st in
        let '(queued, new_links) :=
          extract_links self s url (visited_urls st) (queued_urls st) in
        let st := set_queued queued st in
        match new_links with
        | Raise e => (st, Raise e)
        | Ok links =>
            (set_urls_to_visit (urls_to_visit st ++ links) st, Ok tt)
        end
    end.

(** [url = urls_to_visit.pop(0)] and the log line that follows. *)
Definition dequeue (url : string) (rest : list string) (st : state)
    : state :=
  log (LogInfo (Z.of_nat (size (visited_urls st)) + 1) (total_pages st) url)
      (set_urls_to_visit rest st).

(** One iteration of the [while] loop of [scrape]. *)
Definition loop_body (self : scraper) (st : state) : state :=
  match urls_to_visit st with
  | [] => st
  | url :: rest =>
      let st := dequeue url rest st in
      if bool_decide (url ∈ visited_urls st) then st
      else
        let n := length (requested (trace st)) in
        let st := log (HttpGet url) st in
        match fetch n url with
        | Raise e => log (WarnScraping url e) st
        | Ok r =>
            match process self url r (add_visited url st) with
            | (st, Raise e) => log (WarnScraping url e) st
            | (st, Ok _) =>
                let st :=
                  set_total_pages
                    (Z.min (max_pages self)
                           (Z.of_nat (length (urls_to_visit st)))) st in
                log (Sleep 51) st
            end
        end
  end.

(** How an iteration ends: the URL was already visited ([continue]), the
    request failed, extraction or link discovery raised after the request
    succeeded, or the [try] block ran to its end. *)
Inductive outcome : Type :=
| NothingPending
| Skipped
| FetchFailed (e : exn)
| ProcessingFailed (e : exn)
| Completed.

Definition outcome_of (self : scraper) (st : state) : outcome :=
  match urls_to_visit st with
  | [] => NothingPending
  | url :: rest =>
      if bool_decide (url ∈ visited_urls st) then Skipped
      else
        match fetch (length (requested (trace st))) url with
        | Raise e => FetchFailed e
        | Ok r =>
            match snd (process self url r
                         (add_visited url
                            (log (HttpGet url) (dequeue url rest st)))) with
            | Raise e => ProcessingFailed e
            | Ok _ => Completed
            end
        end
  end.

(** The condition of the [while] loop. *)
Definition continue (self : scraper) (st : state) : bool :=
  match urls_to_visit st with
  | [] => false
  | _ :: _ => Z.of_nat (size (visited_urls st)) <? max_pages self
  end.

(** The state after at most [n] iterations of the loop. *)
Fixpoint run (self : scraper) (n : nat) (st : state) : state :=
  match n with
  | O => st
  | S k => if continue self st then run self k (loop_body self st) else st
  end.

(** The loop with [fuel] iterations at its disposal: [None] when they do
    not suffice to leave it. *)
Fixpoint scrape_loop (self : scraper) (fuel : nat) (st : state)
    : option state :=
  if continue self st then
    match fuel with
    | O => None
    | S k => scrape_loop self k (loop_body self st)
    end
  else Some st.

(** The state in which [scrape] enters its loop, on a scraper as
    [__init__] leaves it. *)
Definition seed_state (self : scraper) : result state :=
  normalized_base <- normalize_url (base_url self) ;;;
  Ok {| visited_urls := ∅;
        queued_urls := {[normalized_base]};
        documents := [];
        urls_to_visit := [normalized_base];
        total_pages := Z.min (max_pages self) 1;
        trace := [] |}.

(** [scrape] *)
Definition scrape (self : scraper) (fuel : nat)
    : option (result (list document)) :=
  match seed_state self with
  | Raise e => Some (Raise e)
  | Ok st => (fun st' => Ok (documents st')) <$> scrape_loop self fuel st
  end.

(** What holds between the iterations of the loop.  [seed] is the URL the
    crawl started from. *)
Record crawl_invariant (self : scraper) (seed : string) (st : state)
    : Prop := {
  inv_pending_nodup : NoDup (urls_to_visit st);
  inv_pending_queued : ∀ u, u ∈ urls_to_visit st → u ∈ queued_urls st;
  inv_requested_queued :
    ∀ u, u ∈ requested (trace st) → u ∈ queued_urls st;
  inv_requested_left :
    ∀ u, u ∈ requested (trace st) → u ∉ urls_to_visit st;
  inv_requested_nodup : NoDup (requested (trace st));
  inv_visited_requested :
    ∀ u, u ∈ visited_urls st → u ∈ requested (trace st);
  inv_budget : Z.of_nat (size (visited_urls st)) ≤ Z.max 0 (max_pages self);
  inv_scope :
    ∀ u, u ∈ urls_to_visit st → u = seed ∨ within_scope self u;
}.

(** A finite link graph closed under the scope: whenever a page is served,
    each of its links that resolves to a URL within the scope resolves to
    a URL of [V]. *)
Definition link_graph_within (self : scraper) (V : gset string) : Prop :=
  ∀ n u r h l,
    requests_get n u = Ok r →
    h ∈ Bs4.hrefs (BeautifulSoup (content r)) →
    resolves u h l →
    within_scope self l →
    l ∈ V.

End Scraper.

(** ** The operations as the specification words them *)

Module Spec.
Section Spec.
Context `{W : World}.

(** UrlNormalizer: drop everything from [#] onward; if the path is not
    exactly [/], strip a single trailing [/]. *)
Definition normalize (url : string) : result string :=
  let url := Py.split_first "#" url in
  parsed <- Urllib.urlparse url ;;;
  if String.eqb (Urllib.path parsed) "/" then Ok url
  else Ok (Py.strip_one "/" url).

(** The host of a netloc [userinfo@host:port]: what follows the last
    [@], up to the port, in lower case; for a host in brackets what is
    between the brackets. *)
Definition host (netloc : string) : string :=
  let hostinfo := Py.split_last "@" netloc in
  match Py.cut "[" hostinfo with
  | Some (_, bracketed) => Py.lower (Py.split_first "]" bracketed)
  | None => Py.lower (Py.split_first ":" hostinfo)
  end.

(** ScopeFilter: (a) host, (b) path prefix after stripping a trailing
    [/], (c) not seen, (d) the path has no excluded extension. *)
Definition in_scope (self : scraper) (visited queued : gset string)
    (url : string) : result bool :=
  parsed <- Urllib.urlparse url ;;;
  Ok (String.eqb (host (Urllib.netloc parsed)) (domain self)
      && Py.startswith (base_path self)
           (Py.strip_one "/" (Urllib.path parsed))
      && negb (bool_decide (url ∈ visited) || bool_decide (url ∈ queued))
      && negb (Py.endswith_any excluded_suffixes (Urllib.path parsed))).
End Spec.
End Spec.

(** ** Worlds for the examples *)

(** No network, and library checks that accept every netloc. *)
Definition offline_world : World := {|
  requests_get := fun _ _ => Raise RequestException;
  BeautifulSoup := fun _ => [];
  markdownify := fun n => Py.join " " (Bs4.strings n);
  PdfReader := fun _ => Raise PdfReadError;
  urljoin := fun _ href => Ok href;
  check_bracketed_netloc := fun _ => true;
  checknetloc_nfkc := fun _ => true;
|}.


(** A small site: the response to a request carries the URL as its body, and
    the parser turns the body of the start page into [guide_page] and any
    other body into a page without links. *)
Definition anchor (href : string) : node :=
  Tag "a" [] (Some href) [Text "link"].

Definition guide_page : soup :=
  [Tag "html" [] None
     [Tag "body" [] None
        [Tag "nav" [] None [anchor "https://docs.example.com/guide/menu"];
         Tag "main" [] None
           [Tag "nav" [] None [anchor "https://docs.example.com/guide/hidden"];
            Tag "h1" [] None [Text "Guide"];
            anchor "https://docs.example.com/guide/intro/#top";
            anchor "https://other.com/x"]]]].

(** [guide_page] as [extract_content] leaves it: the [nav] inside [main] is
    gone, the one outside is not. *)
Definition guide_page_cleaned : soup :=
  [Tag "html" [] None
     [Tag "body" [] None
        [Tag "nav" [] None [anchor "https://docs.example.com/guide/menu"];
         Tag "main" [] None
           [Tag "h1" [] None [Text "Guide"];
            anchor "https://docs.example.com/guide/intro/#top";
            anchor "https://other.com/x"]]]].

(** The URLs of the site within the scope of [guide_scraper]. *)
Definition guide_graph : gset string :=
  {["https://docs.example.com/guide/menu";
    "https://docs.example.com/guide/hidden";
    "https://docs.example.com/guide/intro"]}.

Definition guide_response : response := {|
  status_code := 200;
  content_type := Some "text/html; charset=utf-8";
  content := "https://docs.example.com/guide";
|}.

Definition site_world : World := {|
  requests_get := fun _ u =>
    Ok {| status_code := 200; content_type := Some "text/html; charset=utf-8";
          content := u |};
  BeautifulSoup := fun body =>
    if String.eqb body "https://docs.example.com/guide" then guide_page
    else [Tag "html" [] None [Tag "body" [] None [Tag "p" [] None [Text body]]]];
  markdownify := fun n => Py.join " " (Bs4.strings n);
  PdfReader := fun _ => Raise PdfReadError;
  urljoin := fun _ href => Ok href;
  check_bracketed_netloc := fun _ => true;
  checknetloc_nfkc := fun _ => true;
|}.

(** A server that answers every request with [304 Not Modified]. *)
Definition not_modified_world : World := {|
  requests_get := fun _ _ =>
    Ok {| status_code := 304; content_type := None; content := "" |};
  BeautifulSoup := fun _ => [];
  markdownify := fun n => Py.join " " (Bs4.strings n);
  PdfReader := fun _ => Raise PdfReadError;
  urljoin := fun _ href => Ok href;
  check_bracketed_netloc := fun _ => true;
  checknetloc_nfkc := fun _ => true;
|}.

(** The state in which [scrape] enters its loop on [guide_scraper]. *)
Definition guide_seed : state := {|
  visited_urls := ∅;
  queued_urls := {["https://docs.example.com/guide"]};
  documents := [];
  urls_to_visit := ["https://docs.example.com/guide"];
  total_pages := 1;
  trace := [];
|}.

(** The scraper that [DocumentationScraper("https://docs.example.com/guide/")]
    builds; see [init_guide_scraper]. *)
Definition guide_scraper : scraper := {|
  base_url := "https://docs.example.com/guide";
  base_path := "/guide";
  max_pages := 100;
  domain := "docs.example.com";
|}.

(** The same scraper with a negative page budget, as
    [DocumentationScraper(url, max_pages=-1)] builds it. *)
Definition negative_budget_scraper : scraper := {|
  base_url := "https://docs.example.com/guide";
  base_path := "/guide";
  max_pages := -1;
  domain := "docs.example.com";
|}.

(** The scraper started on an archive, and the state in which its loop
    starts. *)
Definition archive_scraper : scraper := {|
  base_url := "https://docs.example.com/files/archive.zip";
  base_path := "/files/archive.zip";
  max_pages := 100;
  domain := "docs.example.com";
|}.

Definition archive_seed : state := {|
  visited_urls := ∅;
  queued_urls := {["https://docs.example.com/files/archive.zip"]};
  documents := [];
  urls_to_visit := ["https://docs.example.com/files/archive.zip"];
  total_pages := 1;
  trace := [];
|}.

(** ** Further definitions for the properties of the crawl *)

(** The ContentClassifier of [scrape]: [url.endswith(".pdf") or
    "application/pdf" in content_type] on the lower-cased header. *)
Definition is_pdf (url : string) (r : response) : bool :=
  Py.endswith ".pdf" url
  || Py.contains "application/pdf"
       (Py.lower (default EmptyString (content_type r))).

(** The documents gathered so far: one at most for a URL, each of a visited
    URL, none with blank content. *)
Definition documents_ok (st : state) : Prop :=
  NoDup (map doc_url (documents st)) ∧
  ∀ d, d ∈ documents st →
       doc_url d ∈ visited_urls st ∧ nonblank (doc_content d) = true.

(** The pages of two small sites: a list of links in a [body]. *)
Definition link_page (hrefs : list string) : soup :=
  [Tag "html" [] None [Tag "body" [] None (List.map anchor hrefs)]].

Definition text_page (text : string) : soup :=
  [Tag "html" [] None [Tag "body" [] None [Tag "p" [] None [Text text]]]].

(** A site on which the request of [/guide/a] fails: the start page links
    to [a] and [b], and [b] links to [a] again and to [c]. *)
Definition flaky_world : World := {|
  requests_get := fun _ u =>
    if String.eqb u "https://docs.example.com/guide/a"
    then Raise RequestException
    else Ok {| status_code := 200; content_type := Some "text/html";
               content := u |};
  BeautifulSoup := fun body =>
    if String.eqb body "https://docs.example.com/guide"
    then link_page ["https://docs.example.com/guide/a";
                    "https://docs.example.com/guide/b"]
    else if String.eqb body "https://docs.example.com/guide/b"
    then link_page ["https://docs.example.com/guide/a";
                    "https://docs.example.com/guide/c"]
    else text_page body;
  markdownify := fun n => Py.join " " (Bs4.strings n);
  PdfReader := fun _ => Raise PdfReadError;
  urljoin := fun _ href => Ok href;
  check_bracketed_netloc := fun _ => true;
  checknetloc_nfkc := fun _ => true;
|}.

(** A site on which the page [/guide/a] has, after a link to [lost], a
    link that [urljoin] rejects; the page [b] links to [lost] too, and to
    [c]. *)
Definition stranding_world : World := {|
  requests_get := fun _ u =>
    Ok {| status_code := 200; content_type := Some "text/html"; content := u |};
  BeautifulSoup := fun body =>
    if String.eqb body "https://docs.example.com/guide"
    then link_page ["https://docs.example.com/guide/a";
                    "https://docs.example.com/guide/b"]
    else if String.eqb body "https://docs.example.com/guide/a"
    then link_page ["https://docs.example.com/guide/lost"; "http://[broken"]
    else if String.eqb body "https://docs.example.com/guide/b"
    then link_page ["https://docs.example.com/guide/lost";
                    "https://docs.example.com/guide/c"]
    else text_page body;
  markdownify := fun n => Py.join " " (Bs4.strings n);
  PdfReader := fun _ => Raise PdfReadError;
  urljoin := fun _ href =>
    if String.eqb href "http://[broken" then Raise ValueError else Ok href;
  check_bracketed_netloc := fun _ => true;
  checknetloc_nfkc := fun _ => true;
|}.

(** A server that answers with a PDF of three pages under an upper-case
    content type: the first page is a no-break space (U+00A0), the second
    has text, the third is empty. *)
Definition manual_pdf : pdf_reader := {|
  pages := [Ok (Py.bytes [194; 160]%nat); Ok "Manual"; Ok ""];
  metadata_title := Ok None;
|}.

Definition pdf_response : response := {|
  status_code := 200;
  content_type := Some "Application/PDF";
  content := "%PDF-1.7";
|}.

Definition pdf_world : World := {|
  requests_get := fun _ _ => Ok pdf_response;
  BeautifulSoup := fun _ => [];
  markdownify := fun n => Py.join " " (Bs4.strings n);
  PdfReader := fun _ => Ok manual_pdf;
  urljoin := fun _ href => Ok href;
  check_bracketed_netloc := fun _ => true;
  checknetloc_nfkc := fun _ => true;
|}.

(** The same server with a PDF that [pypdf] opens, and whose second page it
    cannot extract. *)
Definition damaged_pdf : pdf_reader := {|
  pages := [Ok "Manual"; Raise PdfReadError];
  metadata_title := Ok None;
|}.

Definition damaged_pdf_world : World := {|
  requests_get := fun _ _ => Ok pdf_response;
  BeautifulSoup := fun _ => [];
  markdownify := fun n => Py.join " " (Bs4.strings n);
  PdfReader := fun _ => Ok damaged_pdf;
  urljoin := fun _ href => Ok href;
  check_bracketed_netloc := fun _ => true;
  checknetloc_nfkc := fun _ => true;
|}.

Section Reentry.
Context `{W : World}.

(** The state in which a later call of [scrape] on the same object enters
    its loop: [visited_urls], [queued_urls] and [documents] are attributes
    of the object and are what the call before left in [prev]; the queue is
    a local variable and starts with the seed again. *)
Definition reentry_state (self : scraper) (prev : state) : result state :=
  normalized_base <- normalize_url (base_url self) ;;;
  Ok {| visited_urls := visited_urls prev;
        queued_urls := {[normalized_base]} ∪ queued_urls prev;
        documents := documents prev;
        urls_to_visit := [normalized_base];
        total_pages := Z.min (max_pages self) 1;
        trace := trace prev |}.
End Reentry.


(** * The embedder ([src/doc_rag/embedder.py])

    [DocumentEmbedder] cuts the content of each document into overlapping
    chunks of words and stores the chunks in batches.  The sentence
    encoder and the ChromaDB collection are collected in the class
    [Backend]; log records and [print] are left out. *)

Module Builtins.

(** The word read so far, when it ends. *)
Definition flush (cur : string) : list string :=
  if String.eqb cur EmptyString then [] else [cur].

(** [s.split()]: the words of [s], which runs of whitespace characters
    separate.  [cur] is the word being read, [skip] the number of bytes
    left of the whitespace character being passed. *)
Fixpoint split_go (skip : nat) (cur s : string) : list string :=
  match s with
  | EmptyString => flush cur
  | String a t =>
      match skip with
      | S k => split_go k cur t
      | O =>
          match Py.leading_space s with
          | Some w => flush cur ++ split_go (String.length w - 1) EmptyString t
          | None => split_go 0 (cur +:+ String a EmptyString) t
          end
      end
  end.

Definition str_split (s : string) : list string :=
  split_go 0 EmptyString s.

(** No whitespace character starts anywhere in [s]. *)
Fixpoint no_space (s : string) : bool :=
  match s with
  | EmptyString => true
  | String _ t =>
      match Py.leading_space s with
      | Some _ => false
      | None => no_space t
      end
  end.

(** A word: not empty, and without whitespace. *)
Definition is_word (w : string) : bool :=
  negb (String.eqb w EmptyString) && no_space w.

(** [len(range(start, stop, step))] for a [step] other than 0. *)
Definition range_length (start stop step : Z) : Z :=
  let '(lo, hi, step) :=
    if 0 <? step then (start, stop, step) else (stop, start, - step) in
  if hi <=? lo then 0 else (hi - lo - 1) / step + 1.

(** [range(start, stop, step)], as the list of its elements. *)
Definition range (start stop step : Z) : result (list Z) :=
  if step =? 0 then Raise ValueError
  else Ok (map (fun k => start + Z.of_nat k * step)
               (seq 0 (Z.to_nat (range_length start stop step)))).

(** The bound [i] of a slice of a sequence of length [n]: counted from the
    end when negative, and clipped to [0 .. n]. *)
Definition slice_index (n i : Z) : Z :=
  if i <? 0 then Z.max (i + n) 0 else Z.min i n.

(** [l[lo:hi]] *)
Definition slice {A : Type} (l : list A) (lo hi : Z) : list A :=
  let n := Z.of_nat (length l) in
  let lo := slice_index n lo in
  let hi := slice_index n hi in
  take (Z.to_nat (hi - lo)) (drop (Z.to_nat lo) l).

(** [str(n)] of an [int] that is not negative. *)
Definition str_of_nat (n : nat) : string :=
  NilZero.string_of_uint (Nat.to_uint n).

(** [enumerate(l)] *)
Fixpoint enumerate_from {A : Type} (i : nat) (l : list A) : list (nat * A) :=
  match l with
  | [] => []
  | x :: rest => (i, x) :: enumerate_from (S i) rest
  end.

Definition enumerate {A : Type} (l : list A) : list (nat * A) :=
  enumerate_from 0 l.

End Builtins.

(** [chunk_text]: one chunk for each start [i] of
    [range(0, len(words), chunk_size - overlap)], the words
    [words[i : i + chunk_size]] joined by a space; an empty chunk is not
    kept. *)
Definition chunk_text (text : string) (chunk_size overlap : Z)
    : result (list string) :=
  let words := Builtins.str_split text in
  starts <- Builtins.range 0 (Z.of_nat (length words)) (chunk_size - overlap) ;;;
  Ok (fold_left
        (fun chunks i =>
           let chunk := Py.join " " (Builtins.slice words i (i + chunk_size)) in
           if negb (String.eqb chunk EmptyString) then chunks ++ [chunk]
           else chunks)
        starts []).


(** The metadata stored with a chunk. *)
Record metadata : Type := {
  meta_url : string;
  meta_title : string;
  chunk_index : nat;
}.

(** The arguments of one call of [collection.add]. *)
Record batch (E : Type) : Type := {
  batch_documents : list string;
  batch_embeddings : list E;
  batch_metadatas : list metadata;
  batch_ids : list string;
}.
Arguments batch_documents {E} _.
Arguments batch_embeddings {E} _.
Arguments batch_metadatas {E} _.
Arguments batch_ids {E} _.

(** The sentence encoder and the collection.  [encode chunks] is
    [embedding_model.encode(chunks, ...)], an array with a row for each
    chunk; [collection_add added b] is [collection.add] of the batch [b]
    on a collection that was given the batches [added] before. *)
Class Backend : Type := {
  embedding : Type;
  encode : list string -> result (list embedding);
  collection_add : list (batch embedding) -> batch embedding -> result unit;
}.

(** [f"doc_{doc_idx}_chunk_{chunk_idx}"] *)
Definition chunk_id (doc_idx chunk_idx : nat) : string :=
  "doc_" +:+ Builtins.str_of_nat doc_idx +:+ "_chunk_"
  +:+ Builtins.str_of_nat chunk_idx.

(** The inner loop of [embed_documents]: the chunks of one document, each
    with its metadata and its id. *)
Definition chunk_document (doc_idx : nat) (doc : document)
    : result (list (string * metadata * string)) :=
  chunks <- chunk_text (doc_content doc) 300 50 ;;;
  Ok (map (fun '(chunk_idx, chunk) =>
             (chunk,
              {| meta_url := doc_url doc; meta_title := doc_title doc;
                 chunk_index := chunk_idx |},
              chunk_id doc_idx chunk_idx))
          (Builtins.enumerate chunks)).

(** The outer loop, over [enumerate(documents)]. *)
Fixpoint chunk_documents (docs : list (nat * document))
    : result (list (string * metadata * string)) :=
  match docs with
  | [] => Ok []
  | (doc_idx, doc) :: rest =>
      here <- chunk_document doc_idx doc ;;;
      more <- chunk_documents rest ;;;
      Ok (here ++ more)
  end.

Section Embedder.
Context `{B : Backend}.

(** The batch that starts at [i]: the slices [i : min(i + 100, len)] of the
    four lists. *)
Definition batch_at (all_chunks : list string) (embeddings : list embedding)
    (all_metadatas : list metadata) (all_ids : list string) (i : Z)
    : batch embedding :=
  let batch_end := Z.min (i + 100) (Z.of_nat (length all_chunks)) in
  {| batch_documents := Builtins.slice all_chunks i batch_end;
     batch_embeddings := Builtins.slice embeddings i batch_end;
     batch_metadatas := Builtins.slice all_metadatas i batch_end;
     batch_ids := Builtins.slice all_ids i batch_end |}.

(** The loop over the batches: [added] are those the collection has been
    given; an exception of [collection.add] ends the loop. *)
Fixpoint add_batches (batches added : list (batch embedding))
    : list (batch embedding) * result unit :=
  match batches with
  | [] => (added, Ok tt)
  | b :: rest =>
      match collection_add added b with
      | Ok _ => add_batches rest (added ++ [b])
      | Raise e => (added, Raise e)
      end
  end.

(** [embed_documents]: the batches given to the collection, and how the
    call ended. *)
Definition embed_documents (documents : list document)
    : list (batch embedding) * result unit :=
  match chunk_documents (Builtins.enumerate documents) with
  | Raise e => ([], Raise e)
  | Ok all =>
      let all_chunks := map (fun x => fst (fst x)) all in
      let all_metadatas := map (fun x => snd (fst x)) all in
      let all_ids := map snd all in
      match encode all_chunks with
      | Raise e => ([], Raise e)
      | Ok embeddings =>
          match Builtins.range 0 (Z.of_nat (length all_chunks)) 100 with
          | Raise e => ([], Raise e)
          | Ok starts =>
              add_batches
                (map (batch_at all_chunks embeddings all_metadatas all_ids)
                     starts)
                []
          end
      end
  end.
End Embedder.

(** An encoder that gives the length of a chunk as its embedding, with a
    collection that accepts every batch; and two documents of a crawl. *)
Definition length_backend : Backend := {|
  embedding := nat;
  encode := fun chunks => Ok (map String.length chunks);
  collection_add := fun _ _ => Ok tt;
|}.

Definition guide_documents : list document := [
  {| doc_url := "https://docs.example.com/guide";
     doc_title := "Guide";
     doc_content := "Install the  package" |};
  {| doc_url := "https://docs.example.com/guide/intro";
     doc_title := "Intro";
     doc_content := "Run it" |}
].
(** * Properties *)

(** ** Strings *)

#[local] Arguments String.append !_ _ / : simpl nomatch.
#[local] Set Warnings "-clear-no-such-hyp".

Lemma append_assoc (a b c : string) : (a +:+ b) +:+ c = a +:+ (b +:+ c).
Proof. induction a as [|x a IH]; simpl; [done | by rewrite IH]. Qed.

Lemma append_nil_r (a : string) : a +:+ "" = a.
Proof. induction a as [|x a IH]; simpl; [done | by rewrite IH]. Qed.

Lemma startswith_spec (pre s : string) :
  Py.startswith pre s = true ↔ ∃ t, s = pre +:+ t.
Proof.
  revert s. induction pre as [|a pre IH]; intros s; simpl.
  - split; [intros _; by exists s | done].
  - destruct s as [|b s].
    + split; [done | by intros [t Ht]].
    + rewrite andb_true_iff, IH. split.
      * intros [Hab [t ->]]. apply Ascii.eqb_eq in Hab as ->. by exists t.
      * intros [t Ht]. injection Ht as -> ->.
        split; [apply Ascii.eqb_refl | by exists t].
Qed.

Lemma endswith_unfold (suf s : string) :
  Py.endswith suf s =
  String.eqb s suf ||
  match s with "" => false | String _ t => Py.endswith suf t end.
Proof. by destruct s. Qed.

Lemma endswith_spec (suf s : string) :
  Py.endswith suf s = true ↔ ∃ t, s = t +:+ suf.
Proof.
  induction s as [|b s IH]; rewrite endswith_unfold.
  - rewrite orb_false_r, String.eqb_eq. split.
    + intros <-. by exists "".
    + intros [[|x t] Ht]; simpl in Ht; [done | discriminate].
  - rewrite orb_true_iff, String.eqb_eq, IH. split.
    + intros [<- | [t ->]]; [by exists "" | by exists (String b t)].
    + intros [[|x t] Ht]; simpl in Ht; [by left |].
      injection Ht as -> ->. right. by exists t.
Qed.

(** The last character of a string, if any. *)
Lemma endswith_char (a : ascii) (s : string) :
  Py.endswith (String a "") s = true ↔ ∃ t, s = t +:+ String a "".
Proof. apply endswith_spec. Qed.

Lemma in_chars_app (c : ascii) (a b : string) :
  Py.in_chars c (a +:+ b) = Py.in_chars c a || Py.in_chars c b.
Proof.
  induction a as [|x a IH]; simpl; [done |].
  by rewrite IH, orb_assoc.
Qed.

Lemma replicate_snoc (k : nat) (c : ascii) :
  Py.replicate (S k) c = Py.replicate k c +:+ String c "".
Proof. induction k as [|k IH]; [done |]. simpl in *. by rewrite <- IH. Qed.

Lemma forallb_is_replicate (c : ascii) (t : string) :
  Py.forallb (fun a => Py.in_chars a (String c "")) t = true →
  t = Py.replicate (String.length t) c.
Proof.
  induction t as [|a t IH]; simpl; [done |].
  rewrite orb_false_r. intros [Ha Ht]%andb_true_iff.
  apply Ascii.eqb_eq in Ha as ->. by rewrite <- IH.
Qed.

Lemma rstrip_by_unfold (p : ascii → bool) (a : ascii) (s : string) :
  Py.rstrip_by p (String a s) =
  match Py.rstrip_by p s with
  | "" => if p a then "" else String a ""
  | r => String a r
  end.
Proof. done. Qed.

(** What [rstrip] leaves is a prefix, what it removes is made of strippable
    characters. *)
Lemma rstrip_by_prefix (p : ascii → bool) (s : string) :
  ∃ t, s = Py.rstrip_by p s +:+ t ∧ Py.forallb p t = true.
Proof.
  induction s as [|b s (t & Hs & Ht)].
  - by exists "".
  - rewrite rstrip_by_unfold. destruct (Py.rstrip_by p s) as [|c r].
    + simpl in Hs. subst t. destruct (p b) eqn:Hb.
      * exists (String b s). simpl. by rewrite Hb, Ht.
      * by exists s.
    + exists t. simpl in *. by rewrite <- Hs.
Qed.

(** [rstrip] removes all of the strippable characters at the end: what it
    leaves does not end with one. *)
Lemma rstrip_by_last (p : ascii → bool) (s : string) (a : ascii) (t : string) :
  Py.rstrip_by p s = t +:+ String a "" → p a = false.
Proof.
  revert t. induction s as [|b s IH]; intros t.
  - by destruct t.
  - rewrite rstrip_by_unfold. destruct (Py.rstrip_by p s) as [|c r].
    + destruct (p b) eqn:Hb; destruct t as [|? [|]]; simpl; try done.
      by intros [= <-].
    + destruct t as [|x t]; simpl; [done |].
      intros [= -> Hr]. by eapply IH.
Qed.

Lemma rstrip_by_fixed (p : ascii → bool) (s : string) :
  (∀ a t, s = t +:+ String a "" → p a = false) → Py.rstrip_by p s = s.
Proof.
  induction s as [|b s IH]; intros Hlast; [done |].
  rewrite rstrip_by_unfold, IH.
  - destruct s; [| done]. by rewrite (Hlast b "").
  - intros a t ->. by apply (Hlast a (String b t)).
Qed.

Lemma rstrip_by_idem (p : ascii → bool) (s : string) :
  Py.rstrip_by p (Py.rstrip_by p s) = Py.rstrip_by p s.
Proof. apply rstrip_by_fixed. intros a t. apply rstrip_by_last. Qed.

(** [rstrip("/")] in terms of concatenation. *)
Lemma rstrip_slash_spec (s : string) :
  ∃ k, s = Py.rstrip "/" s +:+ Py.replicate k "/" ∧
       Py.endswith "/" (Py.rstrip "/" s) = false.
Proof.
  destruct (rstrip_by_prefix (fun a => Py.in_chars a "/") s) as (t & Hs & Ht).
  exists (String.length t). split.
  - by rewrite <- (forallb_is_replicate "/" t).
  - destruct (Py.endswith "/" (Py.rstrip "/" s)) eqn:He; [| done].
    apply endswith_char in He as [t' He].
    by apply rstrip_by_last in He.
Qed.

Lemma split_hd (c : ascii) (s : string) :
  ∃ h r, Py.split c s = h :: r.
Proof.
  induction s as [|a s (h & r & IH)]; simpl; [by eexists _, _ |].
  destruct (Ascii.eqb a c); [by eexists _, _ |].
  rewrite IH. by eexists _, _.
Qed.

(** [s.split(c)[0]] is [s] up to its first [c]. *)
Lemma split_first_spec (c : ascii) (s : string) :
  ∃ rest, s = Py.split_first c s +:+ rest ∧
          Py.in_chars c (Py.split_first c s) = false ∧
          (rest = "" ∨ ∃ r, rest = String c r).
Proof.
  unfold Py.split_first. induction s as [|a s (rest & Hs & Hno & Hrest)]; simpl.
  - exists "". by split_and!; [| | left].
  - destruct (Ascii.eqb a c) eqn:Hac.
    + apply Ascii.eqb_eq in Hac as ->. exists (String c s).
      split_and!; [done..|]. right. by exists s.
    + destruct (split_hd c s) as (h & r & Hsplit). rewrite Hsplit in *.
      simpl in *. exists rest. rewrite <- Hs.
      split_and!; [done | | done].
      by rewrite Hno, orb_false_r, Ascii.eqb_sym.
Qed.

Lemma split_first_fixed (c : ascii) (s : string) :
  Py.in_chars c s = false → Py.split_first c s = s.
Proof.
  unfold Py.split_first. induction s as [|a s IH]; simpl; [done |].
  intros [Hca Hs]%orb_false_iff. rewrite Ascii.eqb_sym, Hca.
  destruct (split_hd c s) as (h & r & Hsplit). rewrite Hsplit in *.
  simpl in *. by rewrite IH.
Qed.

Lemma string_snoc_inv (a b : string) (c d : ascii) :
  a +:+ String c "" = b +:+ String d "" → a = b ∧ c = d.
Proof.
  revert b. induction a as [|x a IH]; intros [|y b]; simpl.
  - by intros [= ->].
  - destruct b; simpl; discriminate.
  - destruct a; simpl; discriminate.
  - intros [= -> Hab]. apply IH in Hab as [-> ->]. done.
Qed.

Lemma string_last_cases (t : string) :
  t = "" ∨ ∃ t' c, t = t' +:+ String c "".
Proof.
  induction t as [|x t [-> | (t' & c & ->)]]; [by left | right..].
  - by exists "", x.
  - by exists (String x t'), c.
Qed.

(** A prefix that does not end with [c] is not affected by a [c] added to,
    or removed from, the end of the string. *)
Lemma startswith_snoc (b s : string) (c : ascii) :
  Py.endswith (String c "") b = false →
  Py.startswith b (s +:+ String c "") = Py.startswith b s.
Proof.
  intros Hb. apply eq_true_iff_eq. rewrite !startswith_spec. split.
  - intros [t Ht]. destruct (string_last_cases t) as [-> | (t' & d & ->)].
    + rewrite append_nil_r in Ht. subst b.
      assert (Py.endswith (String c "") (s +:+ String c "") = true) as He
        by (apply endswith_spec; by exists s).
      congruence.
    + rewrite <- append_assoc in Ht. apply string_snoc_inv in Ht as [-> _].
      by exists t'.
  - intros [t ->]. exists (t +:+ String c ""). by rewrite append_assoc.
Qed.

Lemma startswith_rstrip (b s : string) :
  Py.endswith "/" b = false →
  Py.startswith b (Py.rstrip "/" s) = Py.startswith b s.
Proof.
  intros Hb. destruct (rstrip_slash_spec s) as (k & Hs & _).
  rewrite Hs at 2. clear Hs. induction k as [|k IH].
  - by rewrite append_nil_r.
  - by rewrite replicate_snoc, <- append_assoc, startswith_snoc.
Qed.

Lemma strip_one_spec (c : ascii) (s : string) :
  s = Py.strip_one c s ∨ s = Py.strip_one c s +:+ String c "".
Proof.
  induction s as [|a s IH]; [by left |].
  destruct s as [|b s].
  - simpl. destruct (Ascii.eqb_spec a c) as [->|]; [by right | by left].
  - change (Py.strip_one c (String a (String b s)))
      with (String a (Py.strip_one c (String b s))).
    destruct IH as [IH | IH]; [left | right];
      apply (f_equal (String a)) in IH; exact IH.
Qed.

Lemma startswith_strip_one (b s : string) :
  Py.endswith "/" b = false →
  Py.startswith b (Py.strip_one "/" s) = Py.startswith b s.
Proof.
  intros Hb. destruct (strip_one_spec "/" s) as [Hs | Hs]; rewrite Hs at 2.
  - done.
  - by rewrite startswith_snoc.
Qed.

(** ** [urllib.parse]: trailing slashes do not change the netloc *)

#[local] Arguments Ascii.eqb : simpl never.

Lemma lstrip_by_snoc (p : ascii → bool) (s : string) (c : ascii) :
  p c = false →
  Py.lstrip_by p (s +:+ String c "") = Py.lstrip_by p s +:+ String c "".
Proof.
  intros Hc. induction s as [|a s IH]; simpl; [by rewrite Hc |].
  by destruct (p a).
Qed.

Lemma remove_chars_snoc (chars s : string) (c : ascii) :
  Py.in_chars c chars = false →
  Py.remove_chars chars (s +:+ String c "") =
  Py.remove_chars chars s +:+ String c "".
Proof.
  intros Hc. induction s as [|a s IH]; simpl; [by rewrite Hc |].
  destruct (Py.in_chars a chars); simpl; by rewrite IH.
Qed.

Lemma cut_snoc (c d : ascii) (s : string) :
  Ascii.eqb d c = false →
  Py.cut c (s +:+ String d "") =
  (fun '(l, r) => (l, r +:+ String d "")) <$> Py.cut c s.
Proof.
  intros Hd. induction s as [|a s IH]; simpl; [by rewrite Hd |].
  destruct (Ascii.eqb a c); [done |].
  rewrite IH. by destruct (Py.cut c s) as [[l r]|].
Qed.

Lemma split_scheme_snoc (s : string) :
  Urllib.split_scheme (s +:+ "/") =
  (fst (Urllib.split_scheme s), snd (Urllib.split_scheme s) +:+ "/").
Proof.
  unfold Urllib.split_scheme. rewrite cut_snoc by done.
  destruct (Py.cut ":" s) as [[[|a pre] rest]|]; simpl; [done | | done].
  by destruct (Py.is_ascii_alpha a && (Urllib.scheme_char a && Py.forallb Urllib.scheme_char pre)).
Qed.

Lemma span_snoc_fst (p : ascii → bool) (s : string) (d : ascii) :
  p d = false → fst (Py.span p (s +:+ String d "")) = fst (Py.span p s).
Proof.
  intros Hd. induction s as [|a s IH]; simpl; [by rewrite Hd |].
  destruct (p a); [| done].
  destruct (Py.span p (s +:+ String d "")), (Py.span p s). simpl in *.
  by rewrite IH.
Qed.

Lemma startswith_cons (a b : ascii) (p t : string) :
  Py.startswith (String a p) (String b t) = Ascii.eqb a b && Py.startswith p t.
Proof. done. Qed.

(** The netloc step of [urlsplit] on the URL left by the scheme step. *)
Lemma netloc_step_snoc (r : string) :
  fst (if Py.startswith "//" (r +:+ "/") then Urllib.splitnetloc (r +:+ "/")
       else ("", r +:+ "/")) =
  fst (if Py.startswith "//" r then Urllib.splitnetloc r else ("", r)).
Proof.
  destruct r as [|a [|b r]].
  - done.
  - change (String a "" +:+ "/") with (String a "/").
    rewrite !startswith_cons. simpl Py.startswith.
    rewrite andb_false_r. by destruct (Ascii.eqb "/" a && _).
  - change (String a (String b r) +:+ "/") with (String a (String b (r +:+ "/"))).
    rewrite !startswith_cons. simpl Py.startswith.
    destruct (Ascii.eqb "/" a && _); [| done].
    unfold Urllib.splitnetloc. simpl Py.drop.
    by apply span_snoc_fst.
Qed.

Lemma netloc_of_snoc (s : string) :
  Urllib.netloc_of (s +:+ "/") = Urllib.netloc_of s.
Proof.
  unfold Urllib.netloc_of, Urllib.split_authority.
  rewrite lstrip_by_snoc, remove_chars_snoc, split_scheme_snoc by done.
  destruct (Urllib.split_scheme _) as [sch r]. simpl fst at 2. simpl snd at 2.
  pose proof (netloc_step_snoc r) as H.
  destruct (if Py.startswith "//" (r +:+ "/") then _ else _) as [nl1 r1].
  destruct (if Py.startswith "//" r then _ else _) as [nl2 r2]. done.
Qed.

Lemma netloc_of_slashes (s : string) (k : nat) :
  Urllib.netloc_of (s +:+ Py.replicate k "/") = Urllib.netloc_of s.
Proof.
  induction k as [|k IH].
  - by rewrite append_nil_r.
  - by rewrite replicate_snoc, <- append_assoc, netloc_of_snoc.
Qed.

Lemma netloc_of_rstrip (s : string) :
  Urllib.netloc_of (Py.rstrip "/" s) = Urllib.netloc_of s.
Proof.
  destruct (rstrip_slash_spec s) as (k & Hs & _).
  rewrite Hs at 2. by rewrite netloc_of_slashes.
Qed.

Section UrlparseFacts.
Context `{W : World}.

(** [urlparse] raises exactly when the netloc is rejected, and otherwise
    returns that netloc. *)
Lemma urlparse_cases (url : string) :
  if Urllib.netloc_ok (Urllib.netloc_of url)
  then ∃ p, Urllib.urlparse url = Ok p ∧
            Urllib.netloc p = Urllib.netloc_of url
  else Urllib.urlparse url = Raise ValueError.
Proof.
  unfold Urllib.urlparse, Urllib.urlsplit, Urllib.netloc_of.
  destruct (Urllib.split_authority url) as [[sch nl] rest]. simpl.
  destruct (Urllib.netloc_ok nl); [| done]. simpl.
  destruct (_ && _); by eexists.
Qed.

Lemma urlparse_rstrip_ok (url : string) (p : Urllib.ParseResult) :
  Urllib.urlparse url = Ok p →
  ∃ p', Urllib.urlparse (Py.rstrip "/" url) = Ok p'.
Proof.
  intros Hp. pose proof (urlparse_cases url) as H1.
  pose proof (urlparse_cases (Py.rstrip "/" url)) as H2.
  rewrite netloc_of_rstrip in H2.
  destruct (Urllib.netloc_ok (Urllib.netloc_of url)).
  - destruct H2 as (p' & Hp' & _). by exists p'.
  - congruence.
Qed.
End UrlparseFacts.

(** ** URL normalization and the scope filter *)

Section Urls.
Context `{W : World}.

Lemma rstrip_no_hash (s : string) :
  Py.in_chars "#" s = false → Py.in_chars "#" (Py.rstrip "/" s) = false.
Proof.
  intros Hs. destruct (rstrip_slash_spec s) as (k & Heq & _).
  rewrite Heq, in_chars_app in Hs. by apply orb_false_iff in Hs as [? _].
Qed.

(** What [normalize_url] returns on a URL without fragment. *)
Lemma normalize_url_no_hash (w : string) :
  Py.in_chars "#" w = false →
  normalize_url w =
  (parsed <- Urllib.urlparse w ;;;
   if negb (String.eqb (Urllib.path parsed) "/") then Ok (Py.rstrip "/" w)
   else Ok w).
Proof. intros Hw. unfold normalize_url. by rewrite split_first_fixed. Qed.

(** C7 (amended): [normalize_url] cuts the URL at its first [#]; when the
    path of what is left is not exactly [/] it removes every trailing [/]
    (the result does not end with [/]), and when the path is [/] it
    removes nothing.  It raises only where [urlparse] does. *)
Theorem normalize_url_spec (url : string) :
  ∃ w rest,
    url = w +:+ rest ∧ Py.in_chars "#" w = false ∧
    (rest = "" ∨ ∃ r, rest = String "#" r) ∧
    match Urllib.urlparse w with
    | Raise e => normalize_url url = Raise e
    | Ok parsed =>
        if String.eqb (Urllib.path parsed) "/" then normalize_url url = Ok w
        else ∃ v k, normalize_url url = Ok v ∧
                    w = v +:+ Py.replicate k "/" ∧
                    Py.endswith "/" v = false
    end.
Proof.
  destruct (split_first_spec "#" url) as (rest & Hurl & Hno & Hrest).
  exists (Py.split_first "#" url), rest. split_and!; [done..|].
  unfold normalize_url.
  destruct (Urllib.urlparse (Py.split_first "#" url)) as [parsed|e]; [| done].
  simpl. destruct (String.eqb (Urllib.path parsed) "/"); [done |].
  destruct (rstrip_slash_spec (Py.split_first "#" url)) as (k & Hk & Hend).
  by exists (Py.rstrip "/" (Py.split_first "#" url)), k.
Qed.

(** C8: [normalize_url] is idempotent, also where it raises. *)
Theorem normalize_url_idempotent (u : string) :
  (v <- normalize_url u ;;; normalize_url v) = normalize_url u.
Proof.
  destruct (split_first_spec "#" u) as (rest & _ & Hno & _).
  unfold normalize_url at 1 3. set (w := Py.split_first "#" u) in *.
  destruct (Urllib.urlparse w) as [parsed|e] eqn:Hparse; [| done].
  simpl. destruct (String.eqb (Urllib.path parsed) "/") eqn:Hroot; simpl.
  - rewrite normalize_url_no_hash, Hparse by done. simpl. by rewrite Hroot.
  - rewrite normalize_url_no_hash by by apply rstrip_no_hash.
    destruct (urlparse_rstrip_ok w parsed Hparse) as [p' ->]. simpl.
    unfold Py.rstrip. rewrite rstrip_by_idem. by destruct (negb _).
Qed.

(** C4 (amended): [is_valid_url] accepts a URL exactly when (a) its netloc
    is the domain, (b) its path without its trailing slashes starts with
    the base path, (c) it is neither visited nor queued, and (d) the URL
    itself, query included, does not end with an excluded suffix; it
    raises exactly when [urlparse] does, and otherwise returns [False]. *)
Theorem is_valid_url_spec (self : scraper) (visited queued : gset string)
    (url : string) :
  (is_valid_url self visited queued url = Ok true ↔
   ∃ parsed, Urllib.urlparse url = Ok parsed ∧
     Urllib.netloc parsed = domain self ∧
     (∃ t, Py.rstrip "/" (Urllib.path parsed) = base_path self +:+ t) ∧
     (url ∉ visited) ∧ (url ∉ queued) ∧
     (∀ suf, suf ∈ excluded_suffixes → ¬ ∃ t, url = t +:+ suf)) ∧
  (∀ e, is_valid_url self visited queued url = Raise e ↔
        Urllib.urlparse url = Raise e).
Proof.
  unfold is_valid_url.
  remember (Py.endswith_any excluded_suffixes url) as ex eqn:He.
  symmetry in He.
  destruct (Urllib.urlparse url) as [parsed|e0]; simpl.
  2: { split; [| intros e; split; congruence].
       split; [done |]. by intros (? & ? & _). }
  split.
  2: { intros e. split; [| done]. by repeat case_match. }
  destruct (String.eqb_spec (Urllib.netloc parsed) (domain self)) as [Hd|Hd];
    simpl.
  2: { split; [done |]. intros (? & [= <-] & ? & _). done. }
  destruct (Py.startswith (base_path self) _) eqn:Hb; simpl.
  2: { split; [done |]. intros (? & [= <-] & _ & Hpre & _).
       apply startswith_spec in Hpre. congruence. }
  apply startswith_spec in Hb.
  destruct (bool_decide_reflect (url ∈ visited)) as [Hv|Hv]; simpl.
  { split; [done |]. by intros (? & _ & _ & _ & ? & _). }
  destruct (bool_decide_reflect (url ∈ queued)) as [Hq|Hq]; simpl.
  { split; [done |]. by intros (? & _ & _ & _ & _ & ? & _). }
  destruct ex.
  - split; [done |]. intros (? & _ & _ & _ & _ & _ & Hsuf).
    apply existsb_exists in He as (suf & Hin & He).
    apply endswith_spec in He. apply list_elem_of_In in Hin.
    by destruct (Hsuf suf Hin).
  - split; [intros _ | done]. exists parsed. split_and!; [done..|].
    intros suf Hin%list_elem_of_In Hend%endswith_spec.
    unfold Py.endswith_any in He.
    assert (existsb (λ suf, Py.endswith suf url) excluded_suffixes = true);
      [| congruence].
    apply existsb_exists. by exists suf.
Qed.
Lemma init_spec (base : string) (maxp : Z) (self : scraper) :
  init base maxp = Ok self →
  ∃ parsed, Urllib.urlparse base = Ok parsed ∧
            domain self = Urllib.netloc parsed ∧
            base_path self = Py.rstrip "/" (Urllib.path parsed) ∧
            max_pages self = maxp.
Proof.
  unfold init. destruct (Urllib.urlparse base) as [parsed|]; simpl; [| done].
  intros [= <-]. by exists parsed.
Qed.

(** The base path that [__init__] computes has no trailing slash, so that
    the prefix test of [is_valid_url] gives the same answer whether one,
    all or none of the trailing slashes of the path are stripped. *)
Lemma init_base_path (base : string) (maxp : Z) (self : scraper) :
  init base maxp = Ok self → Py.endswith "/" (base_path self) = false.
Proof.
  intros (parsed & _ & _ & -> & _)%init_spec.
  by destruct (rstrip_slash_spec (Urllib.path parsed)) as (k & _ & ?).
Qed.

Lemma prefix_test_any_stripping (base : string) (maxp : Z) (self : scraper)
    (p : string) :
  init base maxp = Ok self →
  Py.startswith (base_path self) (Py.rstrip "/" p)
  = Py.startswith (base_path self) (Py.strip_one "/" p).
Proof.
  intros Hb%init_base_path.
  by rewrite startswith_rstrip, startswith_strip_one.
Qed.

(** [is_valid_url] and the filter of the specification differ by the
    string that the suffix test reads and by the netloc that is compared
    where the specification has the host, and by nothing else. *)
Lemma is_valid_url_matches_spec (base : string) (maxp : Z) (self : scraper)
    (visited queued : gset string) (url : string)
    (parsed : Urllib.ParseResult) :
  init base maxp = Ok self →
  Urllib.urlparse url = Ok parsed →
  Spec.host (Urllib.netloc parsed) = Urllib.netloc parsed →
  Py.endswith_any excluded_suffixes url
  = Py.endswith_any excluded_suffixes (Urllib.path parsed) →
  is_valid_url self visited queued url = Spec.in_scope self visited queued url.
Proof.
  intros Hinit Hparse Hhost Hsuffix. unfold is_valid_url, Spec.in_scope.
  rewrite Hparse. unfold rbind.
  rewrite <- (prefix_test_any_stripping base maxp self _ Hinit), <- Hsuffix.
  rewrite Hhost.
  destruct (String.eqb _ (domain self)); [| done].
  destruct (Py.startswith _ _); [| done].
  destruct (bool_decide _ || bool_decide _); [done |].
  by destruct (Py.endswith_any _ _).
Qed.
End Urls.

Lemma init_guide_scraper :
  @init offline_world "https://docs.example.com/guide/" 100 = Ok guide_scraper.
Proof. reflexivity. Qed.

(** C7, as stated, fails: two trailing slashes are both removed, where the
    normalizer of the specification removes one. *)
Lemma normalize_url_strips_every_slash :
  @normalize_url offline_world "https://docs.example.com/guide//"
    = Ok "https://docs.example.com/guide" ∧
  @Spec.normalize offline_world "https://docs.example.com/guide//"
    = Ok "https://docs.example.com/guide/".
Proof. split; reflexivity. Qed.

(** C4, as stated, fails.  The suffix test reads the whole URL and not its
    path, which makes the two filters differ in both directions; and the
    netloc is compared, not the host: a URL of the same host that gives its
    port, or writes the host in upper case, is rejected. *)
Lemma is_valid_url_differs_from_scope_filter :
  (@is_valid_url offline_world guide_scraper ∅ ∅
     "https://docs.example.com/guide/logo.png?v=2" = Ok true ∧
   @Spec.in_scope offline_world guide_scraper ∅ ∅
     "https://docs.example.com/guide/logo.png?v=2" = Ok false) ∧
  (@is_valid_url offline_world guide_scraper ∅ ∅
     "https://docs.example.com/guide/download?file=a.zip" = Ok false ∧
   @Spec.in_scope offline_world guide_scraper ∅ ∅
     "https://docs.example.com/guide/download?file=a.zip" = Ok true) ∧
  (Spec.host "docs.example.com:443" = domain guide_scraper ∧
   @is_valid_url offline_world guide_scraper ∅ ∅
     "https://docs.example.com:443/guide/x" = Ok false ∧
   @Spec.in_scope offline_world guide_scraper ∅ ∅
     "https://docs.example.com:443/guide/x" = Ok true) ∧
  (Spec.host "Docs.Example.com" = domain guide_scraper ∧
   @is_valid_url offline_world guide_scraper ∅ ∅
     "https://Docs.Example.com/guide/x" = Ok false ∧
   @Spec.in_scope offline_world guide_scraper ∅ ∅
     "https://Docs.Example.com/guide/x" = Ok true).
Proof. repeat split; vm_compute; reflexivity. Qed.

(** ** The parsed tree: references, removal, links *)

(** Induction on a tree whose contents already satisfy the property. *)
Lemma node_forall_ind (P : node → Prop) :
  (∀ s, P (Text s)) →
  (∀ nm cl h cs, Forall P cs → P (Tag nm cl h cs)) →
  ∀ n, P n.
Proof.
  intros HText HTag. fix IH 1. intros [s|nm cl h cs]; [apply HText |].
  apply HTag. induction cs as [|c cs IHcs]; constructor; [apply IH | done].
Qed.

Lemma scan_sound (p : node → bool) (below : node → option (Bs4.ctx * node))
    (l before : list node) (c : Bs4.ctx) (m : node) :
  Forall (λ n, ∀ c m, below n = Some (c, m) →
               ∃ nm cl h cs, n = Tag nm cl h cs ∧ Bs4.plug c m = cs
                             ∧ p m = true) l →
  Bs4.scan p below before l = Some (c, m) →
  Bs4.plug c m = before ++ l ∧ p m = true.
Proof.
  intros Hbelow. revert before.
  induction Hbelow as [|n l Hn _ IH]; intros before; simpl; [done |].
  destruct (p n) eqn:Hp.
  { by intros [= <- <-]. }
  destruct (below n) as [[c' m']|] eqn:Hb.
  - destruct (Hn _ _ eq_refl) as (nm & cl & h & cs & -> & Hplug & Hm).
    intros [= <- <-]. simpl. by rewrite Hplug.
  - intros Hscan. apply IH in Hscan as [-> ?].
    by rewrite <- app_assoc.
Qed.

Lemma find_below_sound (p : node → bool) (n : node) (c : Bs4.ctx) (m : node) :
  Bs4.find_below p n = Some (c, m) →
  ∃ nm cl h cs, n = Tag nm cl h cs ∧ Bs4.plug c m = cs ∧ p m = true.
Proof.
  revert c m. induction n as [s|nm cl h cs IH] using node_forall_ind;
    intros c m; simpl; [done |].
  intros Hscan. exists nm, cl, h, cs. split; [done |].
  by apply (scan_sound p (Bs4.find_below p) cs []) in Hscan.
Qed.

(** A reference found in a document points into that document, at a node
    that satisfies the search. *)
Lemma find_ref_sound (p : node → bool) (s : soup) (c : Bs4.ctx) (m : node) :
  Bs4.find_ref p s = Some (c, m) → Bs4.plug c m = s ∧ p m = true.
Proof.
  intros Hscan. apply (scan_sound p (Bs4.find_below p) s []) in Hscan; [done |].
  apply Forall_forall. intros n _ c' m'. apply find_below_sound.
Qed.

Lemma hrefs_app (a b : list node) :
  Bs4.hrefs (a ++ b) = Bs4.hrefs a ++ Bs4.hrefs b.
Proof. apply flat_map_app. Qed.

(** The links of a document, around a referenced position. *)
Lemma hrefs_cons (n : node) (l : list node) :
  Bs4.hrefs (n :: l) = Bs4.hrefs_node n ++ Bs4.hrefs l.
Proof. done. Qed.

Lemma hrefs_node_tag (nm : string) (cl : list string) (h : option string)
    (cs : list node) :
  Bs4.hrefs_node (Tag nm cl h cs) = Bs4.own_href nm h ++ Bs4.hrefs cs.
Proof. done. Qed.

Lemma hrefs_plug (c : Bs4.ctx) (m : node) :
  Bs4.hrefs (Bs4.plug c m) =
  Bs4.hrefs_before c ++ Bs4.hrefs_node m ++ Bs4.hrefs_after c.
Proof.
  induction c as [before after|before nm cl h inner IH after]; simpl.
  - by rewrite hrefs_app, hrefs_cons.
  - rewrite hrefs_app, hrefs_cons, hrefs_node_tag, IH.
    by rewrite <- !app_assoc.
Qed.

(** The links that survive [decompose_all] are those not inside a removed
    tag. *)
Lemma hrefs_decompose_all (names : list string) (h : string) (n : node) :
  h ∈ Bs4.hrefs_node (Bs4.decompose_all names n) ↔ Bs4.visible names h n.
Proof.
  induction n as [s|nm cl hr cs IH] using node_forall_ind; simpl.
  { split; [by intros ?%elem_of_nil | inversion 1]. }
  rewrite elem_of_app, !list_elem_of_In, in_flat_map. split.
  - intros [Hown | (c' & Hc' & Hh)].
    + unfold Bs4.own_href in Hown. destruct hr as [x|]; [| done].
      destruct (String.eqb_spec nm "a") as [->|]; [| done].
      destruct Hown as [<- | []]. constructor.
    + apply in_flat_map in Hc' as (c & Hc & Hc').
      destruct (existsb _ names) eqn:Hban; [done |].
      destruct Hc' as [<- | []].
      apply Bs4.visible_below with c; [done..|].
      rewrite Forall_forall in IH. apply IH; by rewrite list_elem_of_In.
  - inversion 1 as [|? ? ? ? c Hc Hban Hvis]; subst.
    + left. by left.
    + right. exists (Bs4.decompose_all names c). split.
      * apply in_flat_map. exists c. split; [done |]. rewrite Hban. by left.
      * rewrite Forall_forall in IH.
        apply list_elem_of_In, IH; [by apply list_elem_of_In | done].
Qed.

(** [decompose_all] only removes links. *)
Lemma hrefs_decompose_all_incl (names : list string) (h : string) (n : node) :
  h ∈ Bs4.hrefs_node (Bs4.decompose_all names n) → h ∈ Bs4.hrefs_node n.
Proof.
  rewrite hrefs_decompose_all.
  induction 1 as [|nm cl hr cs c Hc _ _ IH]; rewrite hrefs_node_tag.
  - apply elem_of_app. left. simpl. by left.
  - apply elem_of_app. right. rewrite list_elem_of_In in *.
    apply in_flat_map. by exists c.
Qed.

(** ** The extractors *)

Section Extractors.
Context `{W : World}.

(** [extract_content] raises exactly when the document has no main content
    area, not even a [<body>]. *)
Lemma extract_content_raises (s : soup) (url : string) (e : exn) :
  extract_content s url = Raise e ↔
  find_main_content s = None ∧ e = AttributeError.
Proof.
  unfold extract_content. destruct (find_main_content s) as [[c m]|].
  - split; [done | by intros [? _]].
  - split; [by intros [= <-] | by intros [_ ->]].
Qed.

(** With a [<body>] and none of the preferred areas, [extract_content]
    falls back to the [<body>] and returns a record. *)
Lemma extract_content_falls_back_to_body (s : soup) (url : string)
    (c : Bs4.ctx) (m : node) :
  Bs4.find (Bs4.named "main") s = None →
  Bs4.find (Bs4.named "article") s = None →
  Bs4.find (Bs4.named_with_class "div" content_classes) s = None →
  Bs4.find_ref (Bs4.named "body") s = Some (c, m) →
  ∃ doc, extract_content s url =
           Ok (doc, Bs4.plug c (Bs4.decompose_all removed_tags m)) ∧
         doc_url doc = url ∧
         doc_content doc = markdownify (Bs4.decompose_all removed_tags m).
Proof.
  unfold Bs4.find, extract_content, find_main_content.
  intros H1 H2 H3 H4.
  destruct (Bs4.find_ref (Bs4.named "main") s); [done |].
  destruct (Bs4.find_ref (Bs4.named "article") s); [done |].
  destruct (Bs4.find_ref (Bs4.named_with_class "div" content_classes) s);
    [done |].
  simpl. rewrite H4. by eexists.
Qed.

(** C6: a document without [<main>], [<article>], content [<div>] and
    without [<body>] (what [html.parser] makes of the fragment
    [<p>hello</p>]) makes [extract_content] raise [AttributeError] where
    the claim promises a record. *)
Theorem extract_content_raises_without_body (url : string) :
  Bs4.find (Bs4.named "main") [Tag "p" [] None [Text "hello"]] = None ∧
  Bs4.find (Bs4.named "article") [Tag "p" [] None [Text "hello"]] = None ∧
  Bs4.find (Bs4.named_with_class "div" content_classes)
    [Tag "p" [] None [Text "hello"]] = None ∧
  extract_content [Tag "p" [] None [Text "hello"]] url = Raise AttributeError.
Proof. by split_and!. Qed.

(** [extract_pdf_content] returns a record on every input, and on a
    document that [pypdf] rejects the placeholder: empty content, the last
    path segment as title, one warning. *)
Lemma extract_pdf_content_malformed (pdf_bytes url : string) (e : exn) :
  parse_pdf pdf_bytes url = Raise e →
  extract_pdf_content pdf_bytes url =
  ({| doc_url := url; doc_title := Py.split_last "/" url;
      doc_content := "" |}, [WarnPdf url e]).
Proof. unfold extract_pdf_content. by intros ->. Qed.

Lemma parse_pdf_rejected (pdf_bytes url : string) (e : exn) :
  PdfReader pdf_bytes = Raise e → parse_pdf pdf_bytes url = Raise e.
Proof. unfold parse_pdf. by intros ->. Qed.

Lemma extract_pdf_content_warnings (pdf_bytes url : string) :
  requested (snd (extract_pdf_content pdf_bytes url)) = [] ∧
  Forall (λ ev, ∀ k, ev ≠ Sleep k) (snd (extract_pdf_content pdf_bytes url)).
Proof.
  unfold extract_pdf_content.
  destruct (parse_pdf pdf_bytes url); simpl; [done |].
  split; [done |]. by repeat constructor.
Qed.

(** *** Link discovery *)

Lemma is_valid_url_true (self : scraper) (visited queued : gset string)
    (url : string) :
  is_valid_url self visited queued url = Ok true →
  (url ∉ visited) ∧ (url ∉ queued) ∧ within_scope self url.
Proof.
  unfold is_valid_url, within_scope.
  remember (Py.endswith_any excluded_suffixes url) as ex eqn:He.
  destruct (Urllib.urlparse url) as [parsed|]; simpl; [| done].
  destruct (String.eqb_spec (Urllib.netloc parsed) (domain self)); [| done].
  simpl. destruct (Py.startswith _ _) eqn:Hp; [| done]. simpl.
  destruct (bool_decide_reflect (url ∈ visited)); [done |].
  destruct (bool_decide_reflect (url ∈ queued)); [done |]. simpl.
  destruct ex; [done |].
  intros _. split_and!; [done..|]. by exists parsed.
Qed.

(** What a run of [extract_links] adds to [queued_urls]: distinct URLs,
    new, within scope, each the resolution of a link of the page; they are
    what the call returns, unless it raises. *)
Lemma extract_links_from_spec (self : scraper) (cur : string)
    (visited : gset string) (hs : list string) :
  ∀ queued links q' res,
    extract_links_from self cur visited hs queued links = (q', res) →
    ∃ added,
      q' = list_to_set added ∪ queued ∧ NoDup added ∧
      (∀ u, u ∈ added →
         (u ∉ queued) ∧ (u ∉ visited) ∧ within_scope self u ∧
         ∃ h, h ∈ hs ∧ resolves cur h u) ∧
      (∀ l, res = Ok l → l = links ++ added).
Proof.
  unfold resolves.
  induction hs as [|h hs IH]; intros queued links q' res; simpl.
  { intros [= <- <-]. exists []. split_and!; [set_solver | constructor | |].
    - by intros u ?%elem_of_nil.
    - intros l [= <-]. by rewrite app_nil_r. }
  destruct (urljoin cur h) as [a|e] eqn:Hjoin; simpl.
  2: { intros [= <- <-]. exists []. split_and!;
         [set_solver | constructor | by intros u ?%elem_of_nil | done]. }
  destruct (normalize_url a) as [u|e] eqn:Hnorm; simpl.
  2: { intros [= <- <-]. exists []. split_and!;
         [set_solver | constructor | by intros u ?%elem_of_nil | done]. }
  destruct (is_valid_url self visited queued u) as [[|]|e] eqn:Hvalid; simpl.
  - intros (added & -> & Hnd & Hadded & Hres)%IH.
    apply is_valid_url_true in Hvalid as (Hv & Hq & Hscope).
    exists (u :: added). split_and!.
    + set_solver.
    + constructor; [| done]. intros Hin. apply Hadded in Hin. set_solver.
    + intros u' [->|Hin]%elem_of_cons.
      * split_and!; [done..|]. exists h. split; [by left |].
        by rewrite Hjoin.
      * destruct (Hadded u' Hin) as (? & ? & ? & h' & ? & ?).
        split_and!; [set_solver | done..|]. exists h'. split; [by right | done].
    + intros l Hl. rewrite (Hres l Hl). by rewrite <- app_assoc.
  - intros (added & -> & Hnd & Hadded & Hres)%IH.
    exists added. split_and!; [done..| | done].
    intros u' Hin. destruct (Hadded u' Hin) as (? & ? & ? & h' & ? & ?).
    split_and!; [done..|]. exists h'. split; [by right | done].
  - intros [= <- <-]. exists []. split_and!;
      [set_solver | constructor | by intros ? ?%elem_of_nil | done].
Qed.
End Extractors.

(** ** The crawl loop *)

Section Crawl.
Context `{W : World}.

Lemma requested_snoc (tr : list event) (e : event) :
  requested (tr ++ [e]) =
  requested tr ++ match e with HttpGet u => [u] | _ => [] end.
Proof. unfold requested. rewrite omap_app. by destruct e. Qed.

Lemma or_else_find_ref_sound (s : soup) (c : Bs4.ctx) (m : node) :
  find_main_content s = Some (c, m) → Bs4.plug c m = s.
Proof.
  unfold find_main_content, Bs4.or_else.
  destruct (Bs4.find_ref (Bs4.named "main") s) as [[c' m']|] eqn:H1;
    [intros [= <- <-]; by eapply find_ref_sound |].
  destruct (Bs4.find_ref (Bs4.named "article") s) as [[c' m']|] eqn:H2;
    [intros [= <- <-]; by eapply find_ref_sound |].
  destruct (Bs4.find_ref (Bs4.named_with_class "div" content_classes) s)
    as [[c' m']|] eqn:H3; [intros [= <- <-]; by eapply find_ref_sound |].
  intros H4. by eapply find_ref_sound.
Qed.

(** What [extract_content] does to the links of the document. *)
Lemma extract_content_hrefs (s s' : soup) (url : string) (doc : document) :
  extract_content s url = Ok (doc, s') →
  ∃ c m, find_main_content s = Some (c, m) ∧
         s = Bs4.plug c m ∧
         s' = Bs4.plug c (Bs4.decompose_all removed_tags m) ∧
         ∀ h, h ∈ Bs4.hrefs s' ↔
              h ∈ Bs4.hrefs_before c ∨ Bs4.visible removed_tags h m ∨
              h ∈ Bs4.hrefs_after c.
Proof.
  unfold extract_content.
  destruct (find_main_content s) as [[c m]|] eqn:Hmain; [| done].
  intros [= _ <-]. exists c, m.
  split_and!; [done | by rewrite (or_else_find_ref_sound s c m) | done |].
  intros h. by rewrite hrefs_plug, !elem_of_app, hrefs_decompose_all.
Qed.

Lemma extract_content_hrefs_incl (s s' : soup) (url : string)
    (doc : document) (h : string) :
  extract_content s url = Ok (doc, s') → h ∈ Bs4.hrefs s' → h ∈ Bs4.hrefs s.
Proof.
  intros (c & m & _ & -> & -> & _)%extract_content_hrefs.
  rewrite !hrefs_plug, !elem_of_app.
  intros [?|[?%hrefs_decompose_all_incl|?]]; auto.
Qed.

Lemma fold_left_log_trace (evs : list event) (st : state) :
  let st' := fold_left (λ s e, log e s) evs st in
  visited_urls st' = visited_urls st ∧ queued_urls st' = queued_urls st ∧
  documents st' = documents st ∧ urls_to_visit st' = urls_to_visit st ∧
  total_pages st' = total_pages st ∧ trace st' = trace st ++ evs.
Proof.
  revert st. induction evs as [|e evs IH]; intros st; simpl.
  - by rewrite app_nil_r.
  - destruct (IH (log e st)) as (-> & -> & -> & -> & -> & ->). simpl.
    by rewrite <- app_assoc.
Qed.

(** What extraction and link discovery change: [queued_urls] gains
    distinct new URLs within the scope, each the resolution of a link of
    the document as [extract_content] left it; they join [urls_to_visit]
    unless an exception intervenes; nothing is requested, nothing
    slept. *)
Lemma process_spec (self : scraper) (url : string) (r : response)
    (st st' : state) (res : result unit) :
  process self url r st = (st', res) →
  visited_urls st' = visited_urls st ∧
  total_pages st' = total_pages st ∧
  requested (trace st') = requested (trace st) ∧
  (∀ k, Sleep k ∈ trace st' → Sleep k ∈ trace st) ∧
  ∃ added,
    queued_urls st' = list_to_set added ∪ queued_urls st ∧
    NoDup added ∧
    (∀ u, u ∈ added →
       (u ∉ queued_urls st) ∧ (u ∉ visited_urls st) ∧ within_scope self u ∧
       ∃ doc s' h,
         extract_content (BeautifulSoup (content r)) url = Ok (doc, s') ∧
         h ∈ Bs4.hrefs s' ∧ resolves url h u) ∧
    urls_to_visit st' =
      urls_to_visit st ++ match res with Ok _ => added | Raise _ => [] end.
Proof.
  unfold process. destruct (_ || _).
  - destruct (extract_pdf_content (content r) url) as [doc warnings] eqn:Hpdf.
    intros [= <- <-]. simpl.
    pose proof (fold_left_log_trace warnings st) as (-> & -> & _ & -> & -> & ->).
    pose proof (extract_pdf_content_warnings (content r) url) as [Hreq Hsl].
    rewrite Hpdf in Hreq, Hsl. simpl in Hreq, Hsl.
    split_and!; [done..| | |].
    + unfold requested in *. by rewrite omap_app, Hreq, app_nil_r.
    + intros k [?|Hin]%elem_of_app; [done |].
      rewrite Forall_forall in Hsl. by destruct (Hsl _ Hin k).
    + exists []. rewrite app_nil_r.
      split_and!; [set_solver | constructor | | done].
      by intros u ?%elem_of_nil.
  - destruct (extract_content _ url) as [[doc s']|e] eqn:Hcontent.
    2: { intros [= <- <-]. split_and!; [done..|]. exists [].
         rewrite app_nil_r. split_and!; [set_solver | constructor | | done].
         by intros u ?%elem_of_nil. }
    destruct (extract_links self s' url _ _) as [queued new_links] eqn:Hlinks.
    unfold extract_links in Hlinks. simpl in Hlinks.
    apply extract_links_from_spec in Hlinks as (added & -> & Hnd & Hadded & Hres).
    assert (∀ u, u ∈ added →
              (u ∉ queued_urls st) ∧ (u ∉ visited_urls st) ∧
              within_scope self u ∧
              ∃ doc0 s'0 h, Ok (doc, s') = Ok (doc0, s'0) ∧
                            h ∈ Bs4.hrefs s'0 ∧ resolves url h u) as Hadded'.
    { intros u Hu. destruct (Hadded u Hu) as (? & ? & ? & h & ? & ?).
      split_and!; [done..|]. by exists doc, s', h. }
    destruct new_links as [links|e]; intros [= <- <-]; simpl.
    + split_and!; [done..|]. exists added. split_and!; [done..|].
      by rewrite (Hres links eq_refl).
    + split_and!; [done..|]. exists added. rewrite app_nil_r. by split_and!.
Qed.

(** The state after the dequeue and the log line that open an
    iteration. *)
Lemma loop_body_skip (self : scraper) (st : state) (url : string)
    (rest : list string) :
  urls_to_visit st = url :: rest →
  url ∈ visited_urls st →
  loop_body self st = dequeue url rest st.
Proof.
  unfold loop_body. intros -> Hin. simpl.
  by rewrite bool_decide_eq_true_2.
Qed.

Lemma loop_body_fetch_failed (self : scraper) (st : state) (url : string)
    (rest : list string) (e : exn) :
  urls_to_visit st = url :: rest →
  url ∉ visited_urls st →
  fetch (length (requested (trace st))) url = Raise e →
  loop_body self st =
  log (WarnScraping url e) (log (HttpGet url) (dequeue url rest st)).
Proof.
  unfold loop_body. intros -> Hin Hfetch. simpl.
  rewrite bool_decide_eq_false_2 by done.
  rewrite requested_snoc, app_nil_r. by rewrite Hfetch.
Qed.

Lemma loop_body_processed (self : scraper) (st st1 : state) (url : string)
    (rest : list string) (r : response) (res : result unit) :
  urls_to_visit st = url :: rest →
  url ∉ visited_urls st →
  fetch (length (requested (trace st))) url = Ok r →
  process self url r
    (add_visited url (log (HttpGet url) (dequeue url rest st))) = (st1, res) →
  loop_body self st =
  match res with
  | Raise e => log (WarnScraping url e) st1
  | Ok _ =>
      log (Sleep 51)
        (set_total_pages
           (Z.min (max_pages self) (Z.of_nat (length (urls_to_visit st1))))
           st1)
  end.
Proof.
  unfold loop_body. intros -> Hin Hfetch Hprocess. simpl.
  rewrite bool_decide_eq_false_2 by done.
  rewrite requested_snoc, app_nil_r. rewrite Hfetch.
  by rewrite Hprocess.
Qed.
End Crawl.

(** ** One iteration, in terms of what it changes *)

Section Iteration.
Context `{W : World}.

Lemma fetch_ok (n : nat) (url : string) (r : response) :
  fetch n url = Ok r →
  requests_get n url = Ok r ∧ ¬ (400 ≤ status_code r < 600).
Proof.
  unfold fetch, raise_for_status.
  destruct (requests_get n url) as [r'|]; simpl; [| done].
  destruct (_ && _) eqn:Hs; simpl; [done |]. intros [= <-].
  split; [done |]. apply andb_false_iff in Hs as [Hs|Hs]; lia.
Qed.

Lemma fetch_raises (n : nat) (url : string) (e : exn) :
  fetch n url = Raise e ↔
  requests_get n url = Raise e ∨
  ∃ r, requests_get n url = Ok r ∧ 400 ≤ status_code r < 600 ∧
       e = RequestException.
Proof.
  unfold fetch, raise_for_status.
  destruct (requests_get n url) as [r|e']; simpl.
  - destruct (_ && _) eqn:Hs; simpl.
    + apply andb_true_iff in Hs as [H1 H2]. split.
      * intros [= <-]. right. exists r. split_and!; [done | lia | lia | done].
      * intros [? | (r' & _ & _ & ->)]; done.
    + apply andb_false_iff in Hs. split; [done |].
      intros [? | (r' & [= <-] & ? & _)]; [done | lia].
  - split; [by left |]. intros [? | (r' & ? & _)]; done.
Qed.

(** The effect of an iteration on the frontier.  [got] tells whether the
    URL was requested, [vis] whether it entered [visited_urls], [enq]
    whether the discovered links reached [urls_to_visit]. *)
Lemma loop_body_effect (self : scraper) (st : state) (url : string)
    (rest : list string) :
  urls_to_visit st = url :: rest →
  ∃ (got vis enq : bool) (added : list string),
    requested (trace (loop_body self st)) =
      requested (trace st) ++ (if got then [url] else []) ∧
    visited_urls (loop_body self st) =
      (if vis then {[url]} ∪ visited_urls st else visited_urls st) ∧
    (vis = true → got = true ∧ url ∉ visited_urls st) ∧
    queued_urls (loop_body self st) = list_to_set added ∪ queued_urls st ∧
    NoDup added ∧
    (∀ u, u ∈ added →
       (u ∉ queued_urls st) ∧ within_scope self u ∧
       ∃ r doc s' h,
         requests_get (length (requested (trace st))) url = Ok r ∧
         extract_content (BeautifulSoup (content r)) url = Ok (doc, s') ∧
         h ∈ Bs4.hrefs s' ∧ resolves url h u) ∧
    urls_to_visit (loop_body self st) = rest ++ (if enq then added else []).
Proof.
  intros Hpending.
  destruct (decide (url ∈ visited_urls st)) as [Hvis|Hvis].
  { rewrite (loop_body_skip self st url rest) by done.
    exists false, false, false, []. simpl. rewrite requested_snoc, !app_nil_r.
    split_and!; [done.. | set_solver | constructor | | done].
    by intros u ?%elem_of_nil. }
  destruct (fetch (length (requested (trace st))) url) as [r|e] eqn:Hfetch.
  2: { rewrite (loop_body_fetch_failed self st url rest e) by done.
       exists true, false, false, []. simpl.
       rewrite !requested_snoc, !app_nil_r.
       split_and!; [done.. | set_solver | constructor | | done].
       by intros u ?%elem_of_nil. }
  destruct (process self url r
              (add_visited url (log (HttpGet url) (dequeue url rest st))))
    as [st1 res] eqn:Hprocess.
  rewrite (loop_body_processed self st st1 url rest r res) by done.
  apply process_spec in Hprocess
    as (Hv & _ & Hreq & _ & added & Hq & Hnd & Hadded & Hp).
  simpl in Hv, Hreq, Hq, Hadded, Hp.
  rewrite !requested_snoc, app_nil_r in Hreq.
  exists true, true, (match res with Ok _ => true | Raise _ => false end), added.
  assert (∀ u, u ∈ added →
            (u ∉ queued_urls st) ∧ within_scope self u ∧
            ∃ r0 doc s' h,
              requests_get (length (requested (trace st))) url = Ok r0 ∧
              extract_content (BeautifulSoup (content r0)) url = Ok (doc, s') ∧
              h ∈ Bs4.hrefs s' ∧ resolves url h u) as Hadded'.
  { intros u Hu.
    destruct (Hadded u Hu) as (? & _ & ? & doc & s' & h & ? & ? & ?).
    split_and!; [done..|]. exists r, doc, s', h.
    by apply fetch_ok in Hfetch as [-> _]. }
  destruct res as [[]|e]; simpl; rewrite requested_snoc, app_nil_r.
  - by split_and!.
  - by split_and!.
Qed.

(** *** The invariant *)

Lemma continue_true (self : scraper) (st : state) :
  continue self st = true →
  ∃ url rest, urls_to_visit st = url :: rest ∧
              Z.of_nat (size (visited_urls st)) < max_pages self.
Proof.
  unfold continue. destruct (urls_to_visit st) as [|url rest]; [done |].
  intros ?%Z.ltb_lt. by exists url, rest.
Qed.

Lemma loop_body_invariant (self : scraper) (seed : string) (st : state) :
  crawl_invariant self seed st →
  continue self st = true →
  crawl_invariant self seed (loop_body self st).
Proof.
  intros [Hnd Hpq Hrq Hrl Hrnd Hvr Hb Hsc]
         (url & rest & Hpending & Hbudget)%continue_true.
  destruct (loop_body_effect self st url rest Hpending)
    as (got & vis & enq & added & Hreq & Hvis & Hvg & Hq & Hand & Hadded & Hp).
  rewrite Hpending in Hnd, Hpq, Hrl, Hsc.
  apply NoDup_cons in Hnd as [Hurl Hnd].
  assert (Hfresh : ∀ u, u ∈ added → u ∉ queued_urls st)
    by (intros u Hu; by apply Hadded).
  assert (Hnew : ∀ u, u ∈ (if enq then added else []) → u ∈ added)
    by (destruct enq; [done | by intros u ?%elem_of_nil]).
  assert (Hgot : ∀ u, u ∈ (if got then [url] else []) → u = url).
  { destruct got; intros u Hu; [by apply list_elem_of_singleton in Hu |].
    by apply elem_of_nil in Hu. }
  split.
  - rewrite Hp. apply NoDup_app. split_and!; [done | | ].
    + intros u Hu Hu'%Hnew. apply (Hfresh u Hu'), Hpq. by right.
    + destruct enq; [done | constructor].
  - intros u. rewrite Hp, Hq, elem_of_app. intros [Hu | Hu%Hnew].
    + apply elem_of_union_r, Hpq. by right.
    + apply elem_of_union_l. by apply elem_of_list_to_set.
  - intros u. rewrite Hreq, Hq, elem_of_app. intros [Hu | ->%Hgot].
    + by apply elem_of_union_r, Hrq.
    + apply elem_of_union_r, Hpq. by left.
  - intros u. rewrite Hreq, Hp, !elem_of_app.
    intros [Hu | ->%Hgot] [Hu' | Hu'%Hnew].
    + apply (Hrl u Hu). by right.
    + by apply (Hfresh u Hu'), Hrq.
    + done.
    + apply (Hfresh url Hu'), Hpq. by left.
  - rewrite Hreq. apply NoDup_app. split_and!; [done | |].
    + intros u Hu ->%Hgot. apply (Hrl url Hu). by left.
    + destruct got; [apply NoDup_singleton | constructor].
  - intros u. rewrite Hvis, Hreq, elem_of_app. destruct vis.
    + destruct (Hvg eq_refl) as [-> _].
      intros [->%elem_of_singleton | Hu]%elem_of_union.
      * right. by left.
      * left. by apply Hvr.
    + intros Hu. left. by apply Hvr.
  - rewrite Hvis. destruct vis; [| done].
    destruct (Hvg eq_refl) as [_ Hfreshurl].
    rewrite size_union by set_solver. rewrite size_singleton. lia.
  - intros u. rewrite Hp, elem_of_app. intros [Hu | Hu%Hnew].
    + apply Hsc. by right.
    + right. by apply Hadded.
Qed.

Lemma run_invariant (self : scraper) (seed : string) (n : nat) (st : state) :
  crawl_invariant self seed st → crawl_invariant self seed (run self n st).
Proof.
  revert st. induction n as [|n IH]; intros st Hinv; simpl; [done |].
  destruct (continue self st) eqn:Hc; [| done].
  by apply IH, loop_body_invariant.
Qed.

Lemma seed_state_spec (self : scraper) (st : state) :
  seed_state self = Ok st →
  ∃ seed, normalize_url (base_url self) = Ok seed ∧
          st = {| visited_urls := ∅; queued_urls := {[seed]};
                  documents := []; urls_to_visit := [seed];
                  total_pages := Z.min (max_pages self) 1; trace := [] |}.
Proof.
  unfold seed_state. destruct (normalize_url (base_url self)) as [seed|];
    simpl; [| done].
  intros [= <-]. by exists seed.
Qed.

Lemma seed_state_invariant (self : scraper) (st : state) :
  seed_state self = Ok st →
  ∃ seed, normalize_url (base_url self) = Ok seed ∧
          urls_to_visit st = [seed] ∧ crawl_invariant self seed st.
Proof.
  intros (seed & Hseed & ->)%seed_state_spec. exists seed.
  split_and!; [done..|]. split; cbn -[size].
  - apply NoDup_singleton.
  - intros u ->%list_elem_of_singleton. set_solver.
  - by intros u ?%elem_of_nil.
  - by intros u ?%elem_of_nil.
  - constructor.
  - intros u Hu. set_solver.
  - rewrite size_empty. lia.
  - intros u ->%list_elem_of_singleton. by left.
Qed.

(** The loop leaves with the state that [run] computes. *)
Lemma scrape_loop_run (self : scraper) (fuel : nat) (st st' : state) :
  scrape_loop self fuel st = Some st' →
  st' = run self fuel st ∧ continue self st' = false.
Proof.
  revert st. induction fuel as [|fuel IH]; intros st; simpl.
  - destruct (continue self st) eqn:Hc; [done |]. by intros [= <-].
  - destruct (continue self st) eqn:Hc; [apply IH |]. by intros [= <-].
Qed.
End Iteration.

(** ** The crawl: visits, budget, scope *)

Section CrawlProperties.
Context `{W : World}.

(** C1 (amended): in every crawl no URL is requested twice, every visited
    URL has been requested, and the size of [visited_urls] never exceeds
    [max(max_pages, 0)], at any point of the loop. *)
Theorem crawl_fetches_once_within_budget (self : scraper) (st : state)
    (n : nat) :
  seed_state self = Ok st →
  NoDup (requested (trace (run self n st))) ∧
  (∀ u, u ∈ visited_urls (run self n st) →
        u ∈ requested (trace (run self n st))) ∧
  Z.of_nat (size (visited_urls (run self n st))) ≤ Z.max 0 (max_pages self) ∧
  (∀ fuel st', scrape_loop self fuel st = Some st' →
     NoDup (requested (trace st')) ∧
     Z.of_nat (size (visited_urls st')) ≤ Z.max 0 (max_pages self)).
Proof.
  intros (seed & _ & _ & Hinv)%seed_state_invariant.
  split_and!; [by destruct (run_invariant self seed n st Hinv)..|].
  intros fuel st' [-> _]%scrape_loop_run.
  by destruct (run_invariant self seed fuel st Hinv).
Qed.

(** C3 (amended): every URL of the pending queue other than the seed has
    the netloc of the base URL, a path that (trailing slashes apart)
    starts with the path of the base URL, and does not itself end with an
    excluded suffix.  The seed is enqueued without any test. *)
Theorem enqueued_links_within_scope (base : string) (maxp : Z)
    (self : scraper) (st : state) (n : nat) (u : string) :
  init base maxp = Ok self →
  seed_state self = Ok st →
  u ∈ urls_to_visit (run self n st) →
  u ∈ urls_to_visit st ∨
  ∃ base_parsed parsed,
    Urllib.urlparse base = Ok base_parsed ∧
    Urllib.urlparse u = Ok parsed ∧
    Urllib.netloc parsed = Urllib.netloc base_parsed ∧
    Py.startswith (Py.rstrip "/" (Urllib.path base_parsed))
                  (Py.rstrip "/" (Urllib.path parsed)) = true ∧
    Py.endswith_any excluded_suffixes u = false.
Proof.
  intros (base_parsed & Hbase & Hd & Hp & _)%init_spec
         (seed & _ & Hpending & Hinv)%seed_state_invariant Hu.
  apply (run_invariant self seed n) in Hinv.
  destruct (inv_scope _ _ _ Hinv u Hu) as [-> | (parsed & ? & ? & ? & ?)].
  - left. rewrite Hpending. by left.
  - right. exists base_parsed, parsed. rewrite <- Hd, <- Hp. by split_and!.
Qed.

(** C5 (amended): when the request raises, or is answered with a 4xx or
    5xx status, the iteration logs a warning and leaves [visited_urls],
    [queued_urls] and [documents] as they were; the URL is not visited,
    and the loop goes on from the state reached. *)
Theorem fetch_failure_changes_nothing (self : scraper) (st : state)
    (url : string) (rest : list string) (e : exn) :
  urls_to_visit st = url :: rest →
  url ∉ visited_urls st →
  (requests_get (length (requested (trace st))) url = Raise e ∨
   ∃ r, requests_get (length (requested (trace st))) url = Ok r ∧
        400 ≤ status_code r < 600 ∧ e = RequestException) →
  visited_urls (loop_body self st) = visited_urls st ∧
  (url ∉ visited_urls (loop_body self st)) ∧
  queued_urls (loop_body self st) = queued_urls st ∧
  documents (loop_body self st) = documents st ∧
  urls_to_visit (loop_body self st) = rest ∧
  trace (loop_body self st) =
    trace st ++
    [LogInfo (Z.of_nat (size (visited_urls st)) + 1) (total_pages st) url;
     HttpGet url; WarnScraping url e] ∧
  ∀ fuel, continue self st = true →
          scrape_loop self (S fuel) st =
          scrape_loop self fuel (loop_body self st).
Proof.
  intros Hpending Hvis Hfail%fetch_raises.
  rewrite (loop_body_fetch_failed self st url rest e) by done.
  simpl. rewrite <- !app_assoc. split_and!; [done..|].
  intros fuel Hc. simpl. rewrite Hc.
  by rewrite (loop_body_fetch_failed self st url rest e).
Qed.

Lemma slept_app (tr1 tr2 : list event) :
  slept (tr1 ++ tr2) = (slept tr1 + slept tr2)%nat.
Proof.
  induction tr1 as [|ev tr1 IH]; simpl; [done |].
  destruct ev; rewrite IH; lia.
Qed.

Lemma slept_no_sleep (tr : list event) :
  Forall (λ ev, ∀ k, ev ≠ Sleep k) tr → slept tr = 0%nat.
Proof.
  induction 1 as [|ev tr Hev _ IH]; simpl; [done |].
  destruct ev; try done. by destruct (Hev hundredths).
Qed.

Lemma process_slept (self : scraper) (url : string) (r : response)
    (st st' : state) (res : result unit) :
  process self url r st = (st', res) → slept (trace st') = slept (trace st).
Proof.
  unfold process. destruct (_ || _).
  - destruct (extract_pdf_content (content r) url) as [doc warnings] eqn:Hpdf.
    intros [= <- <-]. simpl.
    pose proof (fold_left_log_trace warnings st) as (_ & _ & _ & _ & _ & ->).
    pose proof (extract_pdf_content_warnings (content r) url) as [_ Hsl].
    rewrite Hpdf in Hsl. simpl in Hsl.
    rewrite slept_app, (slept_no_sleep warnings) by done. lia.
  - destruct (extract_content _ url) as [[doc s']|e]; [| by intros [= <- <-]].
    destruct (extract_links self s' url _ _) as [queued [links|e]];
      by intros [= <- <-].
Qed.

(** C2 (amended): an iteration sleeps 0.51 s, as its last action, exactly
    when its [try] block runs to the end; an iteration that skips a
    visited URL, whose request fails, or whose extraction raises, does not
    sleep at all. *)
Theorem politeness_delay_only_after_success (self : scraper) (st : state) :
  slept (trace (loop_body self st)) =
    (slept (trace st) +
     match outcome_of self st with Completed => 51 | _ => 0 end)%nat ∧
  match outcome_of self st with
  | Completed => last (trace (loop_body self st)) = Some (Sleep 51)
  | FetchFailed e | ProcessingFailed e =>
      ∃ url, last (trace (loop_body self st)) = Some (WarnScraping url e)
  | Skipped =>
      ∃ n total url,
        last (trace (loop_body self st)) = Some (LogInfo n total url)
  | NothingPending => loop_body self st = st
  end.
Proof.
  unfold outcome_of.
  destruct (urls_to_visit st) as [|url rest] eqn:Hpending.
  { unfold loop_body. rewrite Hpending. split; [lia | done]. }
  destruct (bool_decide_reflect (url ∈ visited_urls st)) as [Hvis|Hvis].
  { rewrite (loop_body_skip self st url rest) by done. simpl.
    rewrite slept_app, last_snoc. simpl. split; [lia | by eexists _, _, _]. }
  destruct (fetch (length (requested (trace st))) url) as [r|e] eqn:Hfetch.
  2: { rewrite (loop_body_fetch_failed self st url rest e) by done. simpl.
       rewrite !slept_app, last_snoc. simpl. split; [lia | by eexists]. }
  destruct (process self url r _) as [st1 res] eqn:Hprocess.
  rewrite (loop_body_processed self st st1 url rest r res) by done.
  apply process_slept in Hprocess. simpl in Hprocess.
  rewrite !slept_app in Hprocess. simpl in Hprocess.
  destruct res as [[]|e]; simpl; rewrite slept_app, last_snoc, Hprocess;
    simpl; (split; [lia | by try eexists]).
Qed.
End CrawlProperties.

(** *** Examples *)

Lemma init_negative_budget :
  @init offline_world "https://docs.example.com/guide/" (-1)
  = Ok negative_budget_scraper.
Proof. reflexivity. Qed.

Lemma init_archive :
  @init offline_world "https://docs.example.com/files/archive.zip" 100
  = Ok archive_scraper.
Proof. reflexivity. Qed.

Lemma seed_guide `{W : World} : seed_state guide_scraper = Ok guide_seed.
Proof. reflexivity. Qed.

(** ** Termination *)

Section Termination.
Context `{W : World}.

Lemma added_within (self : scraper) (V : gset string) (st : state)
    (url u : string) :
  link_graph_within self V →
  within_scope self u →
  (∃ r doc s' h,
     requests_get (length (requested (trace st))) url = Ok r ∧
     extract_content (BeautifulSoup (content r)) url = Ok (doc, s') ∧
     h ∈ Bs4.hrefs s' ∧ resolves url h u) →
  u ∈ V.
Proof.
  intros HV Hscope (r & doc & s' & h & Hget & Hcontent & Hh & Hres).
  eapply HV; [done | | done..]. by eapply extract_content_hrefs_incl.
Qed.

(** Each iteration takes one URL from the queue and moves those it adds
    out of the part of the graph not queued yet. *)
Lemma loop_body_measure (self : scraper) (V : gset string) (st : state) :
  link_graph_within self V →
  continue self st = true →
  (size (V ∖ queued_urls (loop_body self st))
   + length (urls_to_visit (loop_body self st))
   < size (V ∖ queued_urls st) + length (urls_to_visit st))%nat ∧
  queued_urls (loop_body self st) ⊆ queued_urls st ∪ V.
Proof.
  intros HV (url & rest & Hpending & _)%continue_true.
  destruct (loop_body_effect self st url rest Hpending)
    as (got & vis & enq & added & _ & _ & _ & Hq & Hnd & Hadded & Hp).
  assert (Hsub : list_to_set added ⊆ V ∖ queued_urls st).
  { intros u Hu%elem_of_list_to_set.
    destruct (Hadded u Hu) as (Hfresh & Hscope & Hlink).
    apply elem_of_difference. split; [| done].
    by eapply added_within. }
  rewrite Hq, Hp, Hpending. split; [| set_solver].
  replace (V ∖ (list_to_set added ∪ queued_urls st))
    with ((V ∖ queued_urls st) ∖ list_to_set added) by set_solver.
  rewrite size_difference by done.
  apply subseteq_size in Hsub.
  rewrite size_list_to_set in * by done.
  rewrite length_app. simpl.
  assert (length (if enq then added else []) ≤ length added)%nat
    by (destruct enq; simpl; lia).
  lia.
Qed.

Lemma scrape_loop_terminates (self : scraper) (V : gset string) (fuel : nat) :
  link_graph_within self V →
  ∀ st,
    (size (V ∖ queued_urls st) + length (urls_to_visit st) ≤ fuel)%nat →
    ∃ st', scrape_loop self fuel st = Some st'.
Proof.
  intros HV. induction fuel as [|fuel IH]; intros st Hm; simpl.
  - destruct (continue self st) eqn:Hc; [| by eexists].
    apply continue_true in Hc as (url & rest & Hpending & _).
    rewrite Hpending in Hm. simpl in Hm. lia.
  - destruct (continue self st) eqn:Hc; [| by eexists].
    apply IH. pose proof (loop_body_measure self V st HV Hc) as [? _]. lia.
Qed.

Lemma run_queued_within (self : scraper) (V : gset string) (n : nat) :
  link_graph_within self V →
  ∀ st, queued_urls (run self n st) ⊆ queued_urls st ∪ V.
Proof.
  intros HV. induction n as [|n IH]; intros st; simpl; [set_solver |].
  destruct (continue self st) eqn:Hc; [| set_solver].
  pose proof (loop_body_measure self V st HV Hc) as [_ Hsub].
  specialize (IH (loop_body self st)). set_solver.
Qed.

(** An iteration either leaves [visited_urls] alone and shortens the queue
    by its head, or adds the head to [visited_urls]. *)
Lemma loop_body_progress (self : scraper) (st : state) (url : string)
    (rest : list string) :
  urls_to_visit st = url :: rest →
  (visited_urls (loop_body self st) = visited_urls st ∧
   urls_to_visit (loop_body self st) = rest) ∨
  ((url ∉ visited_urls st) ∧
   visited_urls (loop_body self st) = {[url]} ∪ visited_urls st).
Proof.
  intros Hpending.
  destruct (decide (url ∈ visited_urls st)) as [Hvis|Hvis].
  { left. by rewrite (loop_body_skip self st url rest). }
  destruct (fetch (length (requested (trace st))) url) as [r|e] eqn:Hfetch.
  2: { left. by rewrite (loop_body_fetch_failed self st url rest e). }
  destruct (process self url r
              (add_visited url (log (HttpGet url) (dequeue url rest st))))
    as [st1 res] eqn:Hprocess.
  right. split; [done |].
  rewrite (loop_body_processed self st st1 url rest r res) by done.
  apply process_spec in Hprocess as (Hv & _).
  by destruct res.
Qed.

(** The loop of [scrape] is always left, on any site: an iteration either
    uses up one page of the budget or one URL of the queue, and only the
    former kind adds to the queue. *)
Lemma scrape_loop_always_terminates (self : scraper) (st : state) :
  ∃ fuel st', scrape_loop self fuel st = Some st'.
Proof.
  remember (Z.to_nat (max_pages self - Z.of_nat (size (visited_urls st))))
    as b eqn:Hb.
  assert (Z.to_nat (max_pages self - Z.of_nat (size (visited_urls st))) ≤ b)%nat
    as Hle by lia.
  clear Hb. revert st Hle. induction b as [|b IHb]; intros st Hb.
  { exists 0%nat, st. simpl. unfold continue.
    destruct (urls_to_visit st); [done |].
    destruct (Z.ltb_spec (Z.of_nat (size (visited_urls st))) (max_pages self));
      [lia | done]. }
  remember (length (urls_to_visit st)) as n eqn:Hn.
  revert st Hb Hn. induction n as [|n IHn]; intros st Hb Hn.
  { exists 0%nat, st. simpl. unfold continue.
    by destruct (urls_to_visit st). }
  destruct (continue self st) eqn:Hc.
  2: { exists 0%nat, st. simpl. by rewrite Hc. }
  pose proof Hc as (url & rest & Hpending & Hbudget)%continue_true.
  destruct (loop_body_progress self st url rest Hpending)
    as [[Hv Hp] | [Hfresh Hv]].
  - destruct (IHn (loop_body self st)) as (fuel & st' & Hloop).
    + by rewrite Hv.
    + rewrite Hp. rewrite Hpending in Hn. simpl in Hn. lia.
    + exists (S fuel), st'. simpl. by rewrite Hc.
  - destruct (IHb (loop_body self st)) as (fuel & st' & Hloop).
    + rewrite Hv, size_union, size_singleton by set_solver. lia.
    + exists (S fuel), st'. simpl. by rewrite Hc.
Qed.

(** C9: on a finite link graph closed under the scope the loop of
    [scrape] is left after at most [size V + 1] iterations, whatever
    [max_pages] is; when [max_pages] exceeds the size of the graph it is
    left with an empty queue. *)
Theorem crawl_terminates_on_finite_graph (self : scraper) (V : gset string)
    (st : state) :
  seed_state self = Ok st →
  link_graph_within self V →
  ∃ fuel st',
    (fuel ≤ size V + 1)%nat ∧
    scrape_loop self fuel st = Some st' ∧
    scrape self fuel = Some (Ok (documents st')) ∧
    (Z.of_nat (size V) + 1 < max_pages self → urls_to_visit st' = []).
Proof.
  intros Hseed HV.
  destruct (seed_state_invariant self st Hseed)
    as (seed & _ & Hpending & Hinv).
  pose proof Hseed as (seed' & _ & Hst)%seed_state_spec.
  assert (Hqueued : queued_urls st = {[seed]}).
  { rewrite Hst in Hpending |- *. simpl in *. by injection Hpending as ->. }
  destruct (scrape_loop_terminates self V (size V + 1) HV st)
    as [st' Hloop].
  { rewrite Hpending. simpl.
    assert (size (V ∖ queued_urls st) ≤ size V)%nat; [| lia].
    apply subseteq_size. set_solver. }
  exists (size V + 1)%nat, st'. split_and!; [done | done | |].
  - unfold scrape. by rewrite Hseed, Hloop.
  - intros Hbudget. apply scrape_loop_run in Hloop as [-> Hstop].
    apply (run_invariant self seed (size V + 1)) in Hinv.
    pose proof (run_queued_within self V (size V + 1) HV st) as Hsub.
    set (st' := run self (size V + 1) st) in *.
    assert (visited_urls st' ⊆ {[seed]} ∪ V) as Hvis%subseteq_size.
    { intros u Hu%(inv_visited_requested _ _ _ Hinv).
      apply (inv_requested_queued _ _ _ Hinv) in Hu. set_solver. }
    assert (size ({[seed]} ∪ V : gset string) ≤ 1 + size V)%nat.
    { rewrite size_union_alt, size_singleton.
      assert (size (V ∖ {[seed]}) ≤ size V)%nat; [| lia].
      apply subseteq_size. set_solver. }
    unfold continue in Hstop.
    destruct (urls_to_visit st'); [done |].
    apply Z.ltb_ge in Hstop. lia.
Qed.
End Termination.

(** ** Links removed by [extract_content] *)

Section HiddenLinks.
Context `{W : World}.

(** C10: [extract_content] removes the [script], [style], [nav], [header]
    and [footer] tags of the main content area from the very document that
    link discovery then reads.  The links found are those before and after
    the area, untouched, and those of the area that are not inside a
    removed tag; nothing else is queued. *)
Theorem removed_links_are_not_discovered (self : scraper) (url : string)
    (r : response) (st st' : state) (res : result unit)
    (doc : document) (s' : soup) :
  extract_content (BeautifulSoup (content r)) url = Ok (doc, s') →
  process self url r st = (st', res) →
  ∃ c m,
    find_main_content (BeautifulSoup (content r)) = Some (c, m) ∧
    BeautifulSoup (content r) = Bs4.plug c m ∧
    s' = Bs4.plug c (Bs4.decompose_all removed_tags m) ∧
    Bs4.hrefs (BeautifulSoup (content r)) =
      Bs4.hrefs_before c ++ Bs4.hrefs_node m ++ Bs4.hrefs_after c ∧
    Bs4.hrefs s' =
      Bs4.hrefs_before c
      ++ Bs4.hrefs_node (Bs4.decompose_all removed_tags m)
      ++ Bs4.hrefs_after c ∧
    (∀ h, h ∈ Bs4.hrefs_node (Bs4.decompose_all removed_tags m) ↔
          Bs4.visible removed_tags h m) ∧
    (Py.endswith ".pdf" url
     || Py.contains "application/pdf"
          (Py.lower (default "" (content_type r))) = false →
     queued_urls st' =
     fst (extract_links self s' url (visited_urls st) (queued_urls st))) ∧
    (∀ u, u ∈ queued_urls st' →
          u ∈ queued_urls st ∨ ∃ h, h ∈ Bs4.hrefs s' ∧ resolves url h u) ∧
    (∀ u, u ∈ urls_to_visit st' →
          u ∈ urls_to_visit st ∨ ∃ h, h ∈ Bs4.hrefs s' ∧ resolves url h u).
Proof.
  intros Hcontent Hprocess.
  destruct (extract_content_hrefs _ _ _ _ Hcontent)
    as (c & m & Hmain & Hs & Hs' & _).
  exists c, m. split_and!; [done | done | done | | | | | |].
  - by rewrite Hs at 1; rewrite hrefs_plug.
  - by rewrite Hs', hrefs_plug.
  - intros h. apply hrefs_decompose_all.
  - intros Hhtml. unfold process in Hprocess.
    rewrite Hhtml, Hcontent in Hprocess.
    simpl in Hprocess.
    destruct (extract_links self s' url (visited_urls st) (queued_urls st))
      as [queued [links|e]]; by injection Hprocess as <- _.
  - apply process_spec in Hprocess
      as (_ & _ & _ & _ & added & Hq & _ & Hadded & _).
    intros u. rewrite Hq. intros [Hu%elem_of_list_to_set | Hu]%elem_of_union;
      [right | by left].
    destruct (Hadded u Hu) as (_ & _ & _ & doc0 & s0 & h & Hc0 & Hh & Hres).
    rewrite Hcontent in Hc0. injection Hc0 as <- <-. by exists h.
  - apply process_spec in Hprocess
      as (_ & _ & _ & _ & added & _ & _ & Hadded & Hp).
    intros u. rewrite Hp. intros [Hu | Hu]%elem_of_app; [by left | right].
    destruct res; [| by apply elem_of_nil in Hu].
    destruct (Hadded u Hu) as (_ & _ & _ & doc0 & s0 & h & Hc0 & Hh & Hres).
    rewrite Hcontent in Hc0. injection Hc0 as <- <-. by exists h.
Qed.
End HiddenLinks.

(** ** The claims on the example site *)

(** The first iteration on the site: the start page is visited, and of its
    four links the one inside the [nav] of [main] and the one to another
    host are not queued. *)
Example first_iteration_on_site :
  let st := @loop_body site_world guide_scraper guide_seed in
  urls_to_visit st = ["https://docs.example.com/guide/menu";
                      "https://docs.example.com/guide/intro"] ∧
  elements (visited_urls st) = ["https://docs.example.com/guide"] ∧
  trace st = [LogInfo 1 1 "https://docs.example.com/guide";
              HttpGet "https://docs.example.com/guide"; Sleep 51].
Proof. vm_compute. done. Qed.

Lemma crawl_fetches_once_within_budget_witness :
  NoDup (requested (trace (@run site_world guide_scraper 3 guide_seed))) ∧
  (∀ u, u ∈ visited_urls (@run site_world guide_scraper 3 guide_seed) →
        u ∈ requested (trace (@run site_world guide_scraper 3 guide_seed))) ∧
  Z.of_nat (size (visited_urls (@run site_world guide_scraper 3 guide_seed)))
  ≤ Z.max 0 (max_pages guide_scraper) ∧
  (∀ fuel st', @scrape_loop site_world guide_scraper fuel guide_seed = Some st' →
     NoDup (requested (trace st')) ∧
     Z.of_nat (size (visited_urls st')) ≤ Z.max 0 (max_pages guide_scraper)).
Proof.
  apply (@crawl_fetches_once_within_budget site_world guide_scraper guide_seed 3).
  reflexivity.
Defined.

(** C1, as stated, fails for a negative budget: [visited_urls] is empty and
    its size, 0, exceeds [max_pages = -1]. *)
Lemma negative_budget_is_exceeded :
  ∃ st, @seed_state offline_world negative_budget_scraper = Ok st ∧
        ¬ (Z.of_nat (size (visited_urls
                             (@run offline_world negative_budget_scraper 0 st)))
           ≤ max_pages negative_budget_scraper).
Proof. eexists. split; [reflexivity |]. vm_compute. by intros H. Qed.

Lemma enqueued_links_within_scope_witness :
  "https://docs.example.com/guide/intro"
    ∈ urls_to_visit (@run site_world guide_scraper 1 guide_seed) ∧
  ("https://docs.example.com/guide/intro" ∈ urls_to_visit guide_seed ∨
   ∃ base_parsed parsed,
     @Urllib.urlparse site_world "https://docs.example.com/guide/"
       = Ok base_parsed ∧
     @Urllib.urlparse site_world "https://docs.example.com/guide/intro"
       = Ok parsed ∧
     Urllib.netloc parsed = Urllib.netloc base_parsed ∧
     Py.startswith (Py.rstrip "/" (Urllib.path base_parsed))
                   (Py.rstrip "/" (Urllib.path parsed)) = true ∧
     Py.endswith_any excluded_suffixes "https://docs.example.com/guide/intro"
       = false).
Proof.
  assert ("https://docs.example.com/guide/intro"
            ∈ urls_to_visit (@run site_world guide_scraper 1 guide_seed)) as Hin.
  { vm_compute. right. left. }
  split; [exact Hin |].
  apply (@enqueued_links_within_scope site_world
           "https://docs.example.com/guide/" 100 guide_scraper guide_seed 1);
    [reflexivity | reflexivity | exact Hin].
Defined.

(** C3, as stated, fails for the seed: it is enqueued without any test,
    here with an excluded extension. *)
Lemma seed_escapes_the_filter :
  @seed_state offline_world archive_scraper = Ok archive_seed ∧
  urls_to_visit archive_seed = ["https://docs.example.com/files/archive.zip"] ∧
  Py.endswith_any excluded_suffixes
    "https://docs.example.com/files/archive.zip" = true.
Proof. repeat split. Qed.

Lemma fetch_failure_changes_nothing_witness :
  let st := @loop_body offline_world guide_scraper guide_seed in
  visited_urls st = visited_urls guide_seed ∧
  ("https://docs.example.com/guide" ∉ visited_urls st) ∧
  queued_urls st = queued_urls guide_seed ∧
  documents st = documents guide_seed ∧
  urls_to_visit st = [] ∧
  trace st =
    trace guide_seed ++
    [LogInfo (Z.of_nat (size (visited_urls guide_seed)) + 1)
       (total_pages guide_seed) "https://docs.example.com/guide";
     HttpGet "https://docs.example.com/guide";
     WarnScraping "https://docs.example.com/guide" RequestException] ∧
  ∀ fuel, continue guide_scraper guide_seed = true →
          @scrape_loop offline_world guide_scraper (S fuel) guide_seed =
          @scrape_loop offline_world guide_scraper fuel st.
Proof.
  apply (@fetch_failure_changes_nothing offline_world guide_scraper guide_seed
           "https://docs.example.com/guide" [] RequestException).
  - reflexivity.
  - apply not_elem_of_empty.
  - left. reflexivity.
Defined.

(** C5, as stated, fails for a status outside 2xx that is not an error
    status: the URL answered with 304 is visited. *)
Lemma not_modified_is_visited :
  @requests_get not_modified_world 0 "https://docs.example.com/guide"
    = Ok {| status_code := 304; content_type := None; content := "" |} ∧
  elements (visited_urls (@loop_body not_modified_world guide_scraper guide_seed))
    = ["https://docs.example.com/guide"].
Proof. split; [reflexivity | by vm_compute]. Qed.

(** C2, as stated, fails: after a failed request the iteration ends with
    the warning, without any delay. *)
Lemma no_delay_after_failed_fetch :
  @outcome_of offline_world guide_scraper guide_seed
    = FetchFailed RequestException ∧
  trace (@loop_body offline_world guide_scraper guide_seed) =
    [LogInfo 1 1 "https://docs.example.com/guide";
     HttpGet "https://docs.example.com/guide";
     WarnScraping "https://docs.example.com/guide" RequestException] ∧
  slept (trace (@loop_body offline_world guide_scraper guide_seed)) = 0%nat.
Proof. by vm_compute. Qed.

Lemma site_links_within_graph :
  @link_graph_within site_world guide_scraper guide_graph.
Proof.
  intros n u r h l [= <-] Hh Hres Hscope. simpl in Hh.
  destruct (String.eqb_spec u "https://docs.example.com/guide") as [->|_].
  2: { by apply elem_of_nil in Hh. }
  unfold resolves in Hres. simpl in Hres.
  assert (h ∈ ["https://docs.example.com/guide/menu";
               "https://docs.example.com/guide/hidden";
               "https://docs.example.com/guide/intro/#top";
               "https://other.com/x"]) as Hcases by exact Hh.
  clear Hh. unfold guide_graph.
  repeat (apply elem_of_cons in Hcases as [-> | Hcases]);
    [vm_compute in Hres; injection Hres as <-; set_solver.. | |].
  - vm_compute in Hres. injection Hres as <-.
    destruct Hscope as (parsed & Hparse & Hnetloc & _).
    vm_compute in Hparse. injection Hparse as <-. discriminate Hnetloc.
  - by apply elem_of_nil in Hcases.
Qed.

Lemma crawl_terminates_on_finite_graph_witness :
  ∃ fuel st',
    (fuel ≤ size guide_graph + 1)%nat ∧
    @scrape_loop site_world guide_scraper fuel guide_seed = Some st' ∧
    @scrape site_world guide_scraper fuel = Some (Ok (documents st')) ∧
    (Z.of_nat (size guide_graph) + 1 < max_pages guide_scraper →
     urls_to_visit st' = []).
Proof.
  apply (@crawl_terminates_on_finite_graph site_world guide_scraper guide_graph
           guide_seed); [reflexivity | exact site_links_within_graph].
Defined.

Lemma removed_links_are_not_discovered_witness :
  let st' := fst (@process site_world guide_scraper
                    "https://docs.example.com/guide" guide_response guide_seed) in
  ∃ c m,
    find_main_content guide_page = Some (c, m) ∧
    guide_page = Bs4.plug c m ∧
    guide_page_cleaned = Bs4.plug c (Bs4.decompose_all removed_tags m) ∧
    Bs4.hrefs guide_page =
      Bs4.hrefs_before c ++ Bs4.hrefs_node m ++ Bs4.hrefs_after c ∧
    Bs4.hrefs guide_page_cleaned =
      Bs4.hrefs_before c
      ++ Bs4.hrefs_node (Bs4.decompose_all removed_tags m)
      ++ Bs4.hrefs_after c ∧
    (∀ h, h ∈ Bs4.hrefs_node (Bs4.decompose_all removed_tags m) ↔
          Bs4.visible removed_tags h m) ∧
    (Py.endswith ".pdf" "https://docs.example.com/guide"
     || Py.contains "application/pdf"
          (Py.lower (default "" (content_type guide_response))) = false →
     queued_urls st' =
     fst (@extract_links site_world guide_scraper guide_page_cleaned
            "https://docs.example.com/guide"
            (visited_urls guide_seed) (queued_urls guide_seed))) ∧
    (∀ u, u ∈ queued_urls st' →
          u ∈ queued_urls guide_seed ∨
          ∃ h, h ∈ Bs4.hrefs guide_page_cleaned ∧
               @resolves site_world "https://docs.example.com/guide" h u) ∧
    (∀ u, u ∈ urls_to_visit st' →
          u ∈ urls_to_visit guide_seed ∨
          ∃ h, h ∈ Bs4.hrefs guide_page_cleaned ∧
               @resolves site_world "https://docs.example.com/guide" h u).
Proof.
  eapply (@removed_links_are_not_discovered site_world guide_scraper
            "https://docs.example.com/guide" guide_response guide_seed _
            (snd (@process site_world guide_scraper
                    "https://docs.example.com/guide" guide_response guide_seed))).
  - vm_compute. reflexivity.
  - apply surjective_pairing.
Defined.

(** The links of the start page, before and after [extract_content]. *)
Example hidden_link_on_site :
  Bs4.hrefs guide_page =
    ["https://docs.example.com/guide/menu";
     "https://docs.example.com/guide/hidden";
     "https://docs.example.com/guide/intro/#top"; "https://other.com/x"] ∧
  Bs4.hrefs guide_page_cleaned =
    ["https://docs.example.com/guide/menu";
     "https://docs.example.com/guide/intro/#top"; "https://other.com/x"].
Proof. split; reflexivity. Qed.

(** ** More on the crawl: order, retries, lost links *)

Section CrawlOrder.
Context `{W : World}.

Lemma run_add (self : scraper) (n k : nat) (st : state) :
  run self (n + k) st = run self k (run self n st).
Proof.
  revert st. induction n as [|n IH]; intros st; simpl; [done |].
  destruct (continue self st) eqn:Hc; [apply IH |].
  destruct k; simpl; [done | by rewrite Hc].
Qed.

Lemma loop_body_idle (self : scraper) (st : state) :
  urls_to_visit st = [] → loop_body self st = st.
Proof. unfold loop_body. by intros ->. Qed.

Lemma head_not_visited (self : scraper) (seed : string) (st : state)
    (url : string) (rest : list string) :
  crawl_invariant self seed st →
  urls_to_visit st = url :: rest →
  url ∉ visited_urls st.
Proof.
  intros Hinv Hpending Hvis.
  apply (inv_visited_requested _ _ _ Hinv) in Hvis.
  apply (inv_requested_left _ _ _ Hinv) in Hvis.
  apply Hvis. rewrite Hpending. by left.
Qed.

(** An iteration on a URL not visited yet requests it and appends what it
    discovers to the queue. *)
Lemma loop_body_order (self : scraper) (st : state) (url : string)
    (rest : list string) :
  urls_to_visit st = url :: rest →
  url ∉ visited_urls st →
  ∃ new,
    requested (trace (loop_body self st)) = requested (trace st) ++ [url] ∧
    urls_to_visit (loop_body self st) = rest ++ new.
Proof.
  intros Hpending Hvis.
  destruct (fetch (length (requested (trace st))) url) as [r|e] eqn:Hfetch.
  2: { rewrite (loop_body_fetch_failed self st url rest e) by done.
       exists []. simpl. by rewrite !requested_snoc, !app_nil_r. }
  destruct (process self url r
              (add_visited url (log (HttpGet url) (dequeue url rest st))))
    as [st1 res] eqn:Hprocess.
  rewrite (loop_body_processed self st st1 url rest r res) by done.
  apply process_spec in Hprocess
    as (_ & _ & Hreq & _ & added & _ & _ & _ & Hp).
  simpl in Hreq, Hp. rewrite !requested_snoc, app_nil_r in Hreq.
  exists (match res with Ok _ => added | Raise _ => [] end).
  destruct res as [[]|e]; simpl; by rewrite requested_snoc, app_nil_r.
Qed.

(** X1: throughout a crawl every visited URL and every pending URL is in
    [queued_urls], and [queued_urls] never loses a URL. *)
Theorem visited_and_pending_are_queued (self : scraper) (st : state)
    (n k : nat) :
  seed_state self = Ok st →
  visited_urls (run self n st) ⊆ queued_urls (run self n st) ∧
  (∀ u, u ∈ urls_to_visit (run self n st) → u ∈ queued_urls (run self n st)) ∧
  queued_urls (run self n st) ⊆ queued_urls (run self (n + k) st).
Proof.
  intros (seed & _ & _ & Hinv)%seed_state_invariant.
  pose proof (run_invariant self seed n st Hinv) as Hn.
  split_and!.
  - intros u Hu. by apply (inv_requested_queued _ _ _ Hn),
                          (inv_visited_requested _ _ _ Hn).
  - apply (inv_pending_queued _ _ _ Hn).
  - rewrite run_add. generalize (run self n st). clear.
    induction k as [|k IH]; intros st; simpl; [done |].
    destruct (continue self st) eqn:Hc; [| done].
    etrans; [| apply IH].
    apply continue_true in Hc as (url & rest & Hpending & _).
    destruct (loop_body_effect self st url rest Hpending)
      as (_ & _ & _ & added & _ & _ & _ & -> & _).
    set_solver.
Qed.



(** X3: URLs are requested in the order in which they were queued: the
    requested URLs followed by the pending ones only grow at the end. *)
Theorem requests_follow_queue_order (self : scraper) (st : state)
    (n k : nat) :
  seed_state self = Ok st →
  (requested (trace (run self n st)) ++ urls_to_visit (run self n st))
  `prefix_of`
  (requested (trace (run self (n + k) st))
   ++ urls_to_visit (run self (n + k) st)).
Proof.
  intros (seed & _ & _ & Hinv)%seed_state_invariant.
  apply (run_invariant self seed n) in Hinv.
  rewrite run_add. revert Hinv. generalize (run self n st). clear st.
  induction k as [|k IH]; intros st Hinv; simpl; [done |].
  destruct (continue self st) eqn:Hc; [| done].
  etrans; [| apply IH; by apply loop_body_invariant].
  apply continue_true in Hc as (url & rest & Hpending & _).
  destruct (loop_body_order self st url rest Hpending) as (new & -> & ->).
  { by eapply head_not_visited. }
  rewrite Hpending. exists new. by rewrite <- !app_assoc.
Qed.

(** X4: a URL whose request or processing failed is never visited later on
    (and, requests being made once, it is not requested again). *)
Theorem failed_url_is_never_visited (self : scraper) (st : state)
    (n k : nat) (u : string) :
  seed_state self = Ok st →
  u ∈ requested (trace (run self n st)) →
  u ∉ visited_urls (run self n st) →
  (u ∉ visited_urls (run self (n + k) st)) ∧
  NoDup (requested (trace (run self (n + k) st))).
Proof.
  intros (seed & _ & _ & Hinv)%seed_state_invariant Hreq Hvis.
  split; [| by destruct (run_invariant self seed (n + k) st Hinv)].
  apply (run_invariant self seed n) in Hinv.
  rewrite run_add. revert Hinv Hreq Hvis. generalize (run self n st). clear st.
  induction k as [|k IH]; intros st Hinv Hreq Hvis; simpl; [done |].
  destruct (continue self st) eqn:Hc; [| done].
  pose proof Hc as (url & rest & Hpending & _)%continue_true.
  destruct (loop_body_effect self st url rest Hpending)
    as (got & vis & _ & _ & Hreq' & Hvis' & _).
  apply IH; [by apply loop_body_invariant | |].
  - rewrite Hreq'. apply elem_of_app. by left.
  - rewrite Hvis'. destruct vis; [| done].
    intros [->%elem_of_singleton | ?]%elem_of_union; [| done].
    apply (inv_requested_left _ _ _ Hinv url Hreq). rewrite Hpending. by left.
Qed.

(** A URL that is queued, but neither pending nor requested, stays so. *)
Lemma stranded_forever (self : scraper) (u : string) (n : nat) :
  ∀ st,
    u ∈ queued_urls st →
    u ∉ urls_to_visit st →
    u ∉ requested (trace st) →
    (u ∉ urls_to_visit (run self n st)) ∧
    (u ∉ requested (trace (run self n st))).
Proof.
  induction n as [|n IH]; intros st Hq Hp Hr; simpl; [done |].
  destruct (continue self st) eqn:Hc; [| done].
  apply continue_true in Hc as (url & rest & Hpending & _).
  destruct (loop_body_effect self st url rest Hpending)
    as (got & vis & enq & added & Hreq & _ & _ & Hqueued & _ & Hadded & Hpend).
  rewrite Hpending in Hp. apply not_elem_of_cons in Hp as [Hne Hrest].
  apply IH.
  - rewrite Hqueued. by apply elem_of_union_r.
  - rewrite Hpend. intros [? | Hin]%elem_of_app; [done |].
    destruct enq; [| by apply elem_of_nil in Hin].
    by destruct (Hadded u Hin) as [? _].
  - rewrite Hreq. intros [? | Hin]%elem_of_app; [done |].
    destruct got; [| by apply elem_of_nil in Hin].
    by apply list_elem_of_singleton in Hin.
Qed.

(** X5: when extraction or link discovery raises, the links of the page
    that [extract_links] had already marked as queued are lost: they never
    reach the queue and are never requested. *)
Theorem links_queued_before_an_exception_are_lost (self : scraper)
    (st : state) (m n : nat) (e : exn) (u : string) :
  seed_state self = Ok st →
  outcome_of self (run self m st) = ProcessingFailed e →
  u ∈ queued_urls (loop_body self (run self m st)) →
  u ∉ queued_urls (run self m st) →
  (u ∉ urls_to_visit (run self n (loop_body self (run self m st)))) ∧
  (u ∉ requested (trace (run self n (loop_body self (run self m st))))).
Proof.
  intros (seed & _ & _ & Hinv)%seed_state_invariant.
  apply (run_invariant self seed m) in Hinv. revert Hinv.
  generalize (run self m st). clear st. intros st Hinv Hout Hq Hfresh.
  apply stranded_forever; [done | |]; unfold outcome_of in Hout;
    destruct (urls_to_visit st) as [|url rest] eqn:Hpending; try done;
    destruct (bool_decide_reflect (url ∈ visited_urls st)) as [|Hvis];
    try done;
    destruct (fetch (length (requested (trace st))) url) as [r|] eqn:Hfetch;
    try done;
    destruct (process self url r
                (add_visited url (log (HttpGet url) (dequeue url rest st))))
      as [st1 res] eqn:Hprocess;
    simpl in Hout; destruct res as [|e0]; try done;
    rewrite (loop_body_processed self st st1 url rest r (Raise e0)) by done;
    apply process_spec in Hprocess
      as (_ & _ & Hreq & _ & added & _ & _ & _ & Hp);
    simpl in Hreq, Hp |- *.
  - rewrite Hp, app_nil_r. intros Hin. apply Hfresh.
    apply (inv_pending_queued _ _ _ Hinv). rewrite Hpending. by right.
  - rewrite requested_snoc, app_nil_r, Hreq, !requested_snoc, app_nil_r.
    intros [Hin | ->%list_elem_of_singleton]%elem_of_app; apply Hfresh.
    + by apply (inv_requested_queued _ _ _ Hinv).
    + apply (inv_pending_queued _ _ _ Hinv). rewrite Hpending. by left.
Qed.
End CrawlOrder.

(** ** The documents gathered, and PDF resources *)

Lemma forallb_app (p : ascii → bool) (a b : string) :
  Py.forallb p (a +:+ b) = Py.forallb p a && Py.forallb p b.
Proof.
  induction a as [|x a IH]; simpl; [done |]. by rewrite IH, andb_assoc.
Qed.

Lemma lstrip_by_empty (p : ascii → bool) (s : string) :
  Py.lstrip_by p s = "" ↔ Py.forallb p s = true.
Proof.
  induction s as [|a s IH]; simpl; [done |].
  destruct (p a); simpl; [done |]. split; discriminate.
Qed.

Lemma rstrip_by_empty (p : ascii → bool) (s : string) :
  Py.rstrip_by p s = "" ↔ Py.forallb p s = true.
Proof.
  induction s as [|a s IH]; [done |]. rewrite rstrip_by_unfold. simpl.
  destruct (Py.rstrip_by p s) as [|c r].
  - destruct IH as [IH _]. rewrite IH by done. rewrite andb_true_r.
    destruct (p a); [done |]. split; discriminate.
  - split; [discriminate |]. intros [_ Hs]%andb_true_iff.
    by apply IH in Hs.
Qed.

(** ** Whitespace

    The whitespace characters are those of [Py.whitespace], one to three
    bytes each.  None is the start of another, and the bytes after the
    first of each are continuation bytes; so a string is read in one way
    only as whitespace characters and other bytes, and the reading of a
    string is not changed by what follows it, when that is empty or starts
    a character. *)

#[local] Arguments Py.leading_space : simpl never.

Lemma length_append (a b : string) :
  String.length (a +:+ b) = (String.length a + String.length b)%nat.
Proof. induction a as [|x a IH]; simpl; [done | by rewrite IH]. Qed.

Lemma whitespace_shape :
  forallb (λ w, match w with
                | "" => false
                | String a t =>
                    negb (Py.is_continuation a)
                    && Py.forallb Py.is_continuation t
                end) Py.whitespace = true.
Proof. by vm_compute. Qed.

Lemma whitespace_prefix_free :
  forallb (λ w, forallb (λ w', implb (Py.startswith w w') (String.eqb w w'))
                        Py.whitespace) Py.whitespace = true.
Proof. by vm_compute. Qed.

Lemma whitespace_bytes (w : string) :
  w ∈ Py.whitespace →
  ∃ a t, w = String a t ∧ Py.is_continuation a = false ∧
         Py.forallb Py.is_continuation t = true.
Proof.
  intros Hw%list_elem_of_In. pose proof whitespace_shape as H.
  rewrite forallb_forall in H. specialize (H w Hw).
  destruct w as [|a t]; [done |].
  apply andb_true_iff in H as [Ha%negb_true_iff Ht]. by exists a, t.
Qed.

Lemma startswith_app (w t : string) : Py.startswith w (w +:+ t) = true.
Proof. apply startswith_spec. by exists t. Qed.

Lemma prefixes_comparable (w w' r r' : string) :
  w +:+ r = w' +:+ r' →
  Py.startswith w w' = true ∨ Py.startswith w' w = true.
Proof.
  revert w'. induction w as [|a w IH]; intros w'; [by left |].
  destruct w' as [|b w']; [by right |].
  change (String a (w +:+ r) = String b (w' +:+ r') →
          Py.startswith (String a w) (String b w') = true
          ∨ Py.startswith (String b w') (String a w) = true).
  intros [= -> H]. rewrite !startswith_cons, Ascii.eqb_refl. simpl.
  by apply IH.
Qed.

Lemma leading_space_none (s : string) :
  Py.leading_space s = None ↔
  ∀ w, w ∈ Py.whitespace → Py.startswith w s = false.
Proof.
  unfold Py.leading_space. split.
  - intros Hf w Hw%list_elem_of_In. by apply (find_none _ _ Hf).
  - intros H. destruct (find _ _) as [w|] eqn:Hf; [| done].
    apply find_some in Hf as [Hw%list_elem_of_In Hs].
    by rewrite (H w Hw) in Hs.
Qed.

Lemma leading_space_some (s w : string) :
  Py.leading_space s = Some w ↔ w ∈ Py.whitespace ∧ ∃ r, s = w +:+ r.
Proof.
  split.
  - unfold Py.leading_space. intros [Hw Hs]%find_some.
    split; [by apply list_elem_of_In | by apply startswith_spec].
  - intros [Hw [r ->]]. destruct (Py.leading_space (w +:+ r)) as [w'|] eqn:Hf.
    + unfold Py.leading_space in Hf.
      apply find_some in Hf as [Hw' [r' Hs]%startswith_spec].
      pose proof whitespace_prefix_free as Hpf.
      rewrite forallb_forall in Hpf. apply list_elem_of_In in Hw.
      destruct (prefixes_comparable _ _ _ _ Hs) as [H | H].
      * specialize (Hpf w Hw). rewrite forallb_forall in Hpf.
        specialize (Hpf w' Hw'). rewrite H in Hpf.
        by apply String.eqb_eq in Hpf as ->.
      * specialize (Hpf w' Hw'). rewrite forallb_forall in Hpf.
        specialize (Hpf w Hw). rewrite H in Hpf.
        by apply String.eqb_eq in Hpf as ->.
    + rewrite leading_space_none in Hf. specialize (Hf w Hw).
      by rewrite startswith_app in Hf.
Qed.

Lemma app_eq_cases (s r w x : string) :
  s +:+ r = w +:+ x →
  (∃ y, s = w +:+ y) ∨ (∃ y, y ≠ "" ∧ w = s +:+ y ∧ r = y +:+ x).
Proof.
  revert w. induction s as [|a s IH]; intros [|b w].
  - intros _. left. by exists "".
  - intros H. right. exists (String b w). by split_and!.
  - intros _. left. by exists (String a s).
  - change (String a (s +:+ r) = String b (w +:+ x) →
            (∃ y, String a s = String b (w +:+ y)) ∨
            (∃ y, y ≠ "" ∧ String b w = String a (s +:+ y) ∧ r = y +:+ x)).
    intros [= -> H]. destruct (IH w H) as [[y ->] | (y & Hy & -> & ->)].
    + left. by exists y.
    + right. by exists y.
Qed.

(** What follows a string does not make it start with whitespace, unless
    it continues its last character. *)
Lemma leading_space_none_app (s r : string) :
  Py.leading_space s = None → s ≠ "" → Py.starts_character r = true →
  Py.leading_space (s +:+ r) = None.
Proof.
  intros Hs Hne Hr. apply leading_space_none. intros w Hw.
  destruct (Py.startswith w (s +:+ r)) eqn:H; [| done]. exfalso.
  apply startswith_spec in H as [x H].
  apply app_eq_cases in H as [[y ->] | (y & Hy & -> & ->)].
  - rewrite leading_space_none in Hs. specialize (Hs w Hw).
    by rewrite startswith_app in Hs.
  - destruct (whitespace_bytes _ Hw) as (a & t & Heq & _ & Ht).
    destruct s as [|a' s']; [done |].
    change (String a' (s' +:+ y) = String a t) in Heq.
    injection Heq as -> <-. rewrite forallb_app in Ht.
    apply andb_true_iff in Ht as [_ Ht]. destruct y as [|b y']; [done |].
    simpl in Ht. apply andb_true_iff in Ht as [Hb _].
    simpl in Hr. by rewrite Hb in Hr.
Qed.

Lemma leading_space_none_prefix (s r : string) :
  Py.leading_space (s +:+ r) = None → Py.leading_space s = None.
Proof.
  rewrite !leading_space_none. intros H w Hw. specialize (H w Hw).
  destruct (Py.startswith w s) eqn:E; [| done].
  apply startswith_spec in E as [t ->].
  by rewrite append_assoc, startswith_app in H.
Qed.

(** Strings are read from the left: a whitespace character and what
    follows it, or a byte and what follows it. *)
Lemma scan_ind (P : string → Prop) :
  P "" →
  (∀ w r, w ∈ Py.whitespace → P r → P (w +:+ r)) →
  (∀ a t, Py.leading_space (String a t) = None → P t → P (String a t)) →
  ∀ s, P s.
Proof.
  intros H0 Hw Hb s. remember (String.length s) as n eqn:Hn. revert s Hn.
  induction n as [n IH] using lt_wf_ind. intros s ->.
  destruct s as [|a t]; [done |].
  destruct (Py.leading_space (String a t)) as [w|] eqn:Hl.
  - apply leading_space_some in Hl as [Hin [r Hr]]. rewrite Hr.
    apply Hw; [done |]. apply (IH (String.length r)); [| done].
    rewrite Hr, length_append.
    destruct (whitespace_bytes _ Hin) as (? & ? & -> & _). simpl. lia.
  - apply Hb; [done |]. apply (IH (String.length t)); [simpl; lia | done].
Qed.

Lemma lstrip_space_go_skip (x r : string) :
  Py.lstrip_space_go (String.length x) (x +:+ r) = Py.lstrip_space r.
Proof. induction x as [|a x IH]; [done |]. exact IH. Qed.

Lemma lstrip_space_ws (w r : string) :
  w ∈ Py.whitespace → Py.lstrip_space (w +:+ r) = Py.lstrip_space r.
Proof.
  intros Hw. destruct (whitespace_bytes _ Hw) as (a & t & -> & _).
  unfold Py.lstrip_space at 1.
  change (String a t +:+ r) with (String a (t +:+ r)).
  cbn [Py.lstrip_space_go].
  assert (Py.leading_space (String a (t +:+ r)) = Some (String a t)) as ->.
  { apply leading_space_some. split; [done |]. by exists r. }
  cbn [String.length]. rewrite Nat.sub_1_r. cbn [Nat.pred].
  apply lstrip_space_go_skip.
Qed.

Lemma lstrip_space_none (s : string) :
  Py.leading_space s = None → Py.lstrip_space s = s.
Proof.
  destruct s as [|a t]; [done |]. unfold Py.lstrip_space.
  cbn [Py.lstrip_space_go]. by intros ->.
Qed.

Lemma blank_ws (w r : string) :
  w ∈ Py.whitespace → Py.blank (w +:+ r) = Py.blank r.
Proof. intros Hw. unfold Py.blank. by rewrite lstrip_space_ws. Qed.

Lemma blank_none (a : ascii) (t : string) :
  Py.leading_space (String a t) = None → Py.blank (String a t) = false.
Proof. intros H. unfold Py.blank. by rewrite lstrip_space_none. Qed.

Lemma blank_app (a b : string) :
  Py.blank a = true → Py.blank b = true → Py.blank (a +:+ b) = true.
Proof.
  intros Ha Hb. revert Ha. induction a as [| w r Hw IH | x t Hx _] using scan_ind.
  - done.
  - rewrite append_assoc, (blank_ws w r), (blank_ws w (r +:+ b)) by done.
    apply IH.
  - by rewrite blank_none.
Qed.

(** A string followed by the start of a character is blank only if it is
    itself. *)
Lemma blank_app_inv (a r : string) :
  Py.starts_character r = true →
  Py.blank (a +:+ r) = true → Py.blank a = true.
Proof.
  intros Hr. induction a as [| w a' Hw IH | x t Hx _] using scan_ind.
  - done.
  - rewrite append_assoc, (blank_ws w a'), (blank_ws w (a' +:+ r)) by done.
    apply IH.
  - intros H. exfalso.
    change (String x t +:+ r) with (String x (t +:+ r)) in H.
    rewrite blank_none in H; [done |].
    change (String x (t +:+ r)) with (String x t +:+ r).
    by apply leading_space_none_app.
Qed.

Lemma rstrip_space_decomp (s : string) :
  ∃ t, s = Py.rstrip_space s +:+ t ∧ Py.blank t = true.
Proof.
  induction s as [|a s (t & Hs & Ht)]; [by exists "" |].
  cbn [Py.rstrip_space]. destruct (Py.blank (String a s)) eqn:Hb.
  - by exists (String a s).
  - exists t. split; [| done].
    change (String a (Py.rstrip_space s) +:+ t)
      with (String a (Py.rstrip_space s +:+ t)). by rewrite <- Hs.
Qed.

(** [s.strip()] is empty exactly when [s] has whitespace only. *)
Lemma strip_empty (s : string) : Py.strip s = "" ↔ Py.blank s = true.
Proof.
  unfold Py.strip.
  change (Py.lstrip_space (Py.rstrip_space s) = "" ↔ Py.blank s = true).
  rewrite <- String.eqb_eq.
  change (Py.blank (Py.rstrip_space s) = true ↔ Py.blank s = true).
  split.
  - intros H. destruct (rstrip_space_decomp s) as (t & Hs & Ht).
    rewrite Hs. by apply blank_app.
  - intros H. destruct s as [|a s]; [done |].
    cbn [Py.rstrip_space]. by rewrite H.
Qed.

Lemma nonblank_blank (s : string) : nonblank s = negb (Py.blank s).
Proof.
  unfold nonblank. apply eq_true_iff_eq.
  by rewrite !negb_true_iff, String.eqb_neq, strip_empty, not_true_iff_false.
Qed.

(** What follows a string that is not blank does not make it blank, when
    it starts a character. *)
Lemma nonblank_app_l (a r : string) :
  Py.starts_character r = true → nonblank a = true → nonblank (a +:+ r) = true.
Proof.
  rewrite !nonblank_blank, !negb_true_iff. intros Hr Ha.
  apply not_true_iff_false. intros H%blank_app_inv; [congruence | done].
Qed.

(** A join of strings, the first of which is not blank, is not blank. *)
Lemma nonblank_join_head (c : ascii) (sep t : string) (ts : list string) :
  Py.is_continuation c = false →
  nonblank t = true → nonblank (Py.join (String c sep) (t :: ts)) = true.
Proof.
  intros Hc Ht. destruct ts as [|t' ts]; [done |].
  change (Py.join (String c sep) (t :: t' :: ts))
    with (t +:+ String c (sep +:+ Py.join (String c sep) (t' :: ts))).
  apply nonblank_app_l; [| done]. simpl. by rewrite Hc.
Qed.

Section Documents.
Context `{W : World}.

Lemma page_texts_all_ok (texts : list string) :
  page_texts (map Ok texts) = Ok (List.filter nonblank texts).
Proof.
  induction texts as [|t texts IH]; simpl; [done |].
  rewrite IH. simpl. by destruct (nonblank t).
Qed.

(** The record of either extractor carries the URL it was given. *)
Lemma extract_pdf_content_url (pdf_bytes url : string) :
  doc_url (fst (extract_pdf_content pdf_bytes url)) = url.
Proof.
  unfold extract_pdf_content, parse_pdf.
  destruct (PdfReader pdf_bytes) as [pdf|]; simpl; [| done].
  destruct (page_texts (pages pdf)); simpl; [| done].
  by destruct (metadata_title pdf).
Qed.

Lemma extract_content_url (s s' : soup) (url : string) (doc : document) :
  extract_content s url = Ok (doc, s') → doc_url doc = url.
Proof.
  unfold extract_content. destruct (find_main_content s) as [[c m]|]; [| done].
  by intros [= <- _].
Qed.

(** X6: a PDF that [pypdf] reads without error gives a record whose content
    is the pages with text, joined by blank lines; that content is blank,
    and the record dropped by [scrape], exactly when no page has text.  No
    warning is logged. *)
Theorem pdf_record_has_text_iff_a_page_has (pdf_bytes url : string)
    (pdf : pdf_reader) (texts : list string) (meta : option string) :
  PdfReader pdf_bytes = Ok pdf →
  pages pdf = map Ok texts →
  metadata_title pdf = Ok meta →
  doc_content (fst (extract_pdf_content pdf_bytes url)) =
    Py.join (String "010" (String "010" "")) (List.filter nonblank texts) ∧
  (nonblank (doc_content (fst (extract_pdf_content pdf_bytes url))) = true ↔
   ∃ t, t ∈ texts ∧ nonblank t = true) ∧
  snd (extract_pdf_content pdf_bytes url) = [].
Proof.
  intros Hpdf Hpages Hmeta. unfold extract_pdf_content, parse_pdf.
  rewrite Hpdf. simpl. rewrite Hpages, page_texts_all_ok. simpl.
  rewrite Hmeta. simpl. split_and!; [done | | done].
  destruct (List.filter nonblank texts) as [|t ts] eqn:Hf.
  - split; [done |]. intros (t & Ht%list_elem_of_In & Hnb).
    assert (In t (List.filter nonblank texts)) as Hin by by apply filter_In.
    by rewrite Hf in Hin.
  - assert (In t (List.filter nonblank texts)) as [Ht Hnb]%filter_In
      by (rewrite Hf; by left).
    split.
    + intros _. exists t. by rewrite list_elem_of_In.
    + intros _. by apply nonblank_join_head.
Qed.

Lemma process_pdf (self : scraper) (url : string) (r : response) (st : state) :
  is_pdf url r = true →
  process self url r st =
  (add_document (fst (extract_pdf_content (content r) url))
     (fold_left (λ s e, log e s) (snd (extract_pdf_content (content r) url)) st),
   Ok tt).
Proof.
  unfold is_pdf, process. intros ->.
  by destruct (extract_pdf_content (content r) url).
Qed.

Lemma page_texts_raises (before : list string) (e : exn)
    (after : list (result string)) :
  page_texts (map Ok before ++ Raise e :: after) = Raise e.
Proof. induction before as [|t before IH]; simpl; [done |]. by rewrite IH. Qed.

(** The [try] of [extract_pdf_content] raises when [pypdf] does: on opening
    the file, on extracting the text of a page, or on reading the title of
    the metadata. *)
Lemma parse_pdf_raises (pdf_bytes url : string) (e : exn) :
  (PdfReader pdf_bytes = Raise e ∨
   ∃ pdf, PdfReader pdf_bytes = Ok pdf ∧
     ((∃ before after, pages pdf = map Ok before ++ Raise e :: after) ∨
      (∃ texts, pages pdf = map Ok texts ∧ metadata_title pdf = Raise e))) →
  parse_pdf pdf_bytes url = Raise e.
Proof.
  unfold parse_pdf.
  intros [Hp | (pdf & Hp & [(before & after & Hps) | (texts & Hps & Hm)])];
    rewrite Hp; simpl; [done | |]; rewrite Hps.
  - by rewrite page_texts_raises.
  - rewrite page_texts_all_ok. simpl. by rewrite Hm.
Qed.

(** X7: a resource classified as PDF (by the suffix of its URL or by its
    content type, in any letter case) is never parsed as HTML: it is
    visited, the iteration completes with the delay, and nothing is added
    to [queued_urls] or to the queue.  When [pypdf] raises, be it on opening
    the file, on a page or on the metadata, no document is added and a PDF
    warning is logged; otherwise the record is added exactly when its
    content is not blank. *)
Theorem pdf_pages_add_no_links (self : scraper) (st : state) (url : string)
    (rest : list string) (r : response) :
  urls_to_visit st = url :: rest →
  url ∉ visited_urls st →
  fetch (length (requested (trace st))) url = Ok r →
  is_pdf url r = true →
  outcome_of self st = Completed ∧
  visited_urls (loop_body self st) = {[url]} ∪ visited_urls st ∧
  queued_urls (loop_body self st) = queued_urls st ∧
  urls_to_visit (loop_body self st) = rest ∧
  last (trace (loop_body self st)) = Some (Sleep 51) ∧
  (∀ e,
     (PdfReader (content r) = Raise e ∨
      ∃ pdf, PdfReader (content r) = Ok pdf ∧
        ((∃ before after, pages pdf = map Ok before ++ Raise e :: after) ∨
         (∃ texts, pages pdf = map Ok texts ∧
                   metadata_title pdf = Raise e))) →
     documents (loop_body self st) = documents st ∧
     WarnPdf url e ∈ trace (loop_body self st)) ∧
  (∀ doc,
     parse_pdf (content r) url = Ok doc →
     documents (loop_body self st)
     = if nonblank (doc_content doc) then documents st ++ [doc]
       else documents st).
Proof.
  intros Hpending Hvis Hfetch Hpdf.
  pose proof (process_pdf self url r
                (add_visited url (log (HttpGet url) (dequeue url rest st)))
                Hpdf) as Hprocess.
  rewrite (loop_body_processed self st _ url rest r _ Hpending Hvis Hfetch
             Hprocess).
  destruct (fold_left_log_trace
              (snd (extract_pdf_content (content r) url))
              (add_visited url (log (HttpGet url) (dequeue url rest st))))
    as (Hv & Hq & Hd & Hp & _ & Htr).
  split_and!.
  - unfold outcome_of. rewrite Hpending, bool_decide_eq_false_2, Hfetch by done.
    by rewrite Hprocess.
  - simpl. by rewrite Hv.
  - simpl. by rewrite Hq.
  - simpl. by rewrite Hp.
  - simpl. by rewrite last_snoc.
  - intros e He%(parse_pdf_raises _ url).
    rewrite (extract_pdf_content_malformed (content r) url e) by done.
    simpl. split; [done |]. rewrite !elem_of_app.
    left. right. by left.
  - intros doc Hdoc. unfold extract_pdf_content. rewrite Hdoc. done.
Qed.

(** What an iteration does to [documents]. *)
Lemma process_documents (self : scraper) (url : string) (r : response)
    (st st' : state) (res : result unit) :
  process self url r st = (st', res) →
  documents st' = documents st ∨
  ∃ d, documents st' = documents st ++ [d] ∧ doc_url d = url ∧
       nonblank (doc_content d) = true.
Proof.
  unfold process. destruct (_ || _).
  - pose proof (extract_pdf_content_url (content r) url) as Hurl.
    destruct (extract_pdf_content (content r) url) as [doc warnings].
    intros [= <- _]. simpl in *.
    destruct (fold_left_log_trace warnings st) as (_ & _ & -> & _).
    destruct (nonblank (doc_content doc)) eqn:Hnb; [right | by left].
    by exists doc.
  - destruct (extract_content _ url) as [[doc s']|e] eqn:Hcontent.
    2: { intros [= <- _]. by left. }
    apply extract_content_url in Hcontent.
    destruct (extract_links self s' url _ _) as [queued [links|e]];
      intros [= <- _]; simpl;
      (destruct (nonblank (doc_content doc)) eqn:Hnb; [right | by left]);
      by exists doc.
Qed.

Lemma loop_body_documents (self : scraper) (st : state) (url : string)
    (rest : list string) :
  urls_to_visit st = url :: rest →
  visited_urls st ⊆ visited_urls (loop_body self st) ∧
  (documents (loop_body self st) = documents st ∨
   (url ∉ visited_urls st) ∧ url ∈ visited_urls (loop_body self st) ∧
   ∃ d, documents (loop_body self st) = documents st ++ [d] ∧
        doc_url d = url ∧ nonblank (doc_content d) = true).
Proof.
  intros Hpending.
  destruct (decide (url ∈ visited_urls st)) as [Hvis|Hvis].
  { rewrite (loop_body_skip self st url rest) by done. split; [done | by left]. }
  destruct (fetch (length (requested (trace st))) url) as [r|e] eqn:Hfetch.
  2: { rewrite (loop_body_fetch_failed self st url rest e) by done.
       split; [done | by left]. }
  destruct (process self url r
              (add_visited url (log (HttpGet url) (dequeue url rest st))))
    as [st1 res] eqn:Hprocess.
  rewrite (loop_body_processed self st st1 url rest r res) by done.
  pose proof (process_documents _ _ _ _ _ _ Hprocess) as Hdocs.
  apply process_spec in Hprocess as (Hv & _).
  simpl in Hv, Hdocs.
  assert (visited_urls
            (match res with
             | Ok _ => log (Sleep 51)
                         (set_total_pages
                            (Z.min (max_pages self)
                               (Z.of_nat (length (urls_to_visit st1)))) st1)
             | Raise e => log (WarnScraping url e) st1
             end) = {[url]} ∪ visited_urls st) as Hv'
    by (by destruct res).
  assert (documents
            (match res with
             | Ok _ => log (Sleep 51)
                         (set_total_pages
                            (Z.min (max_pages self)
                               (Z.of_nat (length (urls_to_visit st1)))) st1)
             | Raise e => log (WarnScraping url e) st1
             end) = documents st1) as Hd'
    by (by destruct res).
  rewrite Hv', Hd'. split; [set_solver |].
  destruct Hdocs as [-> | Hdocs]; [by left | right].
  split_and!; [done | set_solver | done].
Qed.

Lemma loop_body_documents_ok (self : scraper) (st : state) :
  documents_ok st → documents_ok (loop_body self st).
Proof.
  intros [Hnd Hdocs].
  destruct (urls_to_visit st) as [|url rest] eqn:Hpending.
  { by rewrite loop_body_idle. }
  destruct (loop_body_documents self st url rest Hpending)
    as [Hmono [Hsame | (Hfresh & Hvis & d & Hd & Hurl & Hnb)]].
  - split; rewrite Hsame; [done |].
    intros d Hd. destruct (Hdocs d Hd). split; [set_solver | done].
  - split; rewrite Hd.
    + rewrite map_app. simpl. apply NoDup_app. split_and!; [done | |].
      * intros u (d' & -> & Hd')%list_elem_of_fmap Hu%list_elem_of_singleton.
        destruct (Hdocs d' Hd') as [Hin _]. rewrite Hu, Hurl in Hin. done.
      * apply NoDup_singleton.
    + intros d' [Hd' | ->%list_elem_of_singleton]%elem_of_app.
      * destruct (Hdocs d' Hd'). split; [set_solver | done].
      * by rewrite Hurl.
Qed.

Lemma run_documents_ok (self : scraper) (n : nat) (st : state) :
  documents_ok st → documents_ok (run self n st).
Proof.
  revert st. induction n as [|n IH]; intros st Hok; simpl; [done |].
  destruct (continue self st); [| done].
  by apply IH, loop_body_documents_ok.
Qed.

Lemma documents_count (st : state) :
  documents_ok st → (length (documents st) ≤ size (visited_urls st))%nat.
Proof.
  intros [Hnd Hdocs].
  rewrite <- (length_map doc_url), <- (size_list_to_set (C:=gset string)) by done.
  apply subseteq_size. intros u (d & -> & Hd)%elem_of_list_to_set%list_elem_of_fmap.
  by apply Hdocs.
Qed.

(** X8: the documents gathered by a crawl have pairwise distinct URLs, all
    visited, and none has blank content; so there are at most as many
    documents as visited URLs, hence at most [max(max_pages, 0)].  The same
    holds of the list that [scrape] returns. *)
Theorem documents_are_distinct_and_nonblank (self : scraper) (st : state)
    (n : nat) :
  seed_state self = Ok st →
  documents_ok (run self n st) ∧
  (length (documents (run self n st))
   ≤ size (visited_urls (run self n st)))%nat ∧
  Z.of_nat (length (documents (run self n st))) ≤ Z.max 0 (max_pages self) ∧
  ∀ fuel docs,
    scrape self fuel = Some (Ok docs) →
    NoDup (map doc_url docs) ∧
    Forall (λ d, nonblank (doc_content d) = true) docs ∧
    Z.of_nat (length docs) ≤ Z.max 0 (max_pages self).
Proof.
  intros Hseed.
  destruct (seed_state_invariant self st Hseed) as (seed & _ & _ & Hinv).
  assert (documents_ok st) as Hok.
  { apply seed_state_spec in Hseed as (seed' & _ & ->).
    split; simpl; [constructor | by intros d ?%elem_of_nil]. }
  assert (∀ k, documents_ok (run self k st) ∧
               (length (documents (run self k st))
                ≤ size (visited_urls (run self k st)))%nat ∧
               Z.of_nat (length (documents (run self k st)))
               ≤ Z.max 0 (max_pages self)) as Hall.
  { intros k. pose proof (run_documents_ok self k st Hok) as Hk.
    pose proof (documents_count _ Hk) as Hcount.
    pose proof (inv_budget _ _ _ (run_invariant self seed k st Hinv)).
    split_and!; [done | done | lia]. }
  destruct (Hall n) as (? & ? & ?). split_and!; [done..|].
  intros fuel docs. unfold scrape. rewrite Hseed.
  destruct (scrape_loop self fuel st) as [st'|] eqn:Hloop; [| done].
  intros [= <-]. apply scrape_loop_run in Hloop as [-> _].
  destruct (Hall fuel) as ([Hnd Hdocs] & _ & Hlen).
  split_and!; [done | | done].
  apply Forall_forall. intros d Hd. by apply Hdocs.
Qed.
End Documents.

(** ** More on normalization, link extraction and the seed *)

Lemma split_first_cons (c a : ascii) (s : string) :
  Py.split_first c (String a s) =
  if Ascii.eqb a c then "" else String a (Py.split_first c s).
Proof.
  unfold Py.split_first. simpl. destruct (Ascii.eqb a c); [done |].
  by destruct (split_hd c s) as (h & r & ->).
Qed.

Lemma split_first_app_sep (c : ascii) (w rest : string) :
  Py.in_chars c w = false → Py.split_first c (w +:+ String c rest) = w.
Proof.
  induction w as [|a w IH]; simpl.
  - intros _. by rewrite split_first_cons, Ascii.eqb_refl.
  - intros [Hca Hw]%orb_false_iff.
    by rewrite split_first_cons, Ascii.eqb_sym, Hca, IH.
Qed.

Lemma rstrip_by_app_strippable (p : ascii → bool) (s t : string) :
  Py.forallb p t = true → Py.rstrip_by p (s +:+ t) = Py.rstrip_by p s.
Proof.
  intros Ht. induction s as [|a s IH].
  - simpl. by apply rstrip_by_empty.
  - change (String a s +:+ t) with (String a (s +:+ t)).
    by rewrite !rstrip_by_unfold, IH.
Qed.

Lemma forallb_replicate_slash (k : nat) :
  Py.forallb (λ a, Py.in_chars a "/") (Py.replicate k "/") = true.
Proof.
  induction k as [|k IH]; [done |].
  cbn [Py.replicate Py.forallb Py.in_chars]. by rewrite Ascii.eqb_refl.
Qed.

Section MoreUrls.
Context `{W : World}.

(** X9: the fragment of a URL does not matter to [normalize_url], and no
    normalized URL has one. *)
Theorem normalize_url_ignores_fragment (w frag : string) :
  Py.in_chars "#" w = false →
  normalize_url (w +:+ String "#" frag) = normalize_url w ∧
  ∀ v, normalize_url w = Ok v → Py.in_chars "#" v = false.
Proof.
  intros Hw. split.
  - unfold normalize_url. by rewrite split_first_app_sep, split_first_fixed.
  - intros v. rewrite normalize_url_no_hash by done.
    destruct (Urllib.urlparse w) as [p|]; simpl; [| done].
    destruct (negb _); intros [= <-]; [by apply rstrip_no_hash | done].
Qed.

(** X10: trailing slashes do not matter to [normalize_url] either, as long
    as neither URL has the root path [/]. *)
Theorem normalize_url_ignores_trailing_slashes (u : string) (k : nat)
    (p p' : Urllib.ParseResult) :
  Py.in_chars "#" u = false →
  Urllib.urlparse u = Ok p →
  Urllib.path p ≠ "/" →
  Urllib.urlparse (u +:+ Py.replicate k "/") = Ok p' →
  Urllib.path p' ≠ "/" →
  normalize_url (u +:+ Py.replicate k "/") = normalize_url u ∧
  normalize_url u = Ok (Py.rstrip "/" u).
Proof.
  intros Hu Hp Hroot Hp' Hroot'.
  assert (Py.in_chars "#" (u +:+ Py.replicate k "/") = false) as Hu'.
  { rewrite in_chars_app, Hu. simpl. clear. induction k; [done |]. done. }
  rewrite !normalize_url_no_hash, Hp, Hp' by done. simpl.
  apply String.eqb_neq in Hroot, Hroot'. rewrite Hroot, Hroot'. simpl.
  unfold Py.rstrip.
  by rewrite rstrip_by_app_strippable by apply forallb_replicate_slash.
Qed.


Lemma is_valid_url_defined (self : scraper) (visited queued : gset string)
    (url : string) :
  within_scope self url → ∃ b, is_valid_url self visited queued url = Ok b.
Proof.
  intros (parsed & Hparse & _). unfold is_valid_url. rewrite Hparse. simpl.
  repeat (destruct (_ : bool); simpl; eauto).
Qed.


End MoreUrls.

(** ** [urllib.parse]: the fragment does not change the netloc *)

Lemma lstrip_by_split_first (p : ascii → bool) (s : string) :
  p "#"%char = false →
  Py.lstrip_by p (Py.split_first "#" s) = Py.split_first "#" (Py.lstrip_by p s).
Proof.
  intros Hp. induction s as [|a s IH]; [done |].
  rewrite split_first_cons. destruct (Ascii.eqb a "#") eqn:Ha.
  - apply Ascii.eqb_eq in Ha as ->. simpl. rewrite Hp.
    by rewrite split_first_cons, Ascii.eqb_refl.
  - simpl. destruct (p a); [done |]. by rewrite split_first_cons, Ha.
Qed.

Lemma remove_chars_split_first (chars s : string) :
  Py.in_chars "#" chars = false →
  Py.remove_chars chars (Py.split_first "#" s)
  = Py.split_first "#" (Py.remove_chars chars s).
Proof.
  intros Hc. induction s as [|a s IH]; [done |].
  rewrite split_first_cons. destruct (Ascii.eqb a "#") eqn:Ha.
  - apply Ascii.eqb_eq in Ha as ->. simpl. rewrite Hc.
    by rewrite split_first_cons, Ascii.eqb_refl.
  - simpl. destruct (Py.in_chars a chars); [done |].
    by rewrite split_first_cons, Ha, IH.
Qed.

Lemma cut_split_first (s : string) :
  Py.cut ":" (Py.split_first "#" s) =
  match Py.cut ":" s with
  | Some (pre, rest) =>
      if Py.in_chars "#" pre then None else Some (pre, Py.split_first "#" rest)
  | None => None
  end.
Proof.
  induction s as [|a s IH]; [done |].
  rewrite split_first_cons. destruct (Ascii.eqb a "#") eqn:Ha.
  - apply Ascii.eqb_eq in Ha as ->. simpl.
    change (Ascii.eqb "#" ":") with false. cbv iota.
    destruct (Py.cut ":" s) as [[l r]|]; [| done].
    cbn [Py.in_chars]. by rewrite Ascii.eqb_refl.
  - simpl. destruct (Ascii.eqb a ":"); [done |]. rewrite IH.
    destruct (Py.cut ":" s) as [[l r]|]; [| done].
    simpl. rewrite Ascii.eqb_sym, Ha. simpl.
    by destruct (Py.in_chars "#" l).
Qed.

Lemma scheme_char_no_hash (pre : string) :
  Py.in_chars "#" pre = true → Py.forallb Urllib.scheme_char pre = false.
Proof.
  induction pre as [|a pre IH]; [done |]. simpl.
  destruct (Ascii.eqb "#" a) eqn:Ha.
  - apply Ascii.eqb_eq in Ha as <-. done.
  - simpl. intros ->%IH. apply andb_false_r.
Qed.

Lemma split_scheme_split_first (s : string) :
  Urllib.split_scheme (Py.split_first "#" s) =
  (fst (Urllib.split_scheme s), Py.split_first "#" (snd (Urllib.split_scheme s))).
Proof.
  unfold Urllib.split_scheme. rewrite cut_split_first.
  destruct (Py.cut ":" s) as [[pre rest]|]; [| done].
  destruct (Py.in_chars "#" pre) eqn:Hpre.
  - destruct pre as [|a pre]; [done |].
    by rewrite (scheme_char_no_hash _ Hpre), andb_false_r.
  - destruct pre as [|a pre]; [done |].
    by destruct (Py.is_ascii_alpha a && _).
Qed.

Lemma span_split_first_fst (p : ascii → bool) (s : string) :
  p "#"%char = false →
  fst (Py.span p (Py.split_first "#" s)) = fst (Py.span p s).
Proof.
  intros Hp. induction s as [|a s IH]; [done |].
  rewrite split_first_cons. destruct (Ascii.eqb a "#") eqn:Ha.
  - apply Ascii.eqb_eq in Ha as ->. simpl. by rewrite Hp.
  - simpl. destruct (p a); [| done].
    destruct (Py.span p (Py.split_first "#" s)), (Py.span p s). simpl in *.
    by rewrite IH.
Qed.

Lemma netloc_step_split_first (r : string) :
  fst (if Py.startswith "//" (Py.split_first "#" r)
       then Urllib.splitnetloc (Py.split_first "#" r)
       else ("", Py.split_first "#" r)) =
  fst (if Py.startswith "//" r then Urllib.splitnetloc r else ("", r)).
Proof.
  destruct r as [|a [|b r]].
  - done.
  - rewrite split_first_cons. destruct (Ascii.eqb a "#"); [| done].
    simpl. by destruct (Ascii.eqb "/" a && false).
  - destruct (Ascii.eqb "/" a) eqn:Ha.
    + apply Ascii.eqb_eq in Ha as <-.
      destruct (Ascii.eqb "/" b) eqn:Hb.
      * apply Ascii.eqb_eq in Hb as <-.
        assert (Py.split_first "#" (String "/" (String "/" r))
                = String "/" (String "/" (Py.split_first "#" r))) as ->.
        { by rewrite !split_first_cons. }
        change (Py.startswith "//" (String "/" (String "/" ?t))) with true.
        cbv iota. unfold Urllib.splitnetloc. simpl Py.drop.
        by apply span_split_first_fst.
      * assert (∀ t, Py.startswith "//" (String "/" (String b t)) = false)
          as Hno.
        { intros t. rewrite !startswith_cons, Hb. done. }
        rewrite Hno, split_first_cons.
        change (Ascii.eqb "/" "#") with false. cbv iota.
        rewrite split_first_cons. destruct (Ascii.eqb b "#"); [done |].
        by rewrite Hno.
    + assert (∀ t, Py.startswith "//" (String a t) = false) as Hno.
      { intros t. by rewrite startswith_cons, Ha. }
      rewrite Hno, split_first_cons. destruct (Ascii.eqb a "#"); [done |].
      by rewrite Hno.
Qed.

Lemma netloc_of_split_first (s : string) :
  Urllib.netloc_of (Py.split_first "#" s) = Urllib.netloc_of s.
Proof.
  unfold Urllib.netloc_of, Urllib.split_authority.
  rewrite lstrip_by_split_first, remove_chars_split_first,
    split_scheme_split_first by done.
  destruct (Urllib.split_scheme _) as [sch r]. simpl fst at 2. simpl snd at 2.
  pose proof (netloc_step_split_first r) as H.
  destruct (if Py.startswith "//" (Py.split_first "#" r) then _ else _)
    as [nl1 r1].
  destruct (if Py.startswith "//" r then _ else _) as [nl2 r2]. done.
Qed.

Section Seed.
Context `{W : World}.

(** [normalize_url] raises on no URL that [urlparse] accepts, and keeps the
    netloc. *)
Lemma normalize_url_keeps_netloc (u : string) (p : Urllib.ParseResult) :
  Urllib.urlparse u = Ok p →
  ∃ v p', normalize_url u = Ok v ∧ Urllib.urlparse v = Ok p' ∧
          Urllib.netloc p' = Urllib.netloc p.
Proof.
  intros Hp. pose proof (urlparse_cases u) as Hu.
  destruct (Urllib.netloc_ok (Urllib.netloc_of u)) eqn:Hok; [| congruence].
  destruct Hu as (p0 & Hp0 & Hnl). rewrite Hp in Hp0. injection Hp0 as <-.
  set (w := Py.split_first "#" u).
  pose proof (urlparse_cases w) as Hw. unfold w in Hw.
  rewrite netloc_of_split_first, Hok in Hw. destruct Hw as (pw & Hpw & Hnlw).
  unfold normalize_url. subst w. rewrite Hpw. simpl.
  set (w := Py.split_first "#" u).
  destruct (negb _).
  - pose proof (urlparse_cases (Py.rstrip "/" w)) as Hr. unfold w in Hr.
    rewrite netloc_of_rstrip, netloc_of_split_first, Hok in Hr.
    destruct Hr as (pr & Hpr & Hnlr). exists (Py.rstrip "/" w), pr.
    split_and!; [done | done |]. by rewrite Hnlr, Hnl.
  - exists w, pw. split_and!; [done | done |]. by rewrite Hnlw, Hnl.
Qed.

(** X12: once [__init__] has returned, [scrape] returns a list: it does
    not raise, and its loop is left after finitely many iterations,
    whatever the pages link to.  The crawl starts from one URL, whose
    netloc is the [domain] of the scraper. *)
Theorem scrape_returns_after_init (base : string) (maxp : Z)
    (self : scraper) :
  init base maxp = Ok self →
  ∃ seed parsed st,
    seed_state self = Ok st ∧
    urls_to_visit st = [seed] ∧
    Urllib.urlparse seed = Ok parsed ∧
    Urllib.netloc parsed = domain self ∧
    ∃ fuel st',
      scrape_loop self fuel st = Some st' ∧
      scrape self fuel = Some (Ok (documents st')) ∧
      ∀ fuel', (fuel ≤ fuel')%nat →
               scrape self fuel' = Some (Ok (documents st')).
Proof.
  intros Hinit. pose proof Hinit as (pb & Hpb & Hdom & _)%init_spec.
  unfold init in Hinit. rewrite Hpb in Hinit. simpl in Hinit.
  injection Hinit as <-. simpl in *.
  pose proof (urlparse_cases base) as Hb.
  pose proof (urlparse_cases (Py.rstrip "/" base)) as Hr.
  rewrite netloc_of_rstrip in Hr.
  destruct (Urllib.netloc_ok (Urllib.netloc_of base)); [| congruence].
  destruct Hb as (pb' & Hpb' & Hnl). rewrite Hpb in Hpb'. injection Hpb' as <-.
  destruct Hr as (pr & Hpr & Hnlr).
  destruct (normalize_url_keeps_netloc _ _ Hpr) as (seed & ps & Hn & Hps & Hnls).
  eexists seed, ps, _. unfold seed_state at 1. simpl. rewrite Hn. simpl.
  split_and!; [done | done | done | by rewrite Hnls, Hnlr, Hnl |].
  match goal with |- context [scrape_loop ?s _ ?st] =>
    destruct (scrape_loop_always_terminates s st) as (fuel & st' & Hloop) end.
  exists fuel, st'. split; [done |].
  assert (∀ fuel', (fuel ≤ fuel')%nat →
    scrape_loop {| base_url := Py.rstrip "/" base;
                   base_path := Py.rstrip "/" (Urllib.path pb);
                   max_pages := maxp; domain := Urllib.netloc pb |} fuel'
      {| visited_urls := ∅; queued_urls := {[seed]}; documents := [];
         urls_to_visit := [seed]; total_pages := Z.min maxp 1; trace := [] |}
    = Some st') as Hmono.
  { revert Hloop. generalize ({| visited_urls := ∅; queued_urls := {[seed]};
      documents := []; urls_to_visit := [seed]; total_pages := Z.min maxp 1;
      trace := [] |}).
    induction fuel as [|fuel IH]; intros s Hloop fuel' Hle.
    - simpl in Hloop. destruct (continue _ s) eqn:Hc; [done |].
      destruct fuel'; simpl; by rewrite Hc.
    - simpl in Hloop. destruct (continue _ s) eqn:Hc.
      + destruct fuel' as [|fuel']; [lia |]. simpl. rewrite Hc.
        apply IH; [done | lia].
      + destruct fuel'; simpl; by rewrite Hc. }
  split.
  - unfold scrape, seed_state. simpl. rewrite Hn. simpl.
    by rewrite (Hmono fuel) by lia.
  - intros fuel' Hle. unfold scrape, seed_state. simpl. rewrite Hn. simpl.
    by rewrite (Hmono fuel' Hle).
Qed.
End Seed.

(** * The embedder *)

(** ** [range], slices and [str.split] *)

Lemma range_from_zero (n step : Z) :
  0 ≤ n → 0 < step →
  Builtins.range 0 n step =
  Ok (map (λ k : nat, Z.of_nat k * step)
          (seq 0 (Z.to_nat ((n + step - 1) / step)))).
Proof.
  intros Hn Hstep. unfold Builtins.range, Builtins.range_length.
  destruct (Z.eqb_spec step 0) as [-> | _]; [lia |].
  destruct (Z.ltb_spec 0 step) as [_ | ?]; [| lia].
  f_equal. destruct (Z.leb_spec n 0) as [Hle | Hlt].
  - assert (n = 0) as -> by lia.
    rewrite Z.div_small by lia. done.
  - replace (n + step - 1) with (n - 0 - 1 + 1 * step) by lia.
    rewrite Z.div_add by lia. done.
Qed.

Lemma range_backwards (n step : Z) :
  0 ≤ n → step < 0 → Builtins.range 0 n step = Ok [].
Proof.
  intros Hn Hstep. unfold Builtins.range, Builtins.range_length.
  destruct (Z.eqb_spec step 0) as [-> | _]; [lia |].
  destruct (Z.ltb_spec 0 step) as [? | _]; [lia |].
  destruct (Z.leb_spec 0 n) as [_ | ?]; [done | lia].
Qed.

(** The number of elements of [range(0, n, step)], and where they lie. *)
Lemma range_count (n step : Z) (k : nat) :
  0 ≤ n → 0 < step →
  (k < Z.to_nat ((n + step - 1) / step))%nat ↔ Z.of_nat k * step < n.
Proof.
  intros Hn Hstep.
  pose proof (Z.div_mod (n + step - 1) step ltac:(lia)) as Hdm.
  pose proof (Z.mod_pos_bound (n + step - 1) step Hstep) as Hr.
  assert (0 ≤ (n + step - 1) / step) by (apply Z.div_pos; lia).
  split; intros Hk.
  - assert (Z.of_nat k + 1 ≤ (n + step - 1) / step) by lia. nia.
  - assert (Z.of_nat k < (n + step - 1) / step); [nia | lia].
Qed.

Lemma slice_take_drop {A : Type} (l : list A) (lo hi : Z) :
  0 ≤ lo ≤ hi →
  Builtins.slice l lo hi = take (Z.to_nat (hi - lo)) (drop (Z.to_nat lo) l).
Proof.
  intros Hb. unfold Builtins.slice, Builtins.slice_index.
  destruct (Z.ltb_spec lo 0); [lia |]. destruct (Z.ltb_spec hi 0); [lia |].
  destruct (Z.le_gt_cases lo (Z.of_nat (length l))) as [Hlo | Hlo],
    (Z.le_gt_cases hi (Z.of_nat (length l))) as [Hhi | Hhi].
  - by rewrite !Z.min_l by lia.
  - rewrite (Z.min_l lo), (Z.min_r hi) by lia.
    rewrite !take_ge; [done | |]; rewrite length_drop; lia.
  - lia.
  - rewrite !Z.min_r by lia. rewrite Z.sub_diag. simpl.
    rewrite (drop_ge l (Z.to_nat lo)) by lia. by rewrite take_nil.
Qed.

Lemma chunk_fold (g : Z → string) (starts : list Z) (acc : list string) :
  fold_left
    (λ chunks i, let chunk := g i in
                 if negb (String.eqb chunk "") then chunks ++ [chunk]
                 else chunks)
    starts acc
  = acc ++ List.filter (λ c, negb (String.eqb c "")) (map g starts).
Proof.
  revert acc. induction starts as [|i starts IH]; intros acc; simpl.
  - by rewrite app_nil_r.
  - rewrite IH. destruct (negb (String.eqb (g i) "")); [| done].
    by rewrite <- app_assoc.
Qed.

Lemma chunk_text_unfold (text : string) (chunk_size overlap : Z) :
  chunk_text text chunk_size overlap =
  (starts <- Builtins.range 0 (Z.of_nat (length (Builtins.str_split text)))
                           (chunk_size - overlap) ;;;
   Ok (List.filter (λ c, negb (String.eqb c ""))
         (map (λ i, Py.join " " (Builtins.slice (Builtins.str_split text) i
                                                (i + chunk_size)))
              starts))).
Proof.
  unfold chunk_text. destruct (Builtins.range _ _ _) as [starts|e]; [| done].
  simpl. by rewrite chunk_fold.
Qed.

(** *** [str.split()] *)

Lemma split_go_skip (x cur r : string) :
  Builtins.split_go (String.length x) cur (x +:+ r)
  = Builtins.split_go 0 cur r.
Proof. induction x as [|a x IH]; [done |]. exact IH. Qed.

Lemma split_go_ws (w cur r : string) :
  w ∈ Py.whitespace →
  Builtins.split_go 0 cur (w +:+ r)
  = Builtins.flush cur ++ Builtins.split_go 0 "" r.
Proof.
  intros Hw. destruct (whitespace_bytes _ Hw) as (a & t & -> & _).
  change (String a t +:+ r) with (String a (t +:+ r)).
  cbn [Builtins.split_go].
  assert (Py.leading_space (String a (t +:+ r)) = Some (String a t)) as ->.
  { apply leading_space_some. split; [done |]. by exists r. }
  cbn [String.length]. rewrite Nat.sub_1_r. cbn [Nat.pred].
  by rewrite split_go_skip.
Qed.

Lemma split_go_byte (a : ascii) (cur t : string) :
  Py.leading_space (String a t) = None →
  Builtins.split_go 0 cur (String a t)
  = Builtins.split_go 0 (cur +:+ String a "") t.
Proof. intros H. cbn [Builtins.split_go]. by rewrite H. Qed.

Lemma snoc_not_empty (cur : string) (a : ascii) : cur +:+ String a "" ≠ "".
Proof. by destruct cur. Qed.

Lemma flush_nil (cur : string) : Builtins.flush cur = [] ↔ cur = "".
Proof. unfold Builtins.flush. by destruct (String.eqb_spec cur ""). Qed.

(** There are no words exactly in a blank string. *)
Lemma split_go_nil (s cur : string) :
  Builtins.split_go 0 cur s = [] ↔ cur = "" ∧ Py.blank s = true.
Proof.
  revert cur. induction s as [| w r Hw IH | a t Ha IH] using scan_ind;
    intros cur.
  - cbn [Builtins.split_go]. rewrite flush_nil. naive_solver.
  - rewrite split_go_ws, blank_ws by done.
    rewrite app_nil, flush_nil, IH. naive_solver.
  - rewrite split_go_byte, blank_none, IH by done.
    pose proof (snoc_not_empty cur a). naive_solver.
Qed.

Lemma str_split_nil (s : string) :
  Builtins.str_split s = [] ↔ nonblank s = false.
Proof.
  unfold Builtins.str_split. rewrite split_go_nil, nonblank_blank.
  rewrite negb_false_iff. naive_solver.
Qed.

(** *** Words *)

Lemma no_space_spec (w : string) :
  Builtins.no_space w = true ↔
  ∀ v u, w = v +:+ u → u ≠ "" → Py.leading_space u = None.
Proof.
  induction w as [|a w IH].
  - split; [| done]. intros _ [|??] [|??]; done.
  - cbn [Builtins.no_space].
    destruct (Py.leading_space (String a w)) as [x|] eqn:Hl.
    + split; [done |]. intros H.
      assert (Py.leading_space (String a w) = None) as Hn
        by by apply (H "" (String a w)).
      congruence.
    + rewrite IH. split.
      * intros H [|b v] u.
        -- simpl. by intros <- _.
        -- change (String a w = String b (v +:+ u) → u ≠ "" →
                   Py.leading_space u = None).
           intros [= _ ->]. by apply (H v u).
      * intros H v u -> Hu. apply (H (String a v)); done.
Qed.

Lemma is_word_spec (w : string) :
  Builtins.is_word w = true ↔ w ≠ "" ∧ Builtins.no_space w = true.
Proof.
  unfold Builtins.is_word.
  by rewrite andb_true_iff, negb_true_iff, String.eqb_neq.
Qed.


Lemma app_snoc_cases (cur v u : string) (a : ascii) :
  cur +:+ String a "" = v +:+ u → u ≠ "" →
  ∃ u', u = u' +:+ String a "" ∧ cur = v +:+ u'.
Proof.
  intros H Hu. destruct (string_last_cases u) as [-> | (u' & c & ->)];
    [done |].
  rewrite <- append_assoc in H. apply string_snoc_inv in H as [-> ->].
  by exists u'.
Qed.

(** The words that [split_go] gives, when no whitespace starts in the word
    being read, whatever follows it. *)
Lemma split_go_words (s cur : string) :
  (∀ v u, cur = v +:+ u → u ≠ "" → Py.leading_space (u +:+ s) = None) →
  Forall (λ w, Builtins.is_word w = true) (Builtins.split_go 0 cur s).
Proof.
  assert (∀ cur s,
    (∀ v u, cur = v +:+ u → u ≠ "" → Py.leading_space (u +:+ s) = None) →
    Forall (λ w, Builtins.is_word w = true) (Builtins.flush cur)) as Hflush.
  { intros c x Hc. unfold Builtins.flush.
    destruct (String.eqb_spec c "") as [-> | Hne]; [done |].
    apply Forall_singleton, is_word_spec. split; [done |].
    apply no_space_spec. intros v u Hv Hu.
    by apply (leading_space_none_prefix u x), (Hc v). }
  revert cur. induction s as [| w r Hw IH | a t Ha IH] using scan_ind;
    intros cur Hcur.
  - cbn [Builtins.split_go]. by apply (Hflush cur "").
  - rewrite split_go_ws by done. apply Forall_app. split.
    + by apply (Hflush cur (w +:+ r)).
    + apply IH. intros [|??] [|??]; done.
  - rewrite split_go_byte by done. apply IH. intros v u Hv Hu.
    apply app_snoc_cases in Hv as (u' & -> & ->); [| done].
    rewrite append_assoc. destruct u' as [|b u'].
    + done.
    + by apply (Hcur v (String b u')).
Qed.

Lemma str_split_words (s : string) :
  Forall (λ w, Builtins.is_word w = true) (Builtins.str_split s).
Proof. apply split_go_words. intros [|??] [|??]; done. Qed.



Lemma join_words_not_empty (ws : list string) :
  Forall (λ w, Builtins.is_word w = true) ws →
  ws ≠ [] → Py.join " " ws ≠ "".
Proof.
  destruct ws as [|w [|w' ws]]; [done | |].
  - intros [Hne _]%Forall_singleton%is_word_spec _. done.
  - intros [[Hne _]%is_word_spec _]%Forall_cons _.
    change (Py.join " " (w :: w' :: ws))
      with (w +:+ String " " (Py.join " " (w' :: ws))).
    by destruct w.
Qed.

Lemma words_sublist (W : list string) (c a : nat) :
  Forall (λ w, Builtins.is_word w = true) W →
  Forall (λ w, Builtins.is_word w = true) (take c (drop a W)).
Proof. intros HW. by apply Forall_take, Forall_drop. Qed.


(** ** [chunk_text] *)

Lemma flat_map_map {A B C : Type} (f : B → list C) (g : A → B) (l : list A) :
  flat_map f (map g l) = flat_map (λ a, f (g a)) l.
Proof. induction l as [|a l IH]; simpl; [done |]. by rewrite IH. Qed.

Lemma take_drop_not_nil {A : Type} (W : list A) (c a : nat) :
  (0 < c)%nat → (a < length W)%nat → take c (drop a W) ≠ [].
Proof.
  intros Hc Ha Heq. apply (f_equal length) in Heq.
  rewrite length_take, length_drop in Heq. simpl in Heq. lia.
Qed.

(** With [0 ≤ overlap < chunk_size] the chunk that starts at the word
    [k * (chunk_size - overlap)] is kept, for every start of the range. *)
Lemma chunks_kept (W : list string) (cs ov : Z) (ks : list nat) :
  0 ≤ ov < cs →
  Forall (λ w, Builtins.is_word w = true) W →
  Forall (λ k : nat, Z.of_nat k * (cs - ov) < Z.of_nat (length W)) ks →
  List.filter (λ c, negb (String.eqb c ""))
    (map (λ i, Py.join " " (Builtins.slice W i (i + cs)))
         (map (λ k : nat, Z.of_nat k * (cs - ov)) ks))
  = map (λ k : nat, Py.join " " (take (Z.to_nat cs)
                                  (drop (k * Z.to_nat (cs - ov)) W))) ks.
Proof.
  intros Hb HW. induction ks as [|k ks IH]; intros Hks; [done |].
  apply Forall_cons in Hks as [Hk Hks]. simpl.
  rewrite slice_take_drop by nia.
  replace (Z.to_nat (Z.of_nat k * (cs - ov) + cs - Z.of_nat k * (cs - ov)))
    with (Z.to_nat cs) by lia.
  replace (Z.to_nat (Z.of_nat k * (cs - ov)))
    with (k * Z.to_nat (cs - ov))%nat by nia.
  destruct (String.eqb_spec
    (Py.join " " (take (Z.to_nat cs) (drop (k * Z.to_nat (cs - ov)) W))) "")
    as [Heq | _].
  - exfalso. revert Heq. apply join_words_not_empty; [by apply words_sublist |].
    apply take_drop_not_nil; nia.
  - simpl. by rewrite IH.
Qed.

Lemma chunk_text_chunks (text : string) (cs ov : Z) :
  0 ≤ ov < cs →
  chunk_text text cs ov =
  Ok (map (λ k : nat,
             Py.join " " (take (Z.to_nat cs)
                            (drop (k * Z.to_nat (cs - ov))
                               (Builtins.str_split text))))
          (seq 0 (Z.to_nat ((Z.of_nat (length (Builtins.str_split text))
                             + (cs - ov) - 1) / (cs - ov))))).
Proof.
  intros Hb. rewrite chunk_text_unfold, range_from_zero by lia. simpl.
  f_equal. apply chunks_kept; [done | apply str_split_words |].
  apply Forall_forall. intros k [_ Hk]%elem_of_seq. apply range_count; lia.
Qed.

Lemma chunk_text_not_blank (text : string) (cs ov : Z) :
  0 ≤ ov < cs → nonblank text = true →
  ∃ c chunks, chunk_text text cs ov = Ok (c :: chunks).
Proof.
  intros Hb Htext. rewrite chunk_text_chunks by done.
  pose proof (range_count (Z.of_nat (length (Builtins.str_split text)))
                (cs - ov) 0 ltac:(lia) ltac:(lia)) as H0.
  destruct (Z.to_nat _) as [|m].
  - exfalso. destruct (Builtins.str_split text) eqn:HW.
    + apply str_split_nil in HW. congruence.
    + simpl in H0. lia.
  - rewrite <- cons_seq. simpl. by eexists _, _.
Qed.

(** X13: the degenerate calls of [chunk_text].  With
    [chunk_size = overlap] the step of the range is 0 and the call raises
    [ValueError], whatever the text; with [chunk_size < overlap] the range
    is empty and the text is dropped without an error; a blank text gives
    no chunk. *)
Theorem chunk_text_degenerate_steps (text : string) (chunk_size overlap : Z) :
  (chunk_size = overlap →
   chunk_text text chunk_size overlap = Raise ValueError) ∧
  (chunk_size < overlap → chunk_text text chunk_size overlap = Ok []) ∧
  (chunk_size ≠ overlap → nonblank text = false →
   chunk_text text chunk_size overlap = Ok []).
Proof.
  split_and!.
  - intros ->. unfold chunk_text, Builtins.range.
    by rewrite Z.sub_diag.
  - intros Hlt. rewrite chunk_text_unfold, range_backwards by lia. done.
  - intros Hne Hblank%str_split_nil. rewrite chunk_text_unfold, Hblank.
    unfold Builtins.range, Builtins.range_length. simpl.
    destruct (Z.eqb_spec (chunk_size - overlap) 0); [lia |].
    by destruct (0 <? chunk_size - overlap).
Qed.


Section Pipeline.
Context `{W : World}.

(** X15: a document that [scrape] returns gives one chunk at least, under
    the chunk size and the overlap that [embed_documents] uses: the crawl
    keeps no document whose content is blank, and a text that is not blank
    has a word. *)
Theorem scraped_documents_have_chunks (self : scraper) (fuel : nat)
    (docs : list document) :
  scrape self fuel = Some (Ok docs) →
  Forall (λ d, ∃ c chunks, chunk_text (doc_content d) 300 50
                           = Ok (c :: chunks)) docs.
Proof.
  unfold scrape. destruct (seed_state self) as [st|e] eqn:Hseed; [| done].
  destruct (scrape_loop self fuel st) as [st'|] eqn:Hloop; [| done].
  simpl. intros [= <-]. apply scrape_loop_run in Hloop as [-> _].
  assert (documents_ok (run self fuel st)) as [_ Hdocs].
  { apply run_documents_ok. apply seed_state_spec in Hseed as (seed & _ & ->).
    split; simpl; [constructor | intros d Hd; by apply elem_of_nil in Hd]. }
  apply Forall_forall. intros d Hd.
  destruct (Hdocs d Hd) as [_ Hblank].
  by apply chunk_text_not_blank.
Qed.
End Pipeline.

(** ** The ids of the chunks *)

Lemma to_uint_not_nil (n : nat) : Nat.to_uint n ≠ Decimal.Nil.
Proof.
  pose proof (Unsigned.to_of (Nat.to_uint n)) as H.
  rewrite Unsigned.of_to in H. rewrite H. apply unorm_nonnil.
Qed.

Lemma str_of_nat_inj (n n' : nat) :
  Builtins.str_of_nat n = Builtins.str_of_nat n' → n = n'.
Proof.
  unfold Builtins.str_of_nat. intros H.
  apply (f_equal NilZero.uint_of_string) in H.
  rewrite !NilZero.usu in H by apply to_uint_not_nil.
  injection H as H. by apply Unsigned.to_uint_inj.
Qed.

Lemma string_of_uint_no_underscore (d : Decimal.uint) :
  Py.in_chars "_" (NilEmpty.string_of_uint d) = false.
Proof.
  induction d; [done | ..];
    cbn [NilEmpty.string_of_uint Py.in_chars]; rewrite IHd; reflexivity.
Qed.

Lemma str_of_nat_no_underscore (n : nat) :
  Py.in_chars "_" (Builtins.str_of_nat n) = false.
Proof.
  unfold Builtins.str_of_nat, NilZero.string_of_uint.
  destruct (Nat.to_uint n); [done | ..]; apply string_of_uint_no_underscore.
Qed.

Lemma app_sep_inj (c : ascii) (a a' b b' : string) :
  Py.in_chars c a = false → Py.in_chars c a' = false →
  a +:+ String c b = a' +:+ String c b' → a = a' ∧ b = b'.
Proof.
  revert a'. induction a as [|x a IH]; intros [|y a']; simpl.
  - intros _ _ [= ->]. done.
  - intros _ Hc [= -> _]. by rewrite Ascii.eqb_refl in Hc.
  - intros Hc _ [= -> _]. by rewrite Ascii.eqb_refl in Hc.
  - intros [_ Ha]%orb_false_iff [_ Ha']%orb_false_iff [= -> Heq].
    destruct (IH a' Ha Ha' Heq) as [-> ->]. done.
Qed.

Lemma chunk_id_inj (i j i' j' : nat) :
  chunk_id i j = chunk_id i' j' → i = i' ∧ j = j'.
Proof.
  unfold chunk_id. intros H. injection H as H.
  change ("_chunk_" +:+ Builtins.str_of_nat j)
    with (String "_" ("chunk_" +:+ Builtins.str_of_nat j)) in H.
  change ("_chunk_" +:+ Builtins.str_of_nat j')
    with (String "_" ("chunk_" +:+ Builtins.str_of_nat j')) in H.
  apply app_sep_inj in H as [Hi Hj]; [| apply str_of_nat_no_underscore..].
  injection Hj as Hj. split; by apply str_of_nat_inj.
Qed.

(** ** [enumerate] *)

Lemma enumerate_from_lookup {A : Type} (l : list A) (i k : nat) :
  Builtins.enumerate_from i l !! k = (λ x, ((i + k)%nat, x)) <$> l !! k.
Proof.
  revert i k. induction l as [|x l IH]; intros i [|k]; simpl; [done.. | |].
  - by rewrite Nat.add_0_r.
  - rewrite IH. by replace (S i + k)%nat with (i + S k)%nat by lia.
Qed.

Lemma enumerate_from_elem {A : Type} (l : list A) (i j : nat) (x : A) :
  (j, x) ∈ Builtins.enumerate_from i l ↔
  (i ≤ j)%nat ∧ l !! (j - i)%nat = Some x.
Proof.
  rewrite list_elem_of_lookup. split.
  - intros [k Hk]. rewrite enumerate_from_lookup in Hk.
    destruct (l !! k) as [y|] eqn:Hy; [| done]. injection Hk as <- <-.
    split; [lia |]. by replace (i + k - i)%nat with k by lia.
  - intros [Hij Hx]. exists (j - i)%nat. rewrite enumerate_from_lookup, Hx.
    simpl. do 2 f_equal. lia.
Qed.

Lemma enumerate_from_length {A : Type} (l : list A) (i : nat) :
  length (Builtins.enumerate_from i l) = length l.
Proof. revert i. induction l as [|x l IH]; intros i; simpl; [done |]. by rewrite IH. Qed.

(** ** The chunks of all documents *)

(** ** The chunks of all documents *)

Lemma chunk_document_spec (i : nat) (d : document) :
  ∃ chunks,
    chunk_text (doc_content d) 300 50 = Ok chunks ∧
    chunk_document i d
    = Ok (map (λ '(j, c),
                 (c, {| meta_url := doc_url d; meta_title := doc_title d;
                        chunk_index := j |}, chunk_id i j))
              (Builtins.enumerate chunks)).
Proof.
  unfold chunk_document. rewrite chunk_text_chunks by lia. simpl.
  by eexists.
Qed.

Lemma chunk_documents_spec (docs : list document) (i : nat) :
  ∃ all,
    chunk_documents (Builtins.enumerate_from i docs) = Ok all ∧
    NoDup (map snd all) ∧
    (∀ x, x ∈ all →
       ∃ k j d chunks,
         (i ≤ k)%nat ∧ docs !! (k - i)%nat = Some d ∧
         chunk_text (doc_content d) 300 50 = Ok chunks ∧
         chunks !! j = Some (fst (fst x)) ∧
         snd (fst x) = {| meta_url := doc_url d; meta_title := doc_title d;
                          chunk_index := j |} ∧
         snd x = chunk_id k j) ∧
    (∀ k j d chunks c,
       docs !! k = Some d →
       chunk_text (doc_content d) 300 50 = Ok chunks →
       chunks !! j = Some c →
       (c, {| meta_url := doc_url d; meta_title := doc_title d;
              chunk_index := j |}, chunk_id (i + k) j) ∈ all).
Proof.
  revert i. induction docs as [|d docs IH]; intros i.
  { exists []. split_and!; [done | constructor | |].
    - intros x Hx. by apply elem_of_nil in Hx.
    - intros k j d chunks c Hk. by rewrite lookup_nil in Hk. }
  destruct (chunk_document_spec i d) as (chunks & Hchunks & Hhere).
  destruct (IH (S i)) as (more & Hmore & Hnd & Hsound & Hcomplete).
  set (F := λ '(j, c), (c, {| meta_url := doc_url d; meta_title := doc_title d;
                              chunk_index := j |}, chunk_id i j)) in Hhere.
  assert (∀ x, x ∈ map F (Builtins.enumerate chunks) ↔
               ∃ j c, chunks !! j = Some c ∧ x = F (j, c)) as Hin.
  { intros x. rewrite list_elem_of_fmap. split.
    - intros ([j c] & -> & [_ Hj]%enumerate_from_elem).
      rewrite Nat.sub_0_r in Hj. by exists j, c.
    - intros (j & c & Hj & ->). exists (j, c). split; [done |].
      apply enumerate_from_elem. rewrite Nat.sub_0_r. split; [lia | done]. }
  exists (map F (Builtins.enumerate chunks) ++ more).
  split_and!.
  - cbn [chunk_documents Builtins.enumerate_from]. rewrite Hhere.
    cbn [rbind]. rewrite Hmore. done.
  - rewrite map_app. apply NoDup_app. split_and!; [| | done].
    + apply NoDup_alt. intros a b id.
      rewrite !list_lookup_fmap. unfold Builtins.enumerate.
      rewrite !enumerate_from_lookup.
      destruct (chunks !! a) as [ca|]; [| done].
      destruct (chunks !! b) as [cb|]; [| done]. intros Ha Hb.
      assert (Some (chunk_id i (0 + a)) = Some (chunk_id i (0 + b))) as Heq
        by exact (eq_trans Ha (eq_sym Hb)).
      apply (inj Some) in Heq. apply chunk_id_inj in Heq. lia.
    + intros id (x & -> & (j & c & _ & ->)%Hin)%list_elem_of_fmap
        (y & Hid & Hy)%list_elem_of_fmap.
      destruct (Hsound y Hy) as (k & j' & _ & _ & Hk & _ & _ & _ & _ & Hidy).
      simpl in Hid. rewrite Hidy in Hid. apply chunk_id_inj in Hid. lia.
  - intros x [(j & c & Hj & ->)%Hin | Hx]%elem_of_app.
    + exists i, j, d, chunks. rewrite Nat.sub_diag. by split_and!.
    + destruct (Hsound x Hx) as (k & j & d' & chunks' & Hk & Hd & H).
      exists k, j, d', chunks'. split; [lia |]. split; [| done].
      replace (k - i)%nat with (S (k - S i)) by lia. done.
  - intros [|k] j d' chunks' c Hk Hc Hj.
    + injection Hk as <-. rewrite Hchunks in Hc. injection Hc as <-.
      apply elem_of_app. left. apply Hin. exists j, c.
      by rewrite Nat.add_0_r.
    + apply elem_of_app. right.
      replace (i + S k)%nat with (S i + k)%nat by lia.
      by eapply Hcomplete.
Qed.

(** ** The batches *)

Lemma slice_batch {A : Type} (l : list A) (N k : nat) :
  length l = N → (k * 100 < N)%nat →
  Builtins.slice l (Z.of_nat k * 100)
    (Z.min (Z.of_nat k * 100 + 100) (Z.of_nat N))
  = take 100 (drop (k * 100) l).
Proof.
  intros Hl Hk. rewrite slice_take_drop by lia.
  replace (Z.to_nat (Z.of_nat k * 100)) with (k * 100)%nat by lia.
  destruct (Z.le_gt_cases (Z.of_nat k * 100 + 100) (Z.of_nat N)).
  - rewrite Z.min_l by lia. f_equal. lia.
  - rewrite Z.min_r by lia. rewrite !take_ge; [done | |];
      rewrite length_drop; lia.
Qed.

Section EmbedDocuments.
Context `{B : Backend}.

Lemma add_batches_spec (bs acc added : list (batch embedding))
    (res : result unit) :
  add_batches bs acc = (added, res) →
  ∃ j, (j ≤ length bs)%nat ∧ added = acc ++ take j bs ∧
       match res with
       | Ok _ => j = length bs
       | Raise e => ∃ b, bs !! j = Some b ∧ collection_add added b = Raise e
       end.
Proof.
  revert acc. induction bs as [|b bs IH]; intros acc; simpl.
  - intros [= <- <-]. exists 0%nat. by rewrite app_nil_r.
  - destruct (collection_add acc b) as [[]|e] eqn:Hadd.
    + intros (j & Hj & -> & Hres)%IH. exists (S j). simpl.
      rewrite <- app_assoc in *. split_and!; [lia | done |].
      destruct res; [lia | done].
    + intros [= <- <-]. exists 0%nat. simpl. rewrite app_nil_r.
      split_and!; [lia | done |]. by exists b.
Qed.

(** The batch number [k] holds the entries from [100 * k] on, 100 of them
    at most, and the rows of the embeddings at the same places. *)
Lemma batch_at_spec (all : list (string * metadata * string))
    (embeddings : list embedding) (k : nat) :
  (k * 100 < length all)%nat →
  let b := batch_at (map (λ x, fst (fst x)) all) embeddings
             (map (λ x, snd (fst x)) all) (map snd all)
             (Z.of_nat k * 100) in
  let part := take 100 (drop (k * 100) all) in
  batch_documents b = map (λ x, fst (fst x)) part ∧
  batch_metadatas b = map (λ x, snd (fst x)) part ∧
  batch_ids b = map snd part ∧
  batch_embeddings b = take (length part) (drop (k * 100) embeddings).
Proof.
  intros Hk. unfold batch_at. simpl. rewrite length_map.
  rewrite !(slice_batch _ (length all)) by (by rewrite ?length_map).
  rewrite <- !fmap_drop, <- !fmap_take. split_and!; [done.. |].
  rewrite slice_take_drop by lia.
  replace (Z.to_nat (Z.of_nat k * 100)) with (k * 100)%nat by lia.
  f_equal. rewrite length_take, length_drop. lia.
Qed.

Lemma embed_documents_spec (docs : list document)
    (added : list (batch embedding)) (res : result unit) :
  embed_documents docs = (added, res) →
  ∃ all,
    chunk_documents (Builtins.enumerate docs) = Ok all ∧
    ((∃ e, encode (map (λ x, fst (fst x)) all) = Raise e ∧
           added = [] ∧ res = Raise e) ∨
     ∃ embeddings j,
       encode (map (λ x, fst (fst x)) all) = Ok embeddings ∧
       (∀ k, (k < j)%nat → (k * 100 < length all)%nat) ∧
       added = map (λ k : nat,
                      batch_at (map (λ x, fst (fst x)) all) embeddings
                        (map (λ x, snd (fst x)) all) (map snd all)
                        (Z.of_nat k * 100))
                   (seq 0 j) ∧
       match res with
       | Ok _ => (length all ≤ j * 100)%nat
       | Raise e =>
           (j * 100 < length all)%nat ∧
           collection_add added
             (batch_at (map (λ x, fst (fst x)) all) embeddings
                (map (λ x, snd (fst x)) all) (map snd all)
                (Z.of_nat j * 100)) = Raise e
       end).
Proof.
  unfold embed_documents.
  destruct (chunk_documents_spec docs 0) as (all & Hall & _).
  unfold Builtins.enumerate. rewrite Hall. intros Hrun. exists all.
  split; [done |].
  destruct (encode (map (λ x, fst (fst x)) all)) as [embeddings|e] eqn:Henc.
  2: { left. exists e. by injection Hrun as <- <-. }
  right. exists embeddings.
  rewrite range_from_zero in Hrun by lia. rewrite length_map in Hrun.
  set (m := Z.to_nat ((Z.of_nat (length all) + 100 - 1) / 100)) in Hrun.
  assert (∀ k : nat, (k < m)%nat ↔ (k * 100 < length all)%nat) as Hm.
  { intros k. unfold m. rewrite range_count by lia. lia. }
  apply add_batches_spec in Hrun as (j & Hj & -> & Hres).
  rewrite !length_map, length_seq in Hj.
  exists j. split; [done |]. split; [intros k Hk; apply Hm; lia |].
  rewrite map_map, <- fmap_take, take_seq, Nat.min_l by lia. simpl.
  split; [done |]. destruct res as [[]|e].
  - rewrite !length_map, length_seq in Hres. subst j.
    pose proof (Hm m). lia.
  - destruct Hres as (b & Hb & Hadd). rewrite map_map in Hb.
    rewrite list_lookup_fmap in Hb.
    destruct (seq 0 m !! j) as [j'|] eqn:Hlook; [| done].
    apply lookup_seq in Hlook as [-> Hlt]. simpl in Hb. injection Hb as <-.
    split; [by apply Hm |].
    revert Hadd. by rewrite map_map, <- fmap_take, take_seq, Nat.min_l by lia.
Qed.
End EmbedDocuments.

(** ** [embed_documents] *)

Lemma flat_map_ext_in {A B : Type} (f g : A → list B) (l : list A) :
  (∀ a, a ∈ l → f a = g a) → flat_map f l = flat_map g l.
Proof.
  induction l as [|a l IH]; intros Hfg; simpl; [done |].
  rewrite Hfg by apply list_elem_of_here. rewrite IH; [done |].
  intros b Hb. apply Hfg. by apply list_elem_of_further.
Qed.

Lemma flat_map_fmap {A B C : Type} (f : B → C) (g : A → list B) (l : list A) :
  flat_map (λ a, map f (g a)) l = map f (flat_map g l).
Proof.
  induction l as [|a l IH]; simpl; [done |]. by rewrite IH, map_app.
Qed.

(** Consecutive parts of [c] elements add up to a prefix of the list. *)
Lemma parts_concat {A : Type} (l : list A) (c j : nat) :
  flat_map (λ k, take c (drop (k * c) l)) (seq 0 j) = take (j * c) l.
Proof.
  induction j as [|j IH]; [done |].
  rewrite seq_S, flat_map_app, IH. simpl. rewrite app_nil_r.
  rewrite take_take_drop. f_equal. lia.
Qed.

Lemma part_lookup {A : Type} (l : list A) (k q : nat) (x : A) :
  take 100 (drop (k * 100) l) !! q = Some x ↔
  (q < 100)%nat ∧ l !! (k * 100 + q)%nat = Some x.
Proof.
  destruct (decide (q < 100)%nat) as [Hq | Hq].
  - rewrite lookup_take_lt, lookup_drop by done. naive_solver.
  - rewrite lookup_take_ge by lia. naive_solver.
Qed.

Lemma enumerate_from_values {A B : Type} (f : nat → A → B) (g : B → A)
    (l : list A) (i : nat) :
  (∀ j c, g (f j c) = c) →
  map g (map (λ '(j, c), f j c) (Builtins.enumerate_from i l)) = l.
Proof.
  intros Hg. revert i. induction l as [|c l IH]; intros i; simpl; [done |].
  by rewrite Hg, IH.
Qed.

Lemma chunk_documents_chunks (docs : list document) (i : nat)
    (all : list (string * metadata * string)) :
  chunk_documents (Builtins.enumerate_from i docs) = Ok all →
  map (λ x, fst (fst x)) all
  = flat_map (λ d, match chunk_text (doc_content d) 300 50 with
                   | Ok chunks => chunks
                   | Raise _ => []
                   end) docs.
Proof.
  revert i all. induction docs as [|d docs IH]; intros i all.
  { by intros [= <-]. }
  cbn [chunk_documents Builtins.enumerate_from flat_map].
  destruct (chunk_document_spec i d) as (chunks & Hchunks & ->).
  cbn [rbind].
  destruct (chunk_documents (Builtins.enumerate_from (S i) docs))
    as [more|e] eqn:Hmore; [| done].
  cbn [rbind]. intros [= <-]. rewrite map_app, Hchunks, (IH _ _ Hmore).
  f_equal. unfold Builtins.enumerate.
  by apply (enumerate_from_values
              (λ j c, (c, {| meta_url := doc_url d; meta_title := doc_title d;
                             chunk_index := j |}, chunk_id i j))).
Qed.

Section EmbedDocumentsProperties.
Context `{B : Backend}.

(** The batches that were added hold the first entries of the list. *)
Lemma added_batches (all : list (string * metadata * string))
    (embeddings : list embedding) (j : nat) {C : Type}
    (f : string * metadata * string → C)
    (field : batch embedding → list C) :
  (∀ k, (k < j)%nat → (k * 100 < length all)%nat) →
  (∀ k, (k * 100 < length all)%nat →
        field (batch_at (map (λ x, fst (fst x)) all) embeddings
                 (map (λ x, snd (fst x)) all) (map snd all)
                 (Z.of_nat k * 100))
        = map f (take 100 (drop (k * 100) all))) →
  flat_map field
    (map (λ k : nat,
            batch_at (map (λ x, fst (fst x)) all) embeddings
              (map (λ x, snd (fst x)) all) (map snd all) (Z.of_nat k * 100))
         (seq 0 j))
  = take (j * 100) (map f all).
Proof.
  intros Hj Hfield. rewrite flat_map_map.
  rewrite (flat_map_ext_in _ (λ k, map f (take 100 (drop (k * 100) all)))).
  - by rewrite flat_map_fmap, parts_concat, fmap_take.
  - intros k [_ Hk]%elem_of_seq. apply Hfield, Hj. lia.
Qed.

(** X16: what [embed_documents] gives to the collection, however the call
    ends.  The ids of all batches together are pairwise distinct, and the
    batches hold chunks of the documents: the entry at a place of a batch
    is a chunk of a document, with the URL and the title of that document
    and the index of the chunk as metadata, and the id made of the two
    indices.  A batch has between 1 and 100 entries, as many ids and
    metadata as chunks.  When [encode] raises nothing is added. *)
Theorem stored_chunks_have_distinct_ids (docs : list document)
    (added : list (batch embedding)) (res : result unit) :
  embed_documents docs = (added, res) →
  NoDup (flat_map batch_ids added) ∧
  (∀ b q id,
     b ∈ added → batch_ids b !! q = Some id →
     ∃ i j d chunks c,
       docs !! i = Some d ∧
       chunk_text (doc_content d) 300 50 = Ok chunks ∧
       chunks !! j = Some c ∧
       id = chunk_id i j ∧
       batch_documents b !! q = Some c ∧
       batch_metadatas b !! q
       = Some {| meta_url := doc_url d; meta_title := doc_title d;
                 chunk_index := j |}) ∧
  Forall (λ b, (1 ≤ length (batch_documents b) ≤ 100)%nat ∧
               length (batch_metadatas b) = length (batch_documents b) ∧
               length (batch_ids b) = length (batch_documents b)) added ∧
  (∀ e, encode (flat_map (λ d, match chunk_text (doc_content d) 300 50 with
                               | Ok chunks => chunks
                               | Raise _ => []
                               end) docs) = Raise e →
        added = [] ∧ res = Raise e).
Proof.
  intros Hrun.
  destruct (embed_documents_spec _ _ _ Hrun) as (all & Hall & Hcases).
  pose proof (chunk_documents_chunks _ _ _ Hall) as Hchunks.
  destruct (chunk_documents_spec docs 0) as (all' & Hall' & Hnd & Hsound & _).
  unfold Builtins.enumerate in Hall. rewrite Hall in Hall'.
  injection Hall' as <-.
  destruct Hcases as [(e & Henc & -> & ->) | (embeddings & j & Henc & Hj & -> & Hres)].
  { split_and!; [constructor | | done |].
    - intros b q id Hb. by apply elem_of_nil in Hb.
    - intros e'. rewrite <- Hchunks, Henc. by intros [= <-]. }
  split_and!.
  - rewrite (added_batches all embeddings j snd batch_ids Hj).
    + rewrite <- (take_drop (j * 100) (map snd all)) in Hnd.
      by apply NoDup_app in Hnd as [? _].
    + intros k Hk. by destruct (batch_at_spec all embeddings k Hk) as (_ & _ & ? & _).
  - intros b q id (k & -> & [_ Hk]%elem_of_seq)%list_elem_of_fmap.
    assert (k * 100 < length all)%nat as Hlt by (apply Hj; lia).
    destruct (batch_at_spec all embeddings k Hlt) as (-> & -> & -> & _).
    rewrite !list_lookup_fmap.
    destruct (take 100 (drop (k * 100) all) !! q) as [x|] eqn:Hx; [| done].
    simpl. intros [= <-]. apply part_lookup in Hx as [_ Hx].
    apply list_elem_of_lookup_2 in Hx.
    destruct (Hsound x Hx) as (i & j' & d & chunks & _ & Hd & Hc & Hcj & Hm & Hid).
    rewrite Nat.sub_0_r in Hd.
    exists i, j', d, chunks, (fst (fst x)). by rewrite Hm.
  - apply Forall_forall.
    intros b (k & -> & [_ Hk]%elem_of_seq)%list_elem_of_fmap.
    assert (k * 100 < length all)%nat as Hlt by (apply Hj; lia).
    destruct (batch_at_spec all embeddings k Hlt) as (-> & -> & -> & _).
    rewrite !length_map, length_take, length_drop. lia.
  - intros e. rewrite <- Hchunks, Henc. done.
Qed.

(** X17: when [embed_documents] returns, every chunk of every document has
    been given to the collection, with its metadata and under its id, and
    the chunks were given in the order of the documents and of the chunks
    in each; all batches but the last hold 100 chunks. *)
Theorem every_chunk_is_stored (docs : list document)
    (added : list (batch embedding)) :
  embed_documents docs = (added, Ok tt) →
  flat_map batch_documents added
  = flat_map (λ d, match chunk_text (doc_content d) 300 50 with
                   | Ok chunks => chunks
                   | Raise _ => []
                   end) docs ∧
  (∀ i j d chunks c,
     docs !! i = Some d →
     chunk_text (doc_content d) 300 50 = Ok chunks →
     chunks !! j = Some c →
     ∃ b q,
       b ∈ added ∧
       batch_documents b !! q = Some c ∧
       batch_ids b !! q = Some (chunk_id i j) ∧
       batch_metadatas b !! q
       = Some {| meta_url := doc_url d; meta_title := doc_title d;
                 chunk_index := j |}) ∧
  (∀ k b, added !! k = Some b → (S k < length added)%nat →
          length (batch_documents b) = 100%nat).
Proof.
  intros Hrun.
  destruct (embed_documents_spec _ _ _ Hrun) as (all & Hall & Hcases).
  pose proof (chunk_documents_chunks _ _ _ Hall) as Hchunks.
  destruct (chunk_documents_spec docs 0)
    as (all' & Hall' & _ & _ & Hcomplete).
  unfold Builtins.enumerate in Hall. rewrite Hall in Hall'.
  injection Hall' as <-.
  destruct Hcases as [(e & _ & _ & [=]) | (embeddings & j & Henc & Hj & -> & Hres)].
  split_and!.
  - rewrite (added_batches all embeddings j (λ x, fst (fst x)) batch_documents Hj).
    + rewrite take_ge by (rewrite length_map; lia). done.
    + intros k Hk. by destruct (batch_at_spec all embeddings k Hk) as (? & _).
  - intros i j' d chunks c Hd Hc Hcj.
    pose proof (Hcomplete i j' d chunks c Hd Hc Hcj) as Hx.
    apply list_elem_of_lookup_1 in Hx as [p Hp].
    pose proof (lookup_lt_Some _ _ _ Hp) as Hlt.
    pose proof (Nat.div_mod_eq p 100) as Hdm.
    pose proof (Nat.mod_upper_bound p 100 ltac:(lia)) as Hmod.
    set (k := (p / 100)%nat) in *. set (q := (p mod 100)%nat) in *.
    assert (k * 100 < length all)%nat as Hk by lia.
    eexists _, q. split.
    { apply list_elem_of_fmap. exists k. split; [done |].
      apply elem_of_seq. nia. }
    destruct (batch_at_spec all embeddings k Hk) as (-> & -> & -> & _).
    assert (take 100 (drop (k * 100) all) !! q = Some
              (c, {| meta_url := doc_url d; meta_title := doc_title d;
                     chunk_index := j' |}, chunk_id i j')) as Hq.
    { apply part_lookup. split; [done |].
      by replace (k * 100 + q)%nat with p by lia. }
    rewrite !list_lookup_fmap, Hq. done.
  - intros k b. rewrite list_lookup_fmap, length_map, length_seq.
    destruct (seq 0 j !! k) as [k'|] eqn:Hk; [| done].
    apply lookup_seq in Hk as [-> Hk]. simpl. intros [= <-] HS.
    assert (S k * 100 < length all)%nat as Hlt.
    { apply Hj. lia. }
    assert (k * 100 < length all)%nat as Hlt' by lia.
    destruct (batch_at_spec all embeddings k Hlt') as (-> & _).
    rewrite length_map, length_take, length_drop. lia.
Qed.
End EmbedDocumentsProperties.

(** ** The further properties on the examples *)

Lemma visited_and_pending_are_queued_witness :
  visited_urls (@run site_world guide_scraper 1 guide_seed)
    ⊆ queued_urls (@run site_world guide_scraper 1 guide_seed) ∧
  (∀ u, u ∈ urls_to_visit (@run site_world guide_scraper 1 guide_seed) →
        u ∈ queued_urls (@run site_world guide_scraper 1 guide_seed)) ∧
  queued_urls (@run site_world guide_scraper 1 guide_seed)
    ⊆ queued_urls (@run site_world guide_scraper (1 + 2) guide_seed).
Proof.
  apply (@visited_and_pending_are_queued site_world guide_scraper guide_seed
           1 2).
  reflexivity.
Defined.


(** On the example site a second call of [scrape] finds the seed visited
    and is a skip. *)
Example second_scrape_skips_the_seed :
  ∃ again,
    @reentry_state site_world guide_scraper
      (@run site_world guide_scraper 3 guide_seed) = Ok again ∧
    @outcome_of site_world guide_scraper again = Skipped ∧
    urls_to_visit (@loop_body site_world guide_scraper again) = [].
Proof. eexists. split; [reflexivity |]. split; by vm_compute. Qed.

Lemma requests_follow_queue_order_witness :
  (requested (trace (@run site_world guide_scraper 1 guide_seed))
   ++ urls_to_visit (@run site_world guide_scraper 1 guide_seed))
  `prefix_of`
  (requested (trace (@run site_world guide_scraper (1 + 2) guide_seed))
   ++ urls_to_visit (@run site_world guide_scraper (1 + 2) guide_seed)).
Proof.
  apply (@requests_follow_queue_order site_world guide_scraper guide_seed 1 2).
  reflexivity.
Defined.

(** On the site of [flaky_world] the request of [a] fails in the second
    iteration; the page [b], fetched after it, links to [a] again, and the
    crawl goes on to [c]. *)
Example failed_request_on_site :
  requested (trace (@run flaky_world guide_scraper 2 guide_seed))
  = ["https://docs.example.com/guide"; "https://docs.example.com/guide/a"] ∧
  urls_to_visit (@run flaky_world guide_scraper 2 guide_seed)
  = ["https://docs.example.com/guide/b"] ∧
  Bs4.hrefs (@BeautifulSoup flaky_world "https://docs.example.com/guide/b")
  = ["https://docs.example.com/guide/a"; "https://docs.example.com/guide/c"] ∧
  requested (trace (@run flaky_world guide_scraper (2 + 2) guide_seed))
  = ["https://docs.example.com/guide"; "https://docs.example.com/guide/a";
     "https://docs.example.com/guide/b"; "https://docs.example.com/guide/c"] ∧
  size (visited_urls (@run flaky_world guide_scraper (2 + 2) guide_seed))
  = 3%nat.
Proof. split_and!; by vm_compute. Qed.

Lemma failed_url_is_never_visited_witness :
  ("https://docs.example.com/guide/a"
     ∉ visited_urls (@run flaky_world guide_scraper (2 + 2) guide_seed)) ∧
  NoDup (requested (trace (@run flaky_world guide_scraper (2 + 2) guide_seed))).
Proof.
  apply (@failed_url_is_never_visited flaky_world guide_scraper guide_seed
           2 2 "https://docs.example.com/guide/a").
  - reflexivity.
  - vm_compute. right. left.
  - assert (bool_decide
              ("https://docs.example.com/guide/a"
                 ∈ visited_urls (@run flaky_world guide_scraper 2 guide_seed))
            = false) as H by (vm_compute; reflexivity).
    by apply bool_decide_eq_false in H.
Defined.

(** On the site of [stranding_world] the processing of [a], the second
    page, raises after [lost] was marked as queued; the page [b], fetched
    after it, links to [lost] too, and the crawl goes on to [c] without
    ever requesting [lost]. *)
Example lost_link_on_site :
  @outcome_of stranding_world guide_scraper
    (@run stranding_world guide_scraper 1 guide_seed)
  = ProcessingFailed ValueError ∧
  urls_to_visit (@run stranding_world guide_scraper 2 guide_seed)
  = ["https://docs.example.com/guide/b"] ∧
  Bs4.hrefs (@BeautifulSoup stranding_world "https://docs.example.com/guide/b")
  = ["https://docs.example.com/guide/lost";
     "https://docs.example.com/guide/c"] ∧
  requested (trace (@run stranding_world guide_scraper 4 guide_seed))
  = ["https://docs.example.com/guide"; "https://docs.example.com/guide/a";
     "https://docs.example.com/guide/b"; "https://docs.example.com/guide/c"] ∧
  bool_decide ("https://docs.example.com/guide/lost"
                 ∈ queued_urls (@run stranding_world guide_scraper 4 guide_seed))
  = true.
Proof. split_and!; by vm_compute. Qed.

Lemma links_queued_before_an_exception_are_lost_witness :
  ("https://docs.example.com/guide/lost"
     ∉ urls_to_visit
         (@run stranding_world guide_scraper 2
            (@loop_body stranding_world guide_scraper
               (@run stranding_world guide_scraper 1 guide_seed)))) ∧
  ("https://docs.example.com/guide/lost"
     ∉ requested
         (trace (@run stranding_world guide_scraper 2
                   (@loop_body stranding_world guide_scraper
                      (@run stranding_world guide_scraper 1 guide_seed))))).
Proof.
  apply (@links_queued_before_an_exception_are_lost stranding_world
           guide_scraper guide_seed 1 2 ValueError
           "https://docs.example.com/guide/lost").
  - reflexivity.
  - vm_compute. reflexivity.
  - assert (bool_decide
              ("https://docs.example.com/guide/lost"
                 ∈ queued_urls
                     (@loop_body stranding_world guide_scraper
                        (@run stranding_world guide_scraper 1 guide_seed)))
            = true) as H by (vm_compute; reflexivity).
    by apply bool_decide_eq_true in H.
  - assert (bool_decide
              ("https://docs.example.com/guide/lost"
                 ∈ queued_urls (@run stranding_world guide_scraper 1 guide_seed))
            = false) as H by (vm_compute; reflexivity).
    by apply bool_decide_eq_false in H.
Defined.

Lemma pdf_record_has_text_iff_a_page_has_witness :
  doc_content (fst (@extract_pdf_content pdf_world "%PDF-1.7"
                      "https://docs.example.com/guide/manual.pdf")) =
    Py.join (String "010" (String "010" ""))
      (List.filter nonblank [Py.bytes [194; 160]%nat; "Manual"; ""]) ∧
  (nonblank (doc_content (fst (@extract_pdf_content pdf_world "%PDF-1.7"
                                 "https://docs.example.com/guide/manual.pdf")))
   = true ↔
   ∃ t, t ∈ [Py.bytes [194; 160]%nat; "Manual"; ""] ∧ nonblank t = true) ∧
  snd (@extract_pdf_content pdf_world "%PDF-1.7"
         "https://docs.example.com/guide/manual.pdf") = [].
Proof.
  apply (@pdf_record_has_text_iff_a_page_has pdf_world "%PDF-1.7"
           "https://docs.example.com/guide/manual.pdf" manual_pdf
           [Py.bytes [194; 160]%nat; "Manual"; ""] None); reflexivity.
Defined.

Lemma pdf_pages_add_no_links_witness :
  @outcome_of damaged_pdf_world guide_scraper guide_seed = Completed ∧
  visited_urls (@loop_body damaged_pdf_world guide_scraper guide_seed)
    = {["https://docs.example.com/guide"]} ∪ visited_urls guide_seed ∧
  queued_urls (@loop_body damaged_pdf_world guide_scraper guide_seed)
    = queued_urls guide_seed ∧
  urls_to_visit (@loop_body damaged_pdf_world guide_scraper guide_seed) = [] ∧
  last (trace (@loop_body damaged_pdf_world guide_scraper guide_seed))
    = Some (Sleep 51) ∧
  documents (@loop_body damaged_pdf_world guide_scraper guide_seed)
    = documents guide_seed ∧
  WarnPdf "https://docs.example.com/guide" PdfReadError
    ∈ trace (@loop_body damaged_pdf_world guide_scraper guide_seed).
Proof.
  destruct (@pdf_pages_add_no_links damaged_pdf_world guide_scraper guide_seed
              "https://docs.example.com/guide" [] pdf_response)
    as (H1 & H2 & H3 & H4 & H5 & H6 & _).
  - reflexivity.
  - apply not_elem_of_empty.
  - reflexivity.
  - vm_compute. reflexivity.
  - split_and!; [done.. | |]; apply (H6 PdfReadError); right;
      exists damaged_pdf; (split; [reflexivity |]); left;
      by exists ["Manual"], [].
Defined.

(** A PDF that parses: on the three pages of [manual_pdf], the first of
    which is a no-break space, the record with the text of the second is
    added. *)
Example manual_pdf_is_added :
  documents (@loop_body pdf_world guide_scraper guide_seed)
  = [{| doc_url := "https://docs.example.com/guide"; doc_title := "Manual";
        doc_content := "Manual" |}].
Proof. by vm_compute. Qed.

Lemma documents_are_distinct_and_nonblank_witness :
  documents_ok (@run site_world guide_scraper 3 guide_seed) ∧
  (length (documents (@run site_world guide_scraper 3 guide_seed))
   ≤ size (visited_urls (@run site_world guide_scraper 3 guide_seed)))%nat ∧
  Z.of_nat (length (documents (@run site_world guide_scraper 3 guide_seed)))
  ≤ Z.max 0 (max_pages guide_scraper) ∧
  ∀ fuel docs,
    @scrape site_world guide_scraper fuel = Some (Ok docs) →
    NoDup (map doc_url docs) ∧
    Forall (λ d, nonblank (doc_content d) = true) docs ∧
    Z.of_nat (length docs) ≤ Z.max 0 (max_pages guide_scraper).
Proof.
  apply (@documents_are_distinct_and_nonblank site_world guide_scraper
           guide_seed 3).
  reflexivity.
Defined.

Lemma normalize_url_ignores_fragment_witness :
  @normalize_url offline_world
    ("https://docs.example.com/guide/" +:+ String "#" "section2")
  = @normalize_url offline_world "https://docs.example.com/guide/" ∧
  ∀ v, @normalize_url offline_world "https://docs.example.com/guide/" = Ok v →
       Py.in_chars "#" v = false.
Proof.
  apply (@normalize_url_ignores_fragment offline_world
           "https://docs.example.com/guide/" "section2").
  reflexivity.
Defined.

Lemma normalize_url_ignores_trailing_slashes_witness :
  @normalize_url offline_world
    ("https://docs.example.com/guide" +:+ Py.replicate 2 "/")
  = @normalize_url offline_world "https://docs.example.com/guide" ∧
  @normalize_url offline_world "https://docs.example.com/guide"
  = Ok (Py.rstrip "/" "https://docs.example.com/guide").
Proof.
  apply (@normalize_url_ignores_trailing_slashes offline_world
           "https://docs.example.com/guide" 2
           {| Urllib.scheme := "https"; Urllib.netloc := "docs.example.com";
              Urllib.path := "/guide" |}
           {| Urllib.scheme := "https"; Urllib.netloc := "docs.example.com";
              Urllib.path := "/guide//" |}).
  - reflexivity.
  - vm_compute. reflexivity.
  - discriminate.
  - vm_compute. reflexivity.
  - discriminate.
Defined.


Lemma scrape_returns_after_init_witness :
  ∃ seed parsed st,
    @seed_state site_world guide_scraper = Ok st ∧
    urls_to_visit st = [seed] ∧
    @Urllib.urlparse site_world seed = Ok parsed ∧
    Urllib.netloc parsed = domain guide_scraper ∧
    ∃ fuel st',
      @scrape_loop site_world guide_scraper fuel st = Some st' ∧
      @scrape site_world guide_scraper fuel = Some (Ok (documents st')) ∧
      ∀ fuel', (fuel ≤ fuel')%nat →
               @scrape site_world guide_scraper fuel'
               = Some (Ok (documents st')).
Proof.
  apply (@scrape_returns_after_init site_world
           "https://docs.example.com/guide/" 100 guide_scraper).
  reflexivity.
Defined.

Lemma chunk_text_degenerate_steps_witness :
  chunk_text "Install the  package" 50 50 = Raise ValueError ∧
  chunk_text "Install the  package" 50 60 = Ok [] ∧
  chunk_text (Py.bytes [32; 194; 160; 226; 128; 131; 10]%nat) 300 50 = Ok [].
Proof.
  split_and!.
  - apply (proj1 (chunk_text_degenerate_steps "Install the  package" 50 50)).
    reflexivity.
  - apply (proj1 (proj2 (chunk_text_degenerate_steps
                           "Install the  package" 50 60))). lia.
  - apply (proj2 (proj2 (chunk_text_degenerate_steps
                           (Py.bytes [32; 194; 160; 226; 128; 131; 10]%nat)
                           300 50))); [lia | by vm_compute].
Defined.


(** Whitespace is read character by character: a no-break space (U+00A0)
    separates words, an em space (U+2003) is stripped, and [len] counts
    characters, not bytes. *)
Example unicode_whitespace :
  Builtins.str_split ("a" +:+ Py.bytes [194; 160]%nat +:+ "b") = ["a"; "b"] ∧
  chunk_text ("Install the" +:+ Py.bytes [194; 160]%nat +:+ "package  now") 3 1
  = Ok ["Install the package"; "package now"] ∧
  Py.strip (Py.bytes [226; 128; 131]%nat +:+ "caf" +:+ Py.bytes [195; 169]%nat
            +:+ Py.bytes [194; 160; 10]%nat)
  = "caf" +:+ Py.bytes [195; 169]%nat ∧
  nonblank (Py.bytes [194; 160]%nat) = false ∧
  Py.len ("caf" +:+ Py.bytes [195; 169]%nat) = 4%nat.
Proof. split_and!; by vm_compute. Qed.

Lemma scraped_documents_have_chunks_witness :
  Forall (λ d, ∃ c chunks, chunk_text (doc_content d) 300 50
                           = Ok (c :: chunks))
    (match @scrape site_world guide_scraper 5 with
     | Some (Ok docs) => docs
     | _ => []
     end).
Proof.
  apply (@scraped_documents_have_chunks site_world guide_scraper 5).
  vm_compute. reflexivity.
Defined.

Lemma stored_chunks_have_distinct_ids_witness :
  NoDup (flat_map batch_ids
           (fst (@embed_documents length_backend guide_documents))) ∧
  (∀ b q id,
     b ∈ fst (@embed_documents length_backend guide_documents) →
     batch_ids b !! q = Some id →
     ∃ i j d chunks c,
       guide_documents !! i = Some d ∧
       chunk_text (doc_content d) 300 50 = Ok chunks ∧
       chunks !! j = Some c ∧
       id = chunk_id i j ∧
       batch_documents b !! q = Some c ∧
       batch_metadatas b !! q
       = Some {| meta_url := doc_url d; meta_title := doc_title d;
                 chunk_index := j |}) ∧
  Forall (λ b, (1 ≤ length (batch_documents b) ≤ 100)%nat ∧
               length (batch_metadatas b) = length (batch_documents b) ∧
               length (batch_ids b) = length (batch_documents b))
    (fst (@embed_documents length_backend guide_documents)) ∧
  (∀ e, @encode length_backend
          (flat_map (λ d, match chunk_text (doc_content d) 300 50 with
                          | Ok chunks => chunks
                          | Raise _ => []
                          end) guide_documents) = Raise e →
        fst (@embed_documents length_backend guide_documents) = [] ∧
        snd (@embed_documents length_backend guide_documents) = Raise e).
Proof.
  apply (@stored_chunks_have_distinct_ids length_backend guide_documents).
  apply surjective_pairing.
Defined.

Lemma every_chunk_is_stored_witness :
  flat_map batch_documents
    (fst (@embed_documents length_backend guide_documents))
  = flat_map (λ d, match chunk_text (doc_content d) 300 50 with
                   | Ok chunks => chunks
                   | Raise _ => []
                   end) guide_documents ∧
  (∀ i j d chunks c,
     guide_documents !! i = Some d →
     chunk_text (doc_content d) 300 50 = Ok chunks →
     chunks !! j = Some c →
     ∃ b q,
       b ∈ fst (@embed_documents length_backend guide_documents) ∧
       batch_documents b !! q = Some c ∧
       batch_ids b !! q = Some (chunk_id i j) ∧
       batch_metadatas b !! q
       = Some {| meta_url := doc_url d; meta_title := doc_title d;
                 chunk_index := j |}) ∧
  (∀ k b,
     fst (@embed_documents length_backend guide_documents) !! k = Some b →
     (S k < length (fst (@embed_documents length_backend guide_documents)))%nat →
     length (batch_documents b) = 100%nat).
Proof.
  apply (@every_chunk_is_stored length_backend guide_documents).
  vm_compute. reflexivity.
Defined.

(** The two documents are stored in one batch, under these ids. *)
Example guide_documents_stored :
  map (λ b, (batch_ids b, batch_documents b))
      (fst (@embed_documents length_backend guide_documents))
  = [(["doc_0_chunk_0"; "doc_1_chunk_0"],
      ["Install the package"; "Run it"])].
Proof. vm_compute. reflexivity. Qed.

(** A chunk that starts less than [overlap] words before the end of the
    text repeats words of the chunk before it and adds none. *)
Example last_chunk_may_add_nothing :
  chunk_text "a b c d" 3 2 = Ok ["a b c"; "b c d"; "c d"; "d"].
Proof. vm_compute. reflexivity. Qed.
